(** * mtuq: the seismic [Dataset] container and the score-surface reductions

    A shallow embedding of [mtuq/dataset.py] (class [Dataset]) and of the
    array reductions of [mtuq/graphics/uq/depth.py] and
    [mtuq/graphics/uq/origin.py].

    Modelling conventions.
    - [dataset.py] is Python 2 code (it names [unicode], and hands the list
      built by [filter] to the constructor); the embedding follows Python 2.
    - ObsPy streams are mutable objects that several Datasets may share.
      They live in a heap (a list indexed by address); a Dataset holds
      addresses.  Methods are state transformers over an environment made
      of the heap, the receiver [self] and the diagnostic channel fed by
      [warnings.warn].
    - Sample amplitudes, distances and scores enter the code through
      comparisons and [abs] only; they are exact integers here.  A score
      may also be NaN, which the reductions skip.
    - [gps2dist_azimuth] is ObsPy's; it is a parameter, and it may raise. *)

From Stdlib Require Import ZArith List Lia Sorted Permutation Ascii.
From stdpp Require Import base list strings sets.

Local Open Scope Z_scope.

(** ** Exceptions and results *)

Inductive exn :=
| AssertionError | TypeError | ValueError | IndexError | AttributeError
| Exception.

Inductive result (A : Type) :=
| Ok (a : A)
| Raise (e : exn).
Arguments Ok {A} a.
Arguments Raise {A} e.

Definition rbind {A B} (r : result A) (k : A -> result B) : result B :=
  match r with Ok a => k a | Raise e => Raise e end.

Notation "x <~ c ;; k" := (rbind c (fun x => k))
  (at level 100, c at next level, right associativity).

(** ** Metadata and waveform objects *)

(** Attributes that an object may lack are options: [None] is "no such
    attribute". *)

Module Stats.
Record t := mk
  { network : option string; station : option string;
    location : option string }.
End Stats.

Module Station.
Record t := mk
  { network : option string; station : option string;
    location : option string; latitude : Z; longitude : Z }.
#[global] Instance eq_dec : EqDecision t.
Proof. solve_decision. Defined.
End Station.

Module Origin.
Record t := mk
  { latitude : Z; longitude : Z; depth_in_m : Z; time : Z }.
#[global] Instance eq_dec : EqDecision t.
Proof. solve_decision. Defined.
End Origin.

Module Trace.
Record t := mk
  { data : list Z; weight : option Z; stats : Stats.t }.
End Trace.

Module Stream.
Record t := mk
  { traces : list Trace.t;
    station : option Station.t;
    origin : option Origin.t;
    id : option string;
    tags : option (list string);
    distance_in_m : option Z;
    azimuth : option Z }.

Definition set_id (i : string) (s : t) : t :=
  mk (traces s) (station s) (origin s) (Some i) (tags s)
     (distance_in_m s) (azimuth s).
Definition set_tags (l : list string) (s : t) : t :=
  mk (traces s) (station s) (origin s) (id s) (Some l)
     (distance_in_m s) (azimuth s).
Definition set_geometry (d a : Z) (s : t) : t :=
  mk (traces s) (station s) (origin s) (id s) (tags s) (Some d) (Some a).
End Stream.

(** Addresses of the heap. *)
Abbreviation addr := nat.

(** The values a caller can hand to a method: [None], numbers, strings
    ([str] or [unicode]), metadata objects, and references to streams. *)
Inductive value :=
| VNone
| VInt (z : Z)
| VStr (s : string)
| VStation (s : Station.t)
| VOrigin (o : Origin.t)
| VStream (a : addr).
Arguments VStream a%_nat.

(** [-np.inf] and finite amplitudes. *)
Inductive amplitude :=
| NegInf
| Fin (z : Z).

Module Dataset.

(** The container itself: [self.id] and the underlying list. *)
Record t := mk { id : option string; items : list addr }.

Record Env := mkEnv
  { heap : list Stream.t; self : t; warnings : list string }.

Definition M (A : Type) : Type := Env -> Env * result A.

Definition ret {A} (a : A) : M A := fun e => (e, Ok a).
Definition raise {A} (x : exn) : M A := fun e => (e, Raise x).
Definition bind {A B} (c : M A) (k : A -> M B) : M B :=
  fun e => match c e with
           | (e', Ok a) => k a e'
           | (e', Raise x) => (e', Raise x)
           end.
Definition lift {A} (r : result A) : M A := fun e => (e, r).

Notation "x <- c ;; k" := (bind c (fun x => k))
  (at level 100, c at next level, right associativity).

Definition get_self : M t := fun e => (e, Ok (self e)).
Definition put_items (l : list addr) : M unit :=
  fun e => (mkEnv (heap e) (mk (id (self e)) l) (warnings e), Ok tt).
Definition warn (msg : string) : M unit :=
  fun e => (mkEnv (heap e) (self e) (warnings e ++ [msg]), Ok tt).
Definition store (a : addr) (s : Stream.t) : M unit :=
  fun e => (mkEnv (<[a := s]> (heap e)) (self e) (warnings e), Ok tt).

(** Reading a record of the Dataset.  Every address appended by [append]
    is live; an address outside the heap denotes no object, and touching
    it is reported as a missing attribute. *)
Definition deref (a : addr) : M Stream.t :=
  fun e => match heap e !! a with
           | Some s => (e, Ok s)
           | None => (e, Raise AttributeError)
           end.

Fixpoint for_each {A} (l : list A) (body : A -> M unit) : M unit :=
  match l with
  | [] => ret tt
  | x :: l' => _ <- body x ;; for_each l' body
  end.

Fixpoint collect {A B} (l : list A) (body : A -> M B) : M (list B) :=
  match l with
  | [] => ret []
  | x :: l' => y <- body x ;; ys <- collect l' body ;; ret (y :: ys)
  end.

(** *** [append] *)

(** ['.'.join([n, s, l])] *)
Definition join3 (n s l : string) : string :=
  (n ++ "." ++ s ++ "." ++ l)%string.

(** The [try] branch: [stream.station.{network,station,location}]. *)
Definition station_id (s : Stream.t) : option string :=
  match Stream.station s with
  | Some st =>
      match Station.network st, Station.station st, Station.location st with
      | Some n, Some c, Some l => Some (join3 n c l)
      | _, _, _ => None
      end
  | None => None
  end.

(** The bare [except] branch: [stream[0].stats.{network,station,location}]. *)
Definition stats_id (s : Stream.t) : result string :=
  match Stream.traces s with
  | [] => Raise IndexError
  | tr :: _ =>
      let st := Trace.stats tr in
      match Stats.network st, Stats.station st, Stats.location st with
      | Some n, Some c, Some l => Ok (join3 n c l)
      | _, _, _ => Raise AttributeError
      end
  end.

Definition identifier (s : Stream.t) : result string :=
  match station_id s with
  | Some i => Ok i
  | None => stats_id s
  end.

Section WithGeodesy.

(** [obspy.geodetics.gps2dist_azimuth], an external routine: great-circle
    distance, azimuth and back azimuth of two points.  It raises on
    coordinates it does not accept ([ValueError] for a latitude outside
    its range). *)
Variable gps2dist_azimuth : Z -> Z -> Z -> Z -> result (Z * Z * Z).

Definition append (stream : value) : M unit :=
  match stream with
  | VStream a =>
      fun e =>
        match heap e !! a with
        | None => (e, Raise AssertionError)
        | Some s =>
            (i <- lift (identifier s) ;;
             let s1 := Stream.set_id i s in
             let s2 := match Stream.tags s1 with
                       | None => Stream.set_tags [] s1
                       | Some _ => s1
                       end in
             _ <- store a s2 ;;
             _ <- match Stream.station s2, Stream.origin s2 with
                  | None, _ => warn "Stream lacks station metadata"
                  | Some _, None => warn "Stream lacks origin metadata"
                  | Some st, Some o =>
                      g <- lift (gps2dist_azimuth
                                   (Origin.latitude o) (Origin.longitude o)
                                   (Station.latitude st)
                                   (Station.longitude st)) ;;
                      let '(d, az, _) := g in
                      store a (Stream.set_geometry d az s2)
                  end ;;
             d <- get_self ;;
             put_items (items d ++ [a])) e
        end
  | _ => raise AssertionError
  end.

(** *** [tag_add] *)

Definition add_tag (tag : string) (s : Stream.t) : result Stream.t :=
  match Stream.tags s with
  | None => Raise AttributeError
  | Some l =>
      if bool_decide (tag ∈ l) then Ok s
      else Ok (Stream.set_tags (l ++ [tag]) s)
  end.

Definition tag_add (tag : value) : M unit :=
  match tag with
  | VStr t =>
      d <- get_self ;;
      for_each (items d) (fun a =>
        s <- deref a ;;
        s' <- lift (add_tag t s) ;;
        store a s')
  | _ => raise TypeError
  end.

(** *** The constructor *)

(** [Dataset(streams, id, tags)]: runs on a fresh receiver and hands the
    new object back; the caller's receiver is not touched. *)
Definition __init__ (streams : list value) (i : option string)
    (tags : list value) : M t :=
  fun e =>
    let body :=
      _ <- for_each streams append ;;
      _ <- for_each tags tag_add ;;
      get_self in
    let '(e', r) := body (mkEnv (heap e) (mk i []) (warnings e)) in
    (mkEnv (heap e') (self e) (warnings e'), r).

(** *** [max] *)

(** [trace.data.max()]: numpy refuses an empty array. *)
Definition data_max (d : list Z) : result Z :=
  match d with
  | [] => Raise ValueError
  | x :: r => Ok (fold_left Z.max r x)
  end.

(** [getattr(trace, 'weight', 1.)] and Python truthiness of a number. *)
Definition getattr_weight (tr : Trace.t) : Z :=
  match Trace.weight tr with Some w => w | None => 1 end.
Definition truthy (w : Z) : bool := negb (w =? 0).

(** [x > max_all] *)
Definition gt (x : Z) (m : amplitude) : bool :=
  match m with NegInf => true | Fin y => y <? x end.

Fixpoint max_traces (ts : list Trace.t) (max_all : amplitude)
    : result amplitude :=
  match ts with
  | [] => Ok max_all
  | trace :: ts' =>
      if negb (truthy (getattr_weight trace)) then max_traces ts' max_all
      else
        m <~ data_max (Trace.data trace) ;;
        if gt m max_all then
          m' <~ data_max (List.map Z.abs (Trace.data trace)) ;;
          max_traces ts' (Fin m')
        else max_traces ts' max_all
  end.

Fixpoint max_streams (l : list addr) (max_all : amplitude) : M amplitude :=
  match l with
  | [] => ret max_all
  | a :: l' =>
      stream <- deref a ;;
      m <- lift (max_traces (Stream.traces stream) max_all) ;;
      max_streams l' m
  end.

Definition max : M amplitude :=
  d <- get_self ;; max_streams (items d) NegInf.

(** *** [select] *)

Definition get_station (s : Stream.t) : result Station.t :=
  match Stream.station s with Some x => Ok x | None => Raise AttributeError end.
Definition get_origin (s : Stream.t) : result Origin.t :=
  match Stream.origin s with Some x => Ok x | None => Raise AttributeError end.

(** The three [lambda]s handed to [filter]. *)
Definition station_and_origin_eq (station : Station.t) (origin : Origin.t)
    (stream : Stream.t) : result bool :=
  st <~ get_station stream ;;
  if bool_decide (st = station) then
    o <~ get_origin stream ;; Ok (bool_decide (o = origin))
  else Ok false.
Definition station_eq (station : Station.t) (stream : Stream.t)
    : result bool :=
  st <~ get_station stream ;; Ok (bool_decide (st = station)).
Definition origin_eq (origin : Origin.t) (stream : Stream.t)
    : result bool :=
  o <~ get_origin stream ;; Ok (bool_decide (o = origin)).

(** Python 2 [filter(function, self)]: the whole list is built before the
    constructor sees it. *)
Fixpoint py_filter (function : Stream.t -> result bool) (l : list addr)
    : M (list addr) :=
  match l with
  | [] => ret []
  | a :: l' =>
      stream <- deref a ;;
      keep <- lift (function stream) ;;
      rest <- py_filter function l' ;;
      ret (if keep then a :: rest else rest)
  end.

(** An argument is a criterion when it is truthy; [None] is not. *)
Definition select (origin : option Origin.t) (station : option Station.t)
    : M t :=
  d <- get_self ;;
  match origin, station with
  | Some o, Some st =>
      streams <- py_filter (station_and_origin_eq st o) (items d) ;;
      __init__ (List.map VStream streams) (id d) []
  | None, Some st =>
      streams <- py_filter (station_eq st) (items d) ;;
      __init__ (List.map VStream streams) (id d) []
  | Some o, None =>
      streams <- py_filter (origin_eq o) (items d) ;;
      __init__ (List.map VStream streams) (id d) []
  | None, None => raise Exception
  end.

(** *** [map] *)

(** A Python callable applied to a record and positional arguments: it
    may read and change the heap, hand back any value, or raise. *)
Definition callable : Type :=
  addr -> list value -> list Stream.t -> list Stream.t * result value.

Definition call (function : callable) (stream : addr) (args : list value)
    : M value :=
  fun e =>
    let '(h, r) := function stream args (heap e) in
    (mkEnv h (self e) (warnings e), r).

(** [sequence[_i]] *)
Definition getitem (sequence : list value) (_i : nat) : result value :=
  match sequence !! _i with Some v => Ok v | None => Raise IndexError end.

(** [[sequence[_i] for sequence in sequences]] *)
Fixpoint getitems (sequences : list (list value)) (_i : nat)
    : result (list value) :=
  match sequences with
  | [] => Ok []
  | sequence :: rest =>
      v <~ getitem sequence _i ;;
      vs <~ getitems rest _i ;;
      Ok (v :: vs)
  end.

(** The loop over [enumerate(self)], from index [_i] on. *)
Fixpoint map_loop (function : callable) (sequences : list (list value))
    (_i : nat) (l : list addr) : M (list value) :=
  match l with
  | [] => ret []
  | stream :: l' =>
      args <- lift (getitems sequences _i) ;;
      y <- call function stream args ;;
      processed <- map_loop function sequences (S _i) l' ;;
      ret (y :: processed)
  end.

Definition map (function : callable) (sequences : list (list value))
    : M t :=
  d <- get_self ;;
  processed <- map_loop function sequences 0 (items d) ;;
  __init__ processed (id d) [].

(** *** Sorting *)

(** [list.sort(key=..., reverse=...)] on the decorated list: a stable
    ascending sort; with [reverse] the list is reversed, sorted and
    reversed again, which keeps equal keys in their original order. *)
Fixpoint insert_key {A} (x : Z * A) (l : list (Z * A)) : list (Z * A) :=
  match l with
  | [] => [x]
  | y :: l' =>
      if fst x <=? fst y then x :: y :: l' else y :: insert_key x l'
  end.

Definition stable_sort {A} (l : list (Z * A)) : list (Z * A) :=
  fold_right insert_key [] l.

Definition list_sort {A} (reverse : bool) (l : list (Z * A))
    : list (Z * A) :=
  if reverse then rev (stable_sort (rev l)) else stable_sort l.

(** Keys are computed for every record first; a failing key leaves the
    list as it was. *)
Definition sort_by_function (function : Stream.t -> result Z)
    (reverse : bool) : M unit :=
  d <- get_self ;;
  keys <- collect (items d) (fun a => data <- deref a ;; lift (function data)) ;;
  put_items (List.map snd (list_sort reverse (zip keys (items d)))).

Definition get_distance_in_m (data : Stream.t) : result Z :=
  match Stream.distance_in_m data with
  | Some x => Ok x
  | None => Raise AttributeError
  end.

Definition sort_by_distance (reverse : bool) : M unit :=
  sort_by_function get_distance_in_m reverse.

(** *** [apply] *)

(** [args] is the argument pack ([*args, **kwargs]) handed on unchanged to
    every call. *)
Definition apply (function : callable) (args : list value) : M t :=
  d <- get_self ;;
  processed <- collect (items d) (fun stream => call function stream args) ;;
  __init__ processed (id d) [].

(** *** [sort_by_azimuth] *)

Definition get_azimuth (data : Stream.t) : result Z :=
  match Stream.azimuth data with
  | Some x => Ok x
  | None => Raise AttributeError
  end.

Definition sort_by_azimuth (reverse : bool) : M unit :=
  sort_by_function get_azimuth reverse.

(** *** [get_stations] and [get_origins] *)

Definition get_stations : M (list Station.t) :=
  d <- get_self ;;
  collect (items d) (fun a => stream <- deref a ;; lift (get_station stream)).

Definition newline : string := String (Ascii.ascii_of_nat 10) EmptyString.

Definition different_events_warning : string :=
  ("Different streams in the Dataset correpond to different events."
   ++ newline ++ newline
   ++ "This may be intentional. Feel free to disable this "
   ++ "warning by setting Dataset._warnings=False")%string.

(** [self[0]] *)
Definition first_item : M Stream.t :=
  d <- get_self ;;
  match items d with
  | a :: _ => deref a
  | [] => raise IndexError
  end.

(** [_warnings] is the value of [getattr(self, '_warnings', True)];
    [!=] on origins is the negation of [==].  Every call of
    [warnings.warn] is recorded, whatever a warnings filter would show. *)
Definition get_origins (_warnings : bool) : M (list Origin.t) :=
  d <- get_self ;;
  collect (items d) (fun a =>
    stream <- deref a ;;
    o <- lift (get_origin stream) ;;
    _ <- (if _warnings then
            first <- first_item ;;
            o0 <- lift (get_origin first) ;;
            if bool_decide (o <> o0) then warn different_events_warning
            else ret tt
          else ret tt) ;;
    ret o).

(** *** [tag_remove] *)

(** [list.remove(x)]: the first occurrence goes. *)
Fixpoint remove_first (tag : string) (l : list string) : list string :=
  match l with
  | [] => []
  | x :: l' => if bool_decide (x = tag) then l' else x :: remove_first tag l'
  end.

Definition get_tags (s : Stream.t) : result (list string) :=
  match Stream.tags s with Some l => Ok l | None => Raise AttributeError end.

(** No type check here: a tag that is not a string is simply not found in
    a list of strings. *)
Definition tag_remove (tag : value) : M unit :=
  d <- get_self ;;
  for_each (items d) (fun a =>
    stream <- deref a ;;
    tags <- lift (get_tags stream) ;;
    match tag with
    | VStr t =>
        if bool_decide (t ∈ tags)
        then store a (Stream.set_tags (remove_first t tags) stream)
        else ret tt
    | _ => ret tt
    end).

End WithGeodesy.

End Dataset.

(** ** Score surfaces: [graphics/uq/depth.py] and [graphics/uq/origin.py] *)

Module UQ.

(** A labelled array: its shape and its entries in row-major order. *)
Record DataArray (A : Type) := mkArray
  { shape : list nat; values : list A }.
Arguments mkArray {A} shape values.
Arguments shape {A} d.
Arguments values {A} d.

Definition size (sh : list nat) : nat := fold_right Nat.mul 1%nat sh.

Definition well_formed {A} (ds : DataArray A) : Prop :=
  length (values ds) = size (shape ds).

(** One position of an indexing key: [:] or an integer. *)
Inductive indexer :=
| Slice
| Index (i : nat).

(** The shape of [ds[key]].  A key longer than the number of axes is
    refused ("too many indices"), an integer beyond its axis is refused
    ("out of bounds"), a key shorter than the number of axes leaves the
    trailing axes whole. *)
Fixpoint getitem_shape (key : list indexer) (sh : list nat)
    : result (list nat) :=
  match key, sh with
  | [], _ => Ok sh
  | _ :: _, [] => Raise IndexError
  | Slice :: key', n :: sh' =>
      sh'' <~ getitem_shape key' sh' ;; Ok (n :: sh'')
  | Index i :: key', n :: sh' =>
      if (i <? n)%nat then getitem_shape key' sh' else Raise IndexError
  end.

Fixpoint chunks {A} (width count : nat) (l : list A) : list (list A) :=
  match count with
  | O => []
  | S c => take width l :: chunks width c (drop width l)
  end.

Fixpoint getitem_values {A} (key : list indexer) (sh : list nat)
    (l : list A) : list A :=
  match key, sh with
  | [], _ => l
  | _ :: _, [] => l
  | Slice :: key', n :: sh' =>
      concat (List.map (getitem_values key' sh') (chunks (size sh') n l))
  | Index i :: key', n :: sh' =>
      getitem_values key' sh' (take (size sh') (drop (i * size sh') l))
  end.

Definition getitem {A} (ds : DataArray A) (key : list indexer)
    : result (DataArray A) :=
  sh <~ getitem_shape key (shape ds) ;;
  Ok (mkArray sh (getitem_values key (shape ds) (values ds))).

(** [ds.shape[-1]] *)
Definition last_axis {A} (ds : DataArray A) : result nat :=
  match last (shape ds) with
  | Some n => Ok n
  | None => Raise IndexError
  end.

(** A float64 score as the reductions see it: NaN, or a finite number, of
    which only the order is used. *)
Inductive score :=
| NaN
| Num (x : Z).

(** [x] replaces the running best of a min (of a max) reduction.  The
    reductions of a float array skip NaN: a NaN never replaces anything,
    and every number replaces a NaN. *)
Definition lt_skipna (x best : score) : bool :=
  match x, best with
  | Num a, Num b => a <? b
  | Num _, NaN => true
  | NaN, _ => false
  end.

Definition gt_skipna (x best : score) : bool :=
  match x, best with
  | Num a, Num b => a >? b
  | Num _, NaN => true
  | NaN, _ => false
  end.

(** The best entry of the flattened slice and its position; ties go to
    the first entry. *)
Fixpoint argbest_from {T} (better : T -> T -> bool) (best : T)
    (besti i : nat) (l : list T) : T * nat :=
  match l with
  | [] => (best, besti)
  | x :: l' =>
      if better x best then argbest_from better x i (S i) l'
      else argbest_from better best besti (S i) l'
  end.

Definition argbest {T} (better : T -> T -> bool) (l : list T)
    : result (T * nat) :=
  match l with
  | [] => Raise ValueError
  | x :: l' => Ok (argbest_from better x 0%nat 1%nat l')
  end.

(** [sliced.min()] and [sliced.max()]: an empty slice is refused; a slice
    of NaN only answers NaN. *)
Definition min (sliced : DataArray score) : result score :=
  r <~ argbest lt_skipna (values sliced) ;; Ok (fst r).
Definition max (sliced : DataArray score) : result score :=
  r <~ argbest gt_skipna (values sliced) ;; Ok (fst r).

(** [int(sliced.argmin())] and [int(sliced.argmax())]: an empty slice and
    a slice of NaN only ("All-NaN slice encountered") are refused. *)
Definition index_of_best (r : score * nat) : result nat :=
  match fst r with
  | NaN => Raise ValueError
  | Num _ => Ok (snd r)
  end.

Definition argmin (sliced : DataArray score) : result nat :=
  r <~ argbest lt_skipna (values sliced) ;; index_of_best r.
Definition argmax (sliced : DataArray score) : result nat :=
  r <~ argbest gt_skipna (values sliced) ;; index_of_best r.

(** [ds[:,:,:,:,:,:,_i]] *)
Definition last_axis_key (_i : nat) : list indexer :=
  [Slice; Slice; Slice; Slice; Slice; Slice; Index _i].

(** The loop bodies over [range(ds.shape[-1])]; [values] and [indices]
    grow together. *)
Fixpoint min_loop (ds : DataArray score) (range : list nat)
    : result (list score * list nat) :=
  match range with
  | [] => Ok ([], [])
  | _i :: range' =>
      sliced <~ getitem ds (last_axis_key _i) ;;
      v <~ min sliced ;;
      k <~ argmin sliced ;;
      rest <~ min_loop ds range' ;;
      Ok (v :: fst rest, k :: snd rest)
  end.

Fixpoint max_loop (ds : DataArray score) (range : list nat)
    : result (list score * list nat) :=
  match range with
  | [] => Ok ([], [])
  | _i :: range' =>
      sliced <~ getitem ds (last_axis_key _i) ;;
      v <~ max sliced ;;
      k <~ argmax sliced ;;
      rest <~ max_loop ds range' ;;
      Ok (v :: fst rest, k :: snd rest)
  end.

Definition _min_dataarray (ds : DataArray score)
    : result (list score * list nat) :=
  n <~ last_axis ds ;; min_loop ds (seq 0 n).

Definition _max_dataarray (ds : DataArray score)
    : result (list score * list nat) :=
  n <~ last_axis ds ;; max_loop ds (seq 0 n).

End UQ.

(** ** Helpers of [graphics/waveform.py] *)

Module Waveform.

(** [tag.split(':')]: the pieces between colons, at least one. *)
Fixpoint split (tag : string) : list string :=
  match tag with
  | EmptyString => [EmptyString]
  | String c rest =>
      if bool_decide (c = ":"%char) then EmptyString :: split rest
      else match split rest with
           | piece :: pieces => String c piece :: pieces
           | [] => [String c EmptyString]
           end
  end.

(** The [for ... else] of [_get_tag]: [parts[1]] of the first tag whose
    [parts[0]] is the pattern, [None] when the loop runs out. *)
Fixpoint _get_tag (tags : list string) (pattern : string)
    : result (option string) :=
  match tags with
  | [] => Ok None
  | tag :: tags' =>
      match split tag with
      | [] => Raise IndexError
      | part0 :: parts =>
          if bool_decide (part0 = pattern) then
            match parts with
            | part1 :: _ => Ok (Some part1)
            | [] => Raise IndexError
            end
          else _get_tag tags' pattern
      end
  end.

(** A dataset argument: [None], or the streams of a Dataset in order (an
    [EmptyDataset] has none). *)
Definition dataset : Type := option (list Stream.t).

(** [filter(None, datasets)]: [None] and empty containers are falsy. *)
Fixpoint truthy_datasets (datasets : list dataset) : list (list Stream.t) :=
  match datasets with
  | [] => []
  | None :: rest => truthy_datasets rest
  | Some [] :: rest => truthy_datasets rest
  | Some d :: rest => d :: truthy_datasets rest
  end.

(** [zip] over the unpacked [datasets]: one tuple per position, as many
    as the shortest dataset has; none at all without datasets. *)
Fixpoint zip_star (datasets : list (list Stream.t)) : list (list Stream.t) :=
  match datasets with
  | [] => []
  | [d] => List.map (fun stream => [stream]) d
  | d :: rest => zip_with cons d (zip_star rest)
  end.

(** [len(stream) > 0] *)
Definition nonempty (stream : Stream.t) : bool :=
  match Stream.traces stream with [] => false | _ :: _ => true end.

Fixpoint count_loop (tuples : list (list Stream.t)) (count : nat) : nat :=
  match tuples with
  | [] => count
  | streams :: rest =>
      if existsb nonempty streams then count_loop rest (S count)
      else count_loop rest count
  end.

Definition _count (datasets : list dataset) : nat :=
  count_loop (zip_star (truthy_datasets datasets)) 0.

Definition _isempty (d : dataset) : bool :=
  match d with
  | None => true
  | Some [] => true
  | Some _ => Nat.eqb (_count [d]) 0
  end.

End Waveform.

(** ** The list side of [dataset/base.py] *)

(** [DatasetBase] keeps its streams in [self.__list__] next to [self.id];
    the environment of [Dataset] serves, with [items] for [__list__]. *)
Module DatasetBase.

Local Notation "x <- c ;; k" := (Dataset.bind c (fun x => k))
  (at level 100, c at next level, right associativity).

Definition get_id (stream : Stream.t) : result string :=
  match Stream.id stream with
  | Some i => Ok i
  | None => Raise AttributeError
  end.

(** [id == stream.id], for a stream whose [id] is a string. *)
Definition same_id (id : value) (i : string) : bool :=
  match id with
  | VStr j => bool_decide (j = i)
  | _ => false
  end.

(** The loop over [enumerate(self.__list__)], from position [index] on;
    falling out of it returns [None]. *)
Fixpoint index_loop (id : value) (index : nat) (l : list addr)
    : Dataset.M (option nat) :=
  match l with
  | [] => Dataset.ret None
  | a :: l' =>
      stream <- Dataset.deref a ;;
      i <- Dataset.lift (get_id stream) ;;
      if same_id id i then Dataset.ret (Some index)
      else index_loop id (S index) l'
  end.

Definition _get_index (id : value) : Dataset.M (option nat) :=
  d <- Dataset.get_self ;; index_loop id 0 (Dataset.items d).

(** [self.__list__.pop(index)]: [None] is no index, a position past the
    end is out of range. *)
Definition pop (index : option nat) : Dataset.M addr :=
  d <- Dataset.get_self ;;
  match index with
  | None => Dataset.raise TypeError
  | Some i =>
      match Dataset.items d !! i with
      | None => Dataset.raise IndexError
      | Some a =>
          _ <- Dataset.put_items (delete i (Dataset.items d)) ;;
          Dataset.ret a
      end
  end.

Definition remove (id : value) : Dataset.M unit :=
  index <- _get_index id ;;
  _ <- pop index ;;
  Dataset.ret tt.

End DatasetBase.
(** ** Reference notions and worked inputs *)

(** A geodesy for worked examples that accepts every point: distance
    [1000], azimuth [90]. *)
Definition flat_geodesy (_ _ _ _ : Z) : result (Z * Z * Z) :=
  Ok (1000, 90, 270).

(** A geodesy that, like ObsPy's, refuses a latitude outside [-90, 90]
    degrees with [ValueError]. *)
Definition checked_geodesy (lat1 _ lat2 _ : Z) : result (Z * Z * Z) :=
  if (Z.abs lat1 <=? 90) && (Z.abs lat2 <=? 90) then Ok (1000, 90, 270)
  else Raise ValueError.

(** What the documentation of [Dataset.max] promises: the largest [|x|]
    over the samples of every trace whose weight is truthy, [-inf] when
    there is none. *)
Definition weighted_samples (s : Stream.t) : list Z :=
  concat (List.map
    (fun tr => if Dataset.truthy (Dataset.getattr_weight tr)
               then Trace.data tr else [])
    (Stream.traces s)).

Definition max_abs (l : list Z) : amplitude :=
  fold_left (fun m x => match m with
                        | NegInf => Fin (Z.abs x)
                        | Fin y => Fin (Z.max y (Z.abs x))
                        end) l NegInf.

Definition max_abs_amplitude (e : Dataset.Env) : amplitude :=
  max_abs (concat (List.map
    (fun a => match Dataset.heap e !! a with
              | Some s => weighted_samples s
              | None => []
              end)
    (Dataset.items (Dataset.self e)))).

Definition blank_stats : Stats.t := Stats.mk (Some "IU") (Some "ANMO") (Some "00").

(** A single-trace stream, as a reader leaves it before [append]. *)
Definition one_trace (data : list Z) (weight : option Z) : Stream.t :=
  Stream.mk [Trace.mk data weight blank_stats] None None None (Some [])
            None None.

Definition dataset_of (h : list Stream.t) : Dataset.Env :=
  Dataset.mkEnv h (Dataset.mk None (seq 0 (length h))) [].

(** Two records of weight one: samples [3] and samples [-10, 2]. *)
Definition sign_env : Dataset.Env :=
  dataset_of [one_trace [3] (Some 1); one_trace [-10; 2] (Some 1)].

(** The scenario of the weight gate: weight [0] with peak [100], weight [1]
    with peak [5]. *)
Definition gate_env : Dataset.Env :=
  dataset_of [one_trace [100; -7] (Some 0); one_trace [-5; 2] (Some 1)].

Definition empty_env : Dataset.Env := dataset_of [].

(** An ObsPy stream without traces and without metadata: [Stream()]. *)
Definition empty_stream : Stream.t :=
  Stream.mk [] None None None None None None.

(** A value is a stream when it refers to a live object of the heap. *)
Definition is_stream (h : list Stream.t) (v : value) : Prop :=
  match v with
  | VStream a => is_Some (h !! a)
  | _ => False
  end.

(** What [append] asks of the geodesy routine for a record: distance and
    azimuth from origin to station when the record carries both, nothing
    otherwise. *)
Definition geodesy (gps : Z -> Z -> Z -> Z -> result (Z * Z * Z))
    (s : Stream.t) : result (option (Z * Z)) :=
  match Stream.station s, Stream.origin s with
  | Some st, Some o =>
      g <~ gps (Origin.latitude o) (Origin.longitude o)
               (Station.latitude st) (Station.longitude st) ;;
      Ok (Some (fst (fst g), snd (fst g)))
  | _, _ => Ok None
  end.

(** The record with its identifier and a tag list in place, which is how
    [append] leaves it when the geodesy routine raises. *)
Definition named (i : string) (s : Stream.t) : Stream.t :=
  match Stream.tags s with
  | None => Stream.set_tags [] (Stream.set_id i s)
  | Some _ => Stream.set_id i s
  end.

(** The record with the geometry in place as well. *)
Definition placed (g : option (Z * Z)) (i : string) (s : Stream.t)
    : Stream.t :=
  match g with
  | Some (d, az) => Stream.set_geometry d az (named i s)
  | None => named i s
  end.

(** The record as [append] leaves it in the heap when it succeeds, and
    what it says on the diagnostic channel. *)
Definition appended (gps : Z -> Z -> Z -> Z -> result (Z * Z * Z))
    (i : string) (s : Stream.t) : result Stream.t :=
  g <~ geodesy gps s ;; Ok (placed g i s).

Definition append_warning (s : Stream.t) : list string :=
  match Stream.station s, Stream.origin s with
  | None, _ => ["Stream lacks station metadata"%string]
  | Some _, None => ["Stream lacks origin metadata"%string]
  | Some _, Some _ => []
  end.

(** A non-empty stream with complete codes on its first trace. *)
Definition raw_stream : Stream.t :=
  Stream.mk [Trace.mk [1; -2] None blank_stats] None None None None None None.

(** ** Tags *)

(** The tag list with [tag] added unless it is there already. *)
Definition with_tag (tag : string) (s : Stream.t) : Stream.t :=
  match Stream.tags s with
  | Some l => if bool_decide (tag ∈ l) then s
              else Stream.set_tags (l ++ [tag]) s
  | None => s
  end.

Definition has_tags (h : list Stream.t) (a : addr) : Prop :=
  exists s l, h !! a = Some s /\ Stream.tags s = Some l.

Definition tagged (tag : string) (h : list Stream.t) (a : addr) : Prop :=
  exists s l, h !! a = Some s /\ Stream.tags s = Some l /\ tag ∈ l.

(** One turn of the loop of [tag_add]. *)
Definition tag_turn (t : string) (a : addr) : Dataset.M unit :=
  Dataset.bind (Dataset.deref a) (fun s =>
  Dataset.bind (Dataset.lift (Dataset.add_tag t s)) (fun s' =>
  Dataset.store a s')).

Definition is_string (v : value) : Prop :=
  match v with VStr _ => True | _ => False end.

(** Two records sharing nothing, and a Dataset that holds the first one
    twice. *)
Definition tag_env : Dataset.Env :=
  Dataset.mkEnv
    [one_trace [1] None;
     Stream.mk [] None None (Some "b") (Some ["raw"%string]) None None]
    (Dataset.mk (Some "ev") [0; 1; 0]%nat) [].

(** ** Sorting *)

Definition key_le {A} (x y : Z * A) : Prop := fst x <= fst y.

(** The key of the record at an address, and the keys of a list of
    addresses, read off a heap. *)
Definition key_at (h : list Stream.t) (f : Stream.t -> result Z) (a : addr)
    : result Z :=
  match h !! a with
  | Some s => f s
  | None => Raise AttributeError
  end.

Fixpoint keys_of (h : list Stream.t) (f : Stream.t -> result Z)
    (l : list addr) : result (list Z) :=
  match l with
  | [] => Ok []
  | a :: l' =>
      k <~ key_at h f a ;; ks <~ keys_of h f l' ;; Ok (k :: ks)
  end.

Definition has_distance (h : list Stream.t) (a : addr) : Prop :=
  exists s d, h !! a = Some s /\ Stream.distance_in_m s = Some d.

Definition at_distance (d : Z) : Stream.t :=
  Stream.mk [] None None (Some "x") (Some []) (Some d) (Some 0).

(** Two records, the nearer one first. *)
Definition near_far_env : Dataset.Env :=
  dataset_of [at_distance 1; at_distance 2].

(** ** Selection and construction *)

(** [append] accepts the object at an address: it is live, its
    identifier can be computed, and the geodesy routine does not refuse
    its coordinates. *)
Definition acceptable (gps : Z -> Z -> Z -> Z -> result (Z * Z * Z))
    (h : list Stream.t) (a : addr) : Prop :=
  exists s i g, h !! a = Some s /\ Dataset.identifier s = Ok i
                /\ geodesy gps s = Ok g.

(** What [append] never changes of a record: its traces and its station
    and origin metadata. *)
Definition same_meta (s s' : Stream.t) : Prop :=
  Stream.traces s = Stream.traces s'
  /\ Stream.station s = Stream.station s'
  /\ Stream.origin s = Stream.origin s'.

Definition same_records (h h' : list Stream.t) : Prop := Forall2 same_meta h h'.

(** A record meets a criterion when none is given or when its metadata
    equals the one given. *)
Definition meets {X} `{EqDecision X} (given : option X) (actual : option X)
    : bool :=
  match given with
  | None => true
  | Some x => bool_decide (actual = Some x)
  end.

Definition matches (origin : option Origin.t) (station : option Station.t)
    (s : Stream.t) : bool :=
  meets station (Stream.station s) && meets origin (Stream.origin s).

Definition selected (h : list Stream.t) (origin : option Origin.t)
    (station : option Station.t) (l : list addr) : list addr :=
  List.filter
    (fun a => match h !! a with
              | Some s => matches origin station s
              | None => false
              end) l.


(** What [filter] computes, read off a heap. *)
Fixpoint filter_result (h : list Stream.t) (p : Stream.t -> result bool)
    (l : list addr) : result (list addr) :=
  match l with
  | [] => Ok []
  | a :: l' =>
      match h !! a with
      | None => Raise AttributeError
      | Some s =>
          keep <~ p s ;;
          rest <~ filter_result h p l' ;;
          Ok (if keep then a :: rest else rest)
      end
  end.

Definition station_A : Station.t :=
  Station.mk (Some "IU") (Some "ANMO") (Some "00") 34 (-106).
Definition station_B : Station.t :=
  Station.mk (Some "IU") (Some "COLA") (Some "00") 64 (-147).
Definition origin_1 : Origin.t := Origin.mk 61 (-149) 33000 0.

(** A station whose latitude is off the globe. *)
Definition station_off : Station.t :=
  Station.mk (Some "XX") (Some "NONE") (Some "00") 120 10.

Definition recorded (st : Station.t) (o : Origin.t) : Stream.t :=
  Stream.mk [Trace.mk [4; -1] None blank_stats] (Some st) (Some o)
            None None None None.


(** Records of two stations for one event, and a second record of the
    first station. *)
Definition event_env : Dataset.Env :=
  Dataset.mkEnv
    [recorded station_A origin_1; recorded station_B origin_1;
     recorded station_A origin_1]
    (Dataset.mk (Some "20090407") [0; 1; 2]%nat) [].

(** ** Mapping *)

(** The [_i]-th item of each sequence. *)
Definition row (sequences : list (list value)) (_i : nat) : list value :=
  List.map (fun sequence => nth _i sequence VNone) sequences.

(** The function applied to the records one after the other, record
    number [_i + k] together with row [_i + k], each call starting from the
    heap the previous one left. *)
Fixpoint calls (function : Dataset.callable) (sequences : list (list value))
    (_i : nat) (l : list addr) (h : list Stream.t)
    : list Stream.t * result (list value) :=
  match l with
  | [] => (h, Ok [])
  | stream :: l' =>
      match function stream (row sequences _i) h with
      | (h1, Ok y) =>
          match calls function sequences (S _i) l' h1 with
          | (h2, Ok ys) => (h2, Ok (y :: ys))
          | (h2, Raise x) => (h2, Raise x)
          end
      | (h1, Raise x) => (h1, Raise x)
      end
  end.

(** A processing function that answers a copy of its record, as a new
    object. *)
Definition copy_record : Dataset.callable :=
  fun stream _ h =>
    match h !! stream with
    | Some s => (h ++ [s], Ok (VStream (length h)))
    | None => (h, Raise AttributeError)
    end.

(** A processing function that answers a new stream without traces or
    metadata. *)
Definition fresh_empty : Dataset.callable :=
  fun _ _ h => (h ++ [empty_stream], Ok (VStream (length h))).

(** A processing function that answers a new stream for a station off
    the globe. *)
Definition fresh_off : Dataset.callable :=
  fun _ _ h =>
    (h ++ [recorded station_off origin_1], Ok (VStream (length h))).

Definition event_sequences : list (list value) :=
  [[VStation station_A; VStation station_B; VStation station_A];
   [VOrigin origin_1; VOrigin origin_1; VOrigin origin_1; VNone]].

(** ** Score surfaces *)

(** The row-major position of a multi-index. *)
Fixpoint ravel (sh : list nat) (index : list nat) : nat :=
  match sh, index with
  | _ :: sh', j :: index' => (j * UQ.size sh' + ravel sh' index')%nat
  | _, _ => 0%nat
  end.

(** The entry of an array at a multi-index. *)
Definition entry {A} (ds : UQ.DataArray A) (index : list nat) : option A :=
  UQ.values ds !! ravel (UQ.shape ds) index.

(** The entries of a row-major list that sit at position [i] of the last
    axis (of length [n]), listed by the flat position [p] of the leading
    axes ([rows] positions in all). *)
Definition lane {A} (d : A) (rows n i : nat) (l : list A) : list A :=
  List.map (fun p => nth (p * n + i)%nat l d) (seq 0 rows).

(** [m] is the least entry of [l] and [k] the first position holding it;
    likewise for the greatest entry. *)
(** [m] is the least number of [l] and [k] the first position holding
    it, NaN entries aside; likewise for the greatest number. *)
Definition is_argmin (l : list UQ.score) (m : Z) (k : nat) : Prop :=
  l !! k = Some (UQ.Num m)
  /\ (forall j x, l !! j = Some (UQ.Num x) -> m <= x)
  /\ (forall j x, l !! j = Some (UQ.Num x) -> (j < k)%nat -> m < x).

Definition is_argmax (l : list UQ.score) (m : Z) (k : nat) : Prop :=
  l !! k = Some (UQ.Num m)
  /\ (forall j x, l !! j = Some (UQ.Num x) -> x <= m)
  /\ (forall j x, l !! j = Some (UQ.Num x) -> (j < k)%nat -> x < m).

(** The order a min (a max) reduction that skips NaN goes by: NaN comes
    last. *)
Definition min_le (x y : UQ.score) : Prop :=
  match x, y with
  | UQ.Num a, UQ.Num b => a <= b
  | _, UQ.NaN => True
  | UQ.NaN, UQ.Num _ => False
  end.

Definition max_le (x y : UQ.score) : Prop :=
  match x, y with
  | UQ.Num a, UQ.Num b => b <= a
  | _, UQ.NaN => True
  | UQ.NaN, UQ.Num _ => False
  end.

(** The slice holds at least one number. *)
Definition has_number (l : list UQ.score) : Prop :=
  exists x, UQ.Num x ∈ l.

(** The best entry of a list and its first position, with the head as the
    first candidate; [(d, 0)] stands in for the empty list. *)
Definition best {T} (d : T) (better : T -> T -> bool) (l : list T) : T * nat :=
  match l with
  | [] => (d, 0%nat)
  | x :: l' => UQ.argbest_from better x 0%nat 1%nat l'
  end.

(** A surface of numbers. *)
Definition numeric (sh : list nat) (scores : list Z) : UQ.DataArray UQ.score :=
  UQ.mkArray sh (List.map UQ.Num scores).

(** A surface with seven axes: two depths, three sources at each. *)
Definition surface7 : UQ.DataArray UQ.score :=
  numeric [1; 1; 3; 1; 1; 1; 2]%nat [5; 9; 2; 7; 4; 7].

(** The same surface with two scores missing. *)
Definition patchy7 : UQ.DataArray UQ.score :=
  UQ.mkArray [1; 1; 3; 1; 1; 1; 2]%nat
    [UQ.Num 5; UQ.Num 9; UQ.NaN; UQ.Num 7; UQ.Num 4; UQ.NaN].

(** A surface with eight axes. *)
Definition surface8 : UQ.DataArray UQ.score :=
  numeric [1; 1; 1; 1; 1; 1; 2; 2]%nat [1; 2; 3; 4].

(** A seven-axis surface with no source at all but two depths. *)
Definition hollow7 : UQ.DataArray UQ.score :=
  UQ.mkArray [1; 1; 0; 1; 1; 1; 2]%nat [].

(** A seven-axis surface of NaN only: two depths, one source at each,
    neither with a score. *)
Definition blank7 : UQ.DataArray UQ.score :=
  UQ.mkArray [1; 1; 1; 1; 1; 1; 2]%nat [UQ.NaN; UQ.NaN].

(** A surface with three axes. *)
Definition surface3 : UQ.DataArray UQ.score :=
  numeric [2; 1; 2]%nat [1; 2; 3; 4].

(** ** More on sorting *)

(** The order a sort direction asks of the keys. *)
Definition ordered (reverse : bool) (keys : list Z) : Prop :=
  if reverse then Sorted Z.ge keys else Sorted Z.le keys.

(** The record at an address has key [k]. *)
Definition with_key (h : list Stream.t) (f : Stream.t -> result Z) (k : Z)
    (a : addr) : bool :=
  match key_at h f a with
  | Ok k' => k' =? k
  | Raise _ => false
  end.

Definition located (d az : Z) : Stream.t :=
  Stream.mk [] None None (Some "x") (Some []) (Some d) (Some az).

(** Four records: two at distance 5, with azimuths that order them the
    other way round. *)
Definition tie_env : Dataset.Env :=
  dataset_of [located 5 40; located 2 30; located 5 10; located 9 20].

(** A Dataset whose second record was never given a distance. *)
Definition gap_env : Dataset.Env :=
  dataset_of [located 5 40; one_trace [1] None; located 2 30].

(** ** More on tags *)

(** The tag list with the first occurrence of [tag] taken out. *)
Definition without_tag (tag : string) (s : Stream.t) : Stream.t :=
  match Stream.tags s with
  | Some l => if bool_decide (tag ∈ l)
              then Stream.set_tags (Dataset.remove_first tag l) s
              else s
  | None => s
  end.

(** The record at an address has a tag list, and [tag] is not on it. *)
Definition untagged (tag : string) (h : list Stream.t) (a : addr) : Prop :=
  exists s l, h !! a = Some s /\ Stream.tags s = Some l /\ tag ∉ l.

(** A record whose tag list names no tag twice. *)
Definition tidy (s : Stream.t) : Prop :=
  exists l, Stream.tags s = Some l /\ NoDup l.

(** One turn of the loop of [tag_remove]. *)
Definition untag_turn (tag : value) (a : addr) : Dataset.M unit :=
  Dataset.bind (Dataset.deref a) (fun stream =>
  Dataset.bind (Dataset.lift (Dataset.get_tags stream)) (fun tags =>
  match tag with
  | VStr t =>
      if bool_decide (t ∈ tags)
      then Dataset.store a
             (Stream.set_tags (Dataset.remove_first t tags) stream)
      else Dataset.ret tt
  | _ => Dataset.ret tt
  end)).

(** What a turn of [tag_remove] does to a record, for any tag value. *)
Definition untag (tag : value) (s : Stream.t) : Stream.t :=
  match tag with
  | VStr t => without_tag t s
  | _ => s
  end.

Definition tagged_stream (l : list string) : Stream.t :=
  Stream.mk [] None None (Some "x") (Some l) None None.

(** Two records with tidy tag lists; the Dataset holds the first twice. *)
Definition tidy_env : Dataset.Env :=
  Dataset.mkEnv
    [tagged_stream ["raw"; "bw"]%string; tagged_stream ["sw"]%string]
    (Dataset.mk None [0; 1; 0]%nat) [].

(** ** Records as [append] leaves them *)

(** A record is settled when [append] would store it back unchanged: it
    has its identifier, a tag list and, with both metadata, its geometry. *)
Definition settled (gps : Z -> Z -> Z -> Z -> result (Z * Z * Z))
    (s : Stream.t) : Prop :=
  exists i, Dataset.identifier s = Ok i /\ appended gps i s = Ok s.

(** The tag list of a record names every tag of [ts]. *)
Definition carries (ts : list string) (s : Stream.t) : Prop :=
  exists tl, Stream.tags s = Some tl /\ forall t, t ∈ ts -> t ∈ tl.

(** The same heap and diagnostics, seen from another Dataset. *)
Definition with_self (d : Dataset.t) (e : Dataset.Env) : Dataset.Env :=
  Dataset.mkEnv (Dataset.heap e) d (Dataset.warnings e).

(** A record with both metadata, as [append] stores it under
    [flat_geodesy]. *)
Definition stored (st : Station.t) (o : Origin.t) (i : string) : Stream.t :=
  Stream.mk [Trace.mk [4; -1] None blank_stats] (Some st) (Some o)
            (Some i) (Some []) (Some 1000) (Some 90).

Definition origin_2 : Origin.t := Origin.mk 35 139 10000 50.

Definition stored_env : Dataset.Env :=
  Dataset.mkEnv
    [stored station_A origin_1 "IU.ANMO.00";
     stored station_B origin_1 "IU.COLA.00";
     stored station_A origin_2 "IU.ANMO.00"]
    (Dataset.mk (Some "20090407") [0; 1; 2]%nat) [].

(** A record of a Dataset that a reader filled in and [append] stored:
    settled, with station and origin metadata. *)
Definition well_kept (gps : Z -> Z -> Z -> Z -> result (Z * Z * Z))
    (h : list Stream.t) (a : addr) : Prop :=
  exists s, h !! a = Some s /\ settled gps s
            /\ is_Some (Stream.station s) /\ is_Some (Stream.origin s).

(** ** Metadata projections *)

Definition station_at (h : list Stream.t) (a : addr) : option Station.t :=
  match h !! a with Some s => Stream.station s | None => None end.

Definition origin_at (h : list Stream.t) (a : addr) : option Origin.t :=
  match h !! a with Some s => Stream.origin s | None => None end.

(** One turn of the loop of [get_origins]. *)
Definition origin_turn (_warnings : bool) (a : addr) : Dataset.M Origin.t :=
  Dataset.bind (Dataset.deref a) (fun stream =>
  Dataset.bind (Dataset.lift (Dataset.get_origin stream)) (fun o =>
  Dataset.bind
    (if _warnings then
       Dataset.bind Dataset.first_item (fun first =>
       Dataset.bind (Dataset.lift (Dataset.get_origin first)) (fun o0 =>
       if bool_decide (o <> o0)
       then Dataset.warn Dataset.different_events_warning
       else Dataset.ret tt))
     else Dataset.ret tt)
    (fun _ => Dataset.ret o))).

(** How many origins of a list differ from [o0]. *)
Definition strangers (o0 : Origin.t) (os : list Origin.t) : nat :=
  length (List.filter (fun o => negb (bool_decide (o = o0))) os).

(** What a loop that reads one attribute per record gathers. *)
Fixpoint gather {B} (h : list Stream.t) (f : Stream.t -> result B)
    (l : list addr) : result (list B) :=
  match l with
  | [] => Ok []
  | a :: l' =>
      match h !! a with
      | None => Raise AttributeError
      | Some s => x <~ f s ;; xs <~ gather h f l' ;; Ok (x :: xs)
      end
  end.

(** The warnings [get_origins] issues for a list of origins: one for each
    origin that differs from the first, none when they are switched off. *)
Definition origin_warnings (_warnings : bool) (os : list Origin.t)
    : list string :=
  match _warnings, os with
  | true, o0 :: _ =>
      repeat Dataset.different_events_warning (strangers o0 os)
  | _, _ => []
  end.

(** The records of [stored_env] seen as a Dataset of two events. *)
Definition two_event_origins : list Origin.t := [origin_1; origin_1; origin_2].

(** ** Amplitudes *)

(** A trace whose largest sample is also its largest sample in absolute
    value (as when no sample is negative). *)
Definition peak_is_positive (data : list Z) : Prop :=
  exists x, x ∈ data /\ forall y, y ∈ data -> Z.abs y <= x.

(** Every trace that counts has samples, the largest of them positive. *)
Definition upright (s : Stream.t) : Prop :=
  Forall (fun tr => Dataset.truthy (Dataset.getattr_weight tr) = true ->
                    peak_is_positive (Trace.data tr))
         (Stream.traces s).

(** The step of [max_abs]. *)
Definition abs_step (m : amplitude) (x : Z) : amplitude :=
  match m with
  | NegInf => Fin (Z.abs x)
  | Fin y => Fin (Z.max y (Z.abs x))
  end.

(** Two records without negative peaks; the second trace of the first
    record is switched off. *)
Definition upright_env : Dataset.Env :=
  dataset_of
    [Stream.mk [Trace.mk [1; 7; -3] (Some 1) blank_stats;
                Trace.mk [-50; 2] (Some 0) blank_stats]
       None None None (Some []) None None;
     one_trace [0; 4] None].

(** ** More on score surfaces *)

(** The surface with every score negated, and a profile with every value
    negated; NaN stays NaN. *)
Definition opposite (v : UQ.score) : UQ.score :=
  match v with
  | UQ.NaN => UQ.NaN
  | UQ.Num x => UQ.Num (- x)
  end.

Definition negate (ds : UQ.DataArray UQ.score) : UQ.DataArray UQ.score :=
  UQ.mkArray (UQ.shape ds) (List.map opposite (UQ.values ds)).

Definition mirror (r : result (list UQ.score * list nat))
    : result (list UQ.score * list nat) :=
  match r with
  | Ok (values, indices) => Ok (List.map opposite values, indices)
  | Raise x => Raise x
  end.

(** An eight-axis surface whose last axis is longer than its seventh. *)
Definition surface8_long : UQ.DataArray UQ.score :=
  numeric [1; 1; 1; 1; 1; 1; 1; 2]%nat [1; 2].

(** ** Tags with a key *)

Fixpoint has_colon (s : string) : bool :=
  match s with
  | EmptyString => false
  | String c rest => bool_decide (c = ":"%char) || has_colon rest
  end.

(** The part of a tag before its first colon. *)
Definition tag_key (tag : string) : string :=
  match Waveform.split tag with
  | part0 :: _ => part0
  | [] => EmptyString
  end.

(** The tag [key:value]. *)
Definition keyed_tag (key value : string) : string :=
  (key ++ String ":"%char value)%string.

(** A record tagged with the solver only. *)
Definition solver_env : Dataset.Env :=
  dataset_of [tagged_stream ["solver:fk"%string]; tagged_stream []].

(** ** Counting stations *)

(** How many streams of a dataset hold a trace, and at how many positions
    one of two datasets does. *)
Definition with_traces (d : list Stream.t) : nat :=
  length (List.filter Waveform.nonempty d).

Fixpoint with_traces2 (d1 d2 : list Stream.t) : nat :=
  match d1, d2 with
  | s1 :: d1', s2 :: d2' =>
      ((if Waveform.nonempty s1 || Waveform.nonempty s2 then 1 else 0)
       + with_traces2 d1' d2')%nat
  | _, _ => 0%nat
  end.

Definition silent : Stream.t := Stream.mk [] None None None None None None.

Definition body_waves : list Stream.t := [one_trace [1] None; silent; silent].
Definition surface_waves : list Stream.t :=
  [one_trace [2] None; one_trace [3] None; silent].

(** ** Identifiers in a list of records *)

Definition id_at (h : list Stream.t) (a : addr) : option string :=
  match h !! a with Some s => Stream.id s | None => None end.

(** The record at an address has an identifier, and it is not [i]. *)
Definition other_id (h : list Stream.t) (i : string) (a : addr) : Prop :=
  exists j, id_at h a = Some j /\ j <> i.

(** ** Records of the heap with a property *)

(** The address holds a record, and the record is [good]. *)
Definition good_at (good : Stream.t -> Prop) (h : list Stream.t) (a : addr)
    : Prop :=
  exists s, h !! a = Some s /\ good s.
(** ** [Dataset.max] *)

Lemma max_of_empty_dataset i w h :
  Dataset.max (Dataset.mkEnv h (Dataset.mk i []) w)
  = (Dataset.mkEnv h (Dataset.mk i []) w, Ok NegInf).
Proof. reflexivity. Qed.

Lemma max_weight_gate_scenario :
  Dataset.max gate_env = (gate_env, Ok (Fin 5)).
Proof. reflexivity. Qed.

(** A trace whose weight is falsy is passed over, whatever its samples. *)
Lemma max_skips_unweighted (tr : Trace.t) (ts : list Trace.t)
    (max_all : amplitude) :
  Trace.weight tr = Some 0 ->
  Dataset.max_traces (tr :: ts) max_all = Dataset.max_traces ts max_all.
Proof.
  intros Hw. simpl. unfold Dataset.getattr_weight. rewrite Hw. reflexivity.
Qed.

(** C1.  [Dataset.max] does not return the maximum absolute amplitude: on
    two weight-one records with samples [3] and [-10, 2] it answers [3],
    where the largest absolute sample is [10].  The raw maximum [2] of the
    second trace is compared with the running value, so the trace is never
    looked at in absolute value. *)
Theorem max_misses_negative_peak :
  Dataset.max sign_env = (sign_env, Ok (Fin 3))
  /\ max_abs_amplitude sign_env = Fin 10.
Proof. split; reflexivity. Qed.

(** ** [Dataset.append] *)

Section AppendFacts.

Variable gps2dist_azimuth : Z -> Z -> Z -> Z -> result (Z * Z * Z).

Local Abbreviation append := (Dataset.append gps2dist_azimuth).

Lemma append_raises (e : Dataset.Env) (a : addr) (s : Stream.t) (x : exn) :
  Dataset.heap e !! a = Some s ->
  Dataset.identifier s = Raise x ->
  append (VStream a) e = (e, Raise x).
Proof.
  intros Ha Hi. unfold Dataset.append. rewrite Ha.
  unfold Dataset.bind, Dataset.lift. rewrite Hi. reflexivity.
Qed.

Lemma append_stores (e : Dataset.Env) (a : addr) (s : Stream.t) (i : string)
    (g : option (Z * Z)) :
  Dataset.heap e !! a = Some s ->
  Dataset.identifier s = Ok i ->
  geodesy gps2dist_azimuth s = Ok g ->
  append (VStream a) e
  = (Dataset.mkEnv
       (<[a := placed g i s]> (Dataset.heap e))
       (Dataset.mk (Dataset.id (Dataset.self e))
                   (Dataset.items (Dataset.self e) ++ [a]))
       (Dataset.warnings e ++ append_warning s),
     Ok tt).
Proof.
  intros Ha Hi Hg. unfold Dataset.append. rewrite Ha.
  unfold Dataset.bind at 1. unfold Dataset.lift. rewrite Hi.
  unfold geodesy in Hg. unfold placed, named, append_warning.
  destruct s as [tr st o i0 tg d az]; simpl in Hg |- *.
  destruct e as [h d0 w]; simpl in *.
  destruct tg as [tg|], st as [st|], o as [o|];
    unfold Dataset.bind, Dataset.store, Dataset.warn, Dataset.get_self,
      Dataset.put_items, Dataset.lift; simpl;
    try (inversion Hg; subst; reflexivity);
    destruct (gps2dist_azimuth _ _ _ _) as [[[dd aa] bb]|x]; simpl in Hg;
    inversion Hg; subst; simpl;
    rewrite ?list_insert_insert_eq, ?app_nil_r; reflexivity.
Qed.

(** When the geodesy routine raises, the record already has its
    identifier and tag list, and the Dataset does not get it. *)
Lemma append_refused (e : Dataset.Env) (a : addr) (s : Stream.t)
    (i : string) (x : exn) :
  Dataset.heap e !! a = Some s ->
  Dataset.identifier s = Ok i ->
  geodesy gps2dist_azimuth s = Raise x ->
  append (VStream a) e
  = (Dataset.mkEnv (<[a := named i s]> (Dataset.heap e)) (Dataset.self e)
       (Dataset.warnings e),
     Raise x).
Proof.
  intros Ha Hi Hg. unfold Dataset.append. rewrite Ha.
  unfold Dataset.bind at 1. unfold Dataset.lift. rewrite Hi.
  unfold geodesy in Hg. unfold named.
  destruct s as [tr st o i0 tg d az]; simpl in Hg |- *.
  destruct e as [h d0 w]; simpl in *.
  destruct tg as [tg|], st as [st|], o as [o|]; try discriminate;
    unfold Dataset.bind, Dataset.store, Dataset.warn, Dataset.get_self,
      Dataset.put_items, Dataset.lift; simpl;
    destruct (gps2dist_azimuth _ _ _ _) as [[[dd aa] bb]|y]; simpl in Hg;
    inversion Hg; subst; reflexivity.
Qed.

Lemma geodesy_without_metadata (s : Stream.t) :
  Stream.station s = None \/ Stream.origin s = None ->
  geodesy gps2dist_azimuth s = Ok None.
Proof.
  unfold geodesy. intros [H|H]; rewrite H; [reflexivity|].
  destruct (Stream.station s); reflexivity.
Qed.

Lemma placed_id (g : option (Z * Z)) (i : string) (s : Stream.t) :
  Stream.id (placed g i s) = Some i
  /\ is_Some (Stream.tags (placed g i s)).
Proof.
  unfold placed, named. destruct s as [tr st o i0 tg d0 az0]; simpl.
  destruct g as [[d az]|], tg;
    (split; [reflexivity | eexists; reflexivity]).
Qed.

(** C2, as the code has it.  Whatever is not a stream is refused by the
    [assert]: the call raises [AssertionError], and heap, Dataset and
    diagnostics are exactly as before. *)
Theorem append_refuses_non_stream (e : Dataset.Env) (v : value) :
  ~ is_stream (Dataset.heap e) v ->
  append v e = (e, Raise AssertionError).
Proof.
  intros Hv. destruct v as [| | | | |a]; try reflexivity.
  simpl in Hv. unfold Dataset.append.
  destruct (Dataset.heap e !! a) as [s|] eqn:Ha in |- *; [|reflexivity].
  exfalso. apply Hv. rewrite Ha. eauto.
Qed.

(** C9, as the code has it.  An empty stream without [station] makes
    [append] raise [IndexError] out of the identifier fallback, with
    nothing stored and nothing said on the diagnostic channel.  A stream
    whose first trace has its three codes gets its identifier, from
    [station] when that carries the three codes and from the first trace
    otherwise.  It joins the Dataset at the end when station or origin
    metadata is absent, and when the geodesy routine answers for the two.
    When the routine raises, [append] raises the same error: the record
    keeps the identifier it was just given, and the Dataset does not get
    it. *)
Theorem append_identifier_fallback :
  (forall (e : Dataset.Env) (a : addr) (s : Stream.t),
      Dataset.heap e !! a = Some s ->
      Stream.traces s = [] ->
      Stream.station s = None ->
      append (VStream a) e = (e, Raise IndexError))
  /\
  (forall (e : Dataset.Env) (a : addr) (s : Stream.t)
          (tr : Trace.t) (rest : list Trace.t) (n c l : string),
      Dataset.heap e !! a = Some s ->
      Stream.traces s = tr :: rest ->
      Trace.stats tr = Stats.mk (Some n) (Some c) (Some l) ->
      let i := match Dataset.station_id s with
               | Some i => i
               | None => Dataset.join3 n c l
               end in
      let joins :=
        exists (e' : Dataset.Env) (s' : Stream.t),
          append (VStream a) e = (e', Ok tt)
          /\ Dataset.items (Dataset.self e')
             = Dataset.items (Dataset.self e) ++ [a]
          /\ Dataset.heap e' !! a = Some s'
          /\ Stream.id s' = Some i
          /\ (Stream.station s = None ->
              Stream.id s' = Some (Dataset.join3 n c l)) in
      (Stream.station s = None \/ Stream.origin s = None -> joins)
      /\ (forall (st : Station.t) (o : Origin.t) (g : Z * Z * Z),
             Stream.station s = Some st -> Stream.origin s = Some o ->
             gps2dist_azimuth (Origin.latitude o) (Origin.longitude o)
               (Station.latitude st) (Station.longitude st) = Ok g ->
             joins)
      /\ (forall (st : Station.t) (o : Origin.t) (x : exn),
             Stream.station s = Some st -> Stream.origin s = Some o ->
             gps2dist_azimuth (Origin.latitude o) (Origin.longitude o)
               (Station.latitude st) (Station.longitude st) = Raise x ->
             exists (e' : Dataset.Env) (s' : Stream.t),
               append (VStream a) e = (e', Raise x)
               /\ Dataset.self e' = Dataset.self e
               /\ Dataset.heap e' !! a = Some s'
               /\ Stream.id s' = Some i)).
Proof.
  split.
  - intros e a s Ha Ht Hs. apply append_raises with (s := s); [exact Ha|].
    unfold Dataset.identifier, Dataset.station_id, Dataset.stats_id.
    rewrite Hs, Ht. reflexivity.
  - intros e a s tr rest n c l Ha Ht Hst i joins.
    assert (Hi : Dataset.identifier s = Ok i).
    { unfold Dataset.identifier, Dataset.stats_id, i.
      destruct (Dataset.station_id s); [reflexivity|].
      rewrite Ht. simpl. rewrite Hst. reflexivity. }
    assert (Hjoins : forall g, geodesy gps2dist_azimuth s = Ok g -> joins).
    { intros g Hg. exists
        (Dataset.mkEnv (<[a := placed g i s]> (Dataset.heap e))
           (Dataset.mk (Dataset.id (Dataset.self e))
                       (Dataset.items (Dataset.self e) ++ [a]))
           (Dataset.warnings e ++ append_warning s)),
        (placed g i s).
      split; [apply (append_stores e a s i g Ha Hi Hg)|].
      simpl. split; [reflexivity|].
      split; [apply list_lookup_insert_eq, (lookup_lt_Some _ _ _ Ha)|].
      destruct (placed_id g i s) as [Hid _].
      split; [exact Hid|].
      intros Hs. rewrite Hid. unfold i, Dataset.station_id. rewrite Hs.
      reflexivity. }
    split; [|split].
    + intros Hnone. apply (Hjoins None), geodesy_without_metadata, Hnone.
    + intros st o g Hs Ho Hg.
      apply (Hjoins (Some (fst (fst g), snd (fst g)))).
      unfold geodesy. rewrite Hs, Ho, Hg. reflexivity.
    + intros st o x Hs Ho Hg.
      exists (Dataset.mkEnv (<[a := named i s]> (Dataset.heap e))
                (Dataset.self e) (Dataset.warnings e)), (named i s).
      split.
      { apply (append_refused e a s i x Ha Hi).
        unfold geodesy. rewrite Hs, Ho, Hg. reflexivity. }
      simpl. split; [reflexivity|].
      split; [apply list_lookup_insert_eq, (lookup_lt_Some _ _ _ Ha)|].
      unfold named. destruct (Stream.tags s); reflexivity.
Qed.

End AppendFacts.

Lemma append_refuses_non_stream_witness :
  Dataset.append flat_geodesy (VInt 5) empty_env
  = (empty_env, Raise AssertionError).
Proof.
  apply (append_refuses_non_stream flat_geodesy empty_env (VInt 5)).
  simpl. tauto.
Defined.

(** C2 as stated fails: the error is not [TypeError]. *)
Lemma append_non_stream_not_TypeError :
  snd (Dataset.append flat_geodesy (VInt 5) empty_env) <> Raise TypeError.
Proof. simpl. discriminate. Qed.

Lemma append_identifier_fallback_witness :
  Dataset.append checked_geodesy (VStream 0) (dataset_of [empty_stream])
  = (dataset_of [empty_stream], Raise IndexError)
  /\ (exists (e' : Dataset.Env) (s' : Stream.t),
        Dataset.append checked_geodesy (VStream 0)
          (Dataset.mkEnv [raw_stream] (Dataset.mk None []) []) = (e', Ok tt)
        /\ Dataset.items (Dataset.self e') = [] ++ [0%nat]
        /\ Dataset.heap e' !! 0%nat = Some s'
        /\ Stream.id s' = Some "IU.ANMO.00"%string)
  /\ (exists (e' : Dataset.Env) (s' : Stream.t),
        Dataset.append checked_geodesy (VStream 0)
          (Dataset.mkEnv [recorded station_A origin_1] (Dataset.mk None []) [])
        = (e', Ok tt)
        /\ Dataset.heap e' !! 0%nat = Some s'
        /\ Stream.id s' = Some "IU.ANMO.00"%string)
  /\ (exists (e' : Dataset.Env) (s' : Stream.t),
        Dataset.append checked_geodesy (VStream 0)
          (Dataset.mkEnv [recorded station_off origin_1] (Dataset.mk None [])
             [])
        = (e', Raise ValueError)
        /\ Dataset.self e' = Dataset.mk None []
        /\ Dataset.heap e' !! 0%nat = Some s'
        /\ Stream.id s' = Some "XX.NONE.00"%string).
Proof.
  destruct (append_identifier_fallback checked_geodesy) as [Hempty Hfull].
  split; [|split; [|split]].
  - apply (Hempty (dataset_of [empty_stream]) 0%nat empty_stream);
      reflexivity.
  - destruct (Hfull (Dataset.mkEnv [raw_stream] (Dataset.mk None []) [])
                0%nat raw_stream
                (Trace.mk [1; -2] None blank_stats) [] "IU" "ANMO" "00"
                eq_refl eq_refl eq_refl)%string
      as (Hjoins & _ & _).
    destruct (Hjoins (or_introl eq_refl))
      as (e' & s' & Hrun & Hitems & Hheap & Hid & _).
    exists e', s'. repeat split; assumption.
  - destruct (Hfull (Dataset.mkEnv [recorded station_A origin_1]
                       (Dataset.mk None []) [])
                0%nat (recorded station_A origin_1)
                (Trace.mk [4; -1] None blank_stats) [] "IU" "ANMO" "00"
                eq_refl eq_refl eq_refl)%string
      as (_ & Hjoins & _).
    destruct (Hjoins station_A origin_1 (1000, 90, 270) eq_refl eq_refl
                eq_refl)
      as (e' & s' & Hrun & _ & Hheap & Hid & _).
    exists e', s'. repeat split; assumption.
  - destruct (Hfull (Dataset.mkEnv [recorded station_off origin_1]
                       (Dataset.mk None []) [])
                0%nat (recorded station_off origin_1)
                (Trace.mk [4; -1] None blank_stats) [] "IU" "ANMO" "00"
                eq_refl eq_refl eq_refl)%string
      as (_ & _ & Hraises).
    destruct (Hraises station_off origin_1 ValueError eq_refl eq_refl
                eq_refl)
      as (e' & s' & Hrun & Hself & Hheap & Hid).
    exists e', s'. repeat split; assumption.
Defined.

(** C9 as stated fails: a stream whose first trace has its three codes is
    refused when the geodesy routine refuses the latitude of its station;
    [append] raises [ValueError] and the Dataset stays empty. *)
Lemma append_out_of_range_raises :
  snd (Dataset.append checked_geodesy (VStream 0)
         (Dataset.mkEnv [recorded station_off origin_1]
            (Dataset.mk None []) []))
  = Raise ValueError
  /\ Dataset.items (Dataset.self
        (fst (Dataset.append checked_geodesy (VStream 0)
                (Dataset.mkEnv [recorded station_off origin_1]
                   (Dataset.mk None []) []))))
     = [].
Proof. split; reflexivity. Qed.

(** ** [Dataset.tag_add] *)

Section TagFacts.

Variable t : string.

Lemma tag_turn_tagged (e : Dataset.Env) (a : addr) :
  tagged t (Dataset.heap e) a -> tag_turn t a e = (e, Ok tt).
Proof.
  intros (s & l & Ha & Hl & Hin).
  unfold tag_turn, Dataset.bind, Dataset.deref, Dataset.lift, Dataset.add_tag,
    Dataset.store.
  rewrite Ha, Hl. rewrite bool_decide_eq_true_2 by exact Hin.
  rewrite list_insert_id by exact Ha. destruct e; reflexivity.
Qed.

Lemma tag_turn_inv (e e' : Dataset.Env) (a : addr) (r : result unit) :
  tag_turn t a e = (e', r) ->
  (r = Ok tt /\ exists s,
      Dataset.heap e !! a = Some s /\ is_Some (Stream.tags s)
      /\ e' = Dataset.mkEnv (<[a := with_tag t s]> (Dataset.heap e))
                (Dataset.self e) (Dataset.warnings e))
  \/ (r = Raise AttributeError /\ e' = e /\ ~ has_tags (Dataset.heap e) a).
Proof.
  unfold tag_turn, Dataset.bind, Dataset.deref, Dataset.lift, Dataset.add_tag,
    Dataset.store, with_tag, has_tags.
  destruct (Dataset.heap e !! a) as [s|] eqn:Ha in |- *.
  - destruct (Stream.tags s) as [l|] eqn:Hl.
    + intros H. left.
      destruct (bool_decide (t ∈ l)) eqn:Hd; inversion H; subst;
        (split; [reflexivity|]); exists s; rewrite Hl, Hd;
        (split; [reflexivity|]); (split; [exists l; reflexivity|]);
        reflexivity.
    + intros H. inversion H; subst. right. repeat split.
      intros (s' & l & Hs' & Hl'). congruence.
  - intros H. inversion H; subst. right. repeat split.
    intros (s' & l & Hs' & Hl'). congruence.
Qed.

Lemma with_tag_tagged (s : Stream.t) :
  is_Some (Stream.tags s) ->
  exists l, Stream.tags (with_tag t s) = Some l /\ t ∈ l.
Proof.
  intros [l Hl]. unfold with_tag. rewrite Hl.
  destruct (bool_decide (t ∈ l)) eqn:Hd.
  - exists l. split; [exact Hl|]. apply bool_decide_eq_true in Hd. exact Hd.
  - exists (l ++ [t]). split; [reflexivity|]. set_solver.
Qed.

Lemma with_tag_idem (s : Stream.t) : with_tag t (with_tag t s) = with_tag t s.
Proof.
  destruct (Stream.tags s) as [l|] eqn:Hl.
  - destruct (with_tag_tagged s) as (l' & Hl' & Hin); [eauto|].
    unfold with_tag at 1. rewrite Hl', bool_decide_eq_true_2 by exact Hin.
    reflexivity.
  - unfold with_tag. rewrite Hl. rewrite Hl. reflexivity.
Qed.

Lemma tagged_insert (h : list Stream.t) (a b : addr) (s : Stream.t) :
  h !! a = Some s -> is_Some (Stream.tags s) ->
  tagged t h b -> tagged t (<[a := with_tag t s]> h) b.
Proof.
  intros Ha Hs (sb & l & Hb & Hl & Hin).
  destruct (decide (a = b)) as [->|Hne].
  - destruct (with_tag_tagged s Hs) as (l' & Hl' & Hin').
    exists (with_tag t s), l'. split; [|auto].
    apply list_lookup_insert_eq, (lookup_lt_Some _ _ _ Ha).
  - exists sb, l. rewrite list_lookup_insert_ne by exact Hne. auto.
Qed.

Lemma tag_loop_tagged (l : list addr) (e e' : Dataset.Env) (r : result unit)
    (b : addr) :
  Dataset.for_each l (tag_turn t) e = (e', r) ->
  tagged t (Dataset.heap e) b -> tagged t (Dataset.heap e') b.
Proof.
  revert e. induction l as [|a l IH]; intros e Hrun Hb; simpl in Hrun.
  - inversion Hrun; subst. exact Hb.
  - unfold Dataset.bind in Hrun.
    destruct (tag_turn t a e) as [e1 r1] eqn:Hturn.
    destruct (tag_turn_inv _ _ _ _ Hturn)
      as [(-> & s & Ha & Hs & ->) | (-> & -> & _)].
    + apply (IH _ Hrun). simpl. apply tagged_insert; assumption.
    + inversion Hrun; subst. exact Hb.
Qed.

Lemma tag_loop_self (l : list addr) (e e' : Dataset.Env) (r : result unit) :
  Dataset.for_each l (tag_turn t) e = (e', r) ->
  Dataset.self e' = Dataset.self e /\ Dataset.warnings e' = Dataset.warnings e.
Proof.
  revert e. induction l as [|a l IH]; intros e Hrun; simpl in Hrun.
  - inversion Hrun; subst. auto.
  - unfold Dataset.bind in Hrun.
    destruct (tag_turn t a e) as [e1 r1] eqn:Hturn.
    destruct (tag_turn_inv _ _ _ _ Hturn)
      as [(-> & s & Ha & Hs & ->) | (-> & -> & _)].
    + apply IH in Hrun. exact Hrun.
    + inversion Hrun; subst. auto.
Qed.

Lemma tag_loop_again (l : list addr) (e e' : Dataset.Env) (r : result unit) :
  Dataset.for_each l (tag_turn t) e = (e', r) ->
  Dataset.for_each l (tag_turn t) e' = (e', r).
Proof.
  revert e. induction l as [|a l IH]; intros e Hrun; simpl in Hrun |- *.
  - inversion Hrun; subst. reflexivity.
  - unfold Dataset.bind in Hrun |- *.
    destruct (tag_turn t a e) as [e1 r1] eqn:Hturn.
    destruct (tag_turn_inv _ _ _ _ Hturn)
      as [(-> & s & Ha & Hs & ->) | (-> & -> & _)].
    + rewrite tag_turn_tagged; [exact (IH _ Hrun)|].
      apply (tag_loop_tagged _ _ _ _ _ Hrun). simpl.
      destruct (with_tag_tagged s Hs) as (l' & Hl' & Hin).
      exists (with_tag t s), l'. split; [|auto].
      apply list_lookup_insert_eq, (lookup_lt_Some _ _ _ Ha).
    + inversion Hrun; subst. rewrite Hturn. reflexivity.
Qed.

Lemma tag_loop_effect (l : list addr) (e : Dataset.Env) :
  Forall (has_tags (Dataset.heap e)) l ->
  exists e',
    Dataset.for_each l (tag_turn t) e = (e', Ok tt)
    /\ Dataset.self e' = Dataset.self e
    /\ Dataset.warnings e' = Dataset.warnings e
    /\ forall a,
         Dataset.heap e' !! a
         = (if bool_decide (a ∈ l) then with_tag t <$> Dataset.heap e !! a
            else Dataset.heap e !! a).
Proof.
  revert e. induction l as [|a l IH]; intros e Hall.
  - exists e. repeat split.
  - inversion Hall as [|? ? (s & tl & Ha & Htl) Hrest]; subst.
    set (e1 := Dataset.mkEnv (<[a := with_tag t s]> (Dataset.heap e))
                 (Dataset.self e) (Dataset.warnings e)).
    assert (Hturn : tag_turn t a e = (e1, Ok tt)).
    { destruct (tag_turn t a e) as [e2 r2] eqn:Hturn.
      destruct (tag_turn_inv _ _ _ _ Hturn)
        as [(-> & s' & Ha' & Hs' & ->) | (_ & _ & Hno)].
      - rewrite Ha in Ha'. inversion Ha'; subst. reflexivity.
      - exfalso. apply Hno. exists s, tl. auto. }
    destruct (IH e1) as (e' & Hrun & Hself & Hwarn & Hheap).
    { simpl. eapply Forall_impl; [exact Hrest|].
      intros b (sb & lb & Hb & Hlb). unfold has_tags.
      destruct (decide (a = b)) as [->|Hne].
      - destruct (with_tag_tagged s) as (l' & Hl' & _); [eauto|].
        exists (with_tag t s), l'. split; [|exact Hl'].
        apply list_lookup_insert_eq, (lookup_lt_Some _ _ _ Ha).
      - exists sb, lb. rewrite list_lookup_insert_ne by exact Hne. auto. }
    exists e'. simpl. unfold Dataset.bind. rewrite Hturn.
    split; [exact Hrun|]. split; [exact Hself|]. split; [exact Hwarn|].
    intros b. rewrite Hheap. unfold e1. simpl.
    destruct (decide (b = a)) as [->|Hne].
    + rewrite (bool_decide_eq_true_2 (a ∈ a :: l)) by set_solver.
      rewrite list_lookup_insert_eq by exact (lookup_lt_Some _ _ _ Ha).
      rewrite Ha.
      destruct (bool_decide (a ∈ l)); simpl;
        rewrite ?with_tag_idem; reflexivity.
    + rewrite list_lookup_insert_ne by congruence.
      destruct (decide (b ∈ l)) as [Hin|Hnin].
      * rewrite !bool_decide_eq_true_2
          by (rewrite ?elem_of_cons; auto). reflexivity.
      * rewrite !bool_decide_eq_false_2
          by (rewrite ?elem_of_cons; tauto). reflexivity.
Qed.

End TagFacts.

Lemma tag_add_loop (t : string) (e : Dataset.Env) :
  Dataset.tag_add (VStr t) e
  = Dataset.for_each (Dataset.items (Dataset.self e)) (tag_turn t) e.
Proof. reflexivity. Qed.

(** C8.  A tag that is not a string is refused with [TypeError] before any
    record is touched.  For a string, every record of the Dataset ends with
    its tag list extended by the tag exactly when the tag was missing, all
    other objects are as before, and a second call with the same tag
    changes nothing and ends as the first did. *)
Theorem tag_add_idempotent :
  (forall (e : Dataset.Env) (tag : value),
      ~ is_string tag -> Dataset.tag_add tag e = (e, Raise TypeError))
  /\
  (forall (e : Dataset.Env) (t : string),
      Forall (has_tags (Dataset.heap e)) (Dataset.items (Dataset.self e)) ->
      exists e',
        Dataset.tag_add (VStr t) e = (e', Ok tt)
        /\ Dataset.self e' = Dataset.self e
        /\ forall a,
             Dataset.heap e' !! a
             = (if bool_decide (a ∈ Dataset.items (Dataset.self e))
                then with_tag t <$> Dataset.heap e !! a
                else Dataset.heap e !! a))
  /\
  (forall (e : Dataset.Env) (t : string),
      Dataset.tag_add (VStr t) (fst (Dataset.tag_add (VStr t) e))
      = Dataset.tag_add (VStr t) e).
Proof.
  split; [|split].
  - intros e tag Hns. destruct tag; try reflexivity. exfalso. apply Hns.
    exact I.
  - intros e t Hall. rewrite tag_add_loop.
    destruct (tag_loop_effect t _ e Hall) as (e' & Hrun & Hself & _ & Hheap).
    exists e'. auto.
  - intros e t. rewrite !tag_add_loop.
    destruct (Dataset.for_each _ (tag_turn t) e) as [e' r] eqn:Hrun.
    simpl. destruct (tag_loop_self t _ _ _ _ Hrun) as [-> _].
    apply (tag_loop_again t _ _ _ _ Hrun).
Qed.

Lemma tag_add_idempotent_witness :
  Dataset.tag_add (VInt 7) tag_env = (tag_env, Raise TypeError)
  /\ (exists e',
        Dataset.tag_add (VStr "raw") tag_env = (e', Ok tt)
        /\ Dataset.heap e' !! 0%nat
           = with_tag "raw" <$> Dataset.heap tag_env !! 0%nat
        /\ Dataset.heap e' !! 1%nat
           = with_tag "raw" <$> Dataset.heap tag_env !! 1%nat)
  /\ Dataset.tag_add (VStr "raw") (fst (Dataset.tag_add (VStr "raw") tag_env))
     = Dataset.tag_add (VStr "raw") tag_env.
Proof.
  destruct tag_add_idempotent as (Htype & Heffect & Htwice).
  split; [|split].
  - apply (Htype tag_env (VInt 7)). simpl. tauto.
  - destruct (Heffect tag_env "raw"%string) as (e' & Hrun & _ & Hheap).
    + repeat constructor; unfold has_tags; simpl; eauto.
    + exists e'. split; [exact Hrun|].
      split; [exact (Hheap 0%nat) | exact (Hheap 1%nat)].
  - apply (Htwice tag_env "raw"%string).
Defined.

(** ** Sorting *)

Section SortFacts.

Context {A : Type}.
Implicit Types (x : Z * A) (l : list (Z * A)).

Lemma insert_key_sorted x l :
  Sorted key_le l -> Sorted key_le (Dataset.insert_key x l).
Proof.
  induction 1 as [|y l Hs IH Hhd]; simpl.
  - repeat constructor.
  - destruct (Z.leb_spec (fst x) (fst y)) as [Hle|Hgt].
    + repeat constructor; assumption.
    + constructor; [exact IH|].
      destruct l as [|z l]; simpl.
      * constructor. unfold key_le. lia.
      * inversion Hhd; subst.
        destruct (fst x <=? fst z); constructor;
          [unfold key_le; lia | assumption].
Qed.

Lemma stable_sort_sorted l : Sorted key_le (Dataset.stable_sort l).
Proof.
  induction l as [|x l IH]; simpl; [constructor|].
  apply insert_key_sorted, IH.
Qed.

Lemma stable_sort_fixed l :
  Sorted key_le l -> Dataset.stable_sort l = l.
Proof.
  induction 1 as [|x l Hs IH Hhd]; [reflexivity|].
  change (Dataset.stable_sort (x :: l))
    with (Dataset.insert_key x (Dataset.stable_sort l)).
  rewrite IH.
  destruct Hhd as [|y l' Hxy]; simpl; [reflexivity|].
  unfold key_le in Hxy. destruct (Z.leb_spec (fst x) (fst y)); [reflexivity|lia].
Qed.

Lemma list_sort_idem (reverse : bool) l :
  Dataset.list_sort reverse (Dataset.list_sort reverse l)
  = Dataset.list_sort reverse l.
Proof.
  unfold Dataset.list_sort. destruct reverse.
  - rewrite rev_involutive.
    rewrite (stable_sort_fixed _ (stable_sort_sorted _)). reflexivity.
  - apply stable_sort_fixed, stable_sort_sorted.
Qed.

Lemma insert_key_perm x l : Permutation (x :: l) (Dataset.insert_key x l).
Proof.
  induction l as [|y l IH]; simpl; [reflexivity|].
  destruct (fst x <=? fst y); [reflexivity|].
  rewrite perm_swap. constructor. exact IH.
Qed.

Lemma stable_sort_perm l : Permutation l (Dataset.stable_sort l).
Proof.
  induction l as [|x l IH]; simpl; [reflexivity|].
  rewrite <- insert_key_perm. constructor. exact IH.
Qed.

Lemma list_sort_perm (reverse : bool) l :
  Permutation l (Dataset.list_sort reverse l).
Proof.
  unfold Dataset.list_sort. destruct reverse.
  - rewrite <- Permutation_rev, <- stable_sort_perm. apply Permutation_rev.
  - apply stable_sort_perm.
Qed.

End SortFacts.

Section SortByFunction.

Variable f : Stream.t -> result Z.

Lemma collect_keys (l : list addr) (e : Dataset.Env) :
  Dataset.collect l
    (fun a => Dataset.bind (Dataset.deref a) (fun data => Dataset.lift (f data)))
    e
  = (e, keys_of (Dataset.heap e) f l).
Proof.
  set (body := fun a => Dataset.bind _ _).
  assert (Hbody : forall a, body a e = (e, key_at (Dataset.heap e) f a)).
  { intros a. unfold body, Dataset.bind, Dataset.deref, Dataset.lift, key_at.
    destruct (Dataset.heap e !! a); reflexivity. }
  induction l as [|a l IH]; simpl; [reflexivity|].
  unfold Dataset.bind at 1. rewrite Hbody.
  destruct (key_at (Dataset.heap e) f a) as [k|x]; simpl; [|reflexivity].
  unfold Dataset.bind at 1. rewrite IH.
  destruct (keys_of (Dataset.heap e) f l); reflexivity.
Qed.

Lemma sort_by_function_run (reverse : bool) (e : Dataset.Env) :
  Dataset.sort_by_function f reverse e
  = match keys_of (Dataset.heap e) f (Dataset.items (Dataset.self e)) with
    | Ok keys =>
        (Dataset.mkEnv (Dataset.heap e)
           (Dataset.mk (Dataset.id (Dataset.self e))
              (List.map snd
                 (Dataset.list_sort reverse
                    (zip keys (Dataset.items (Dataset.self e))))))
           (Dataset.warnings e),
         Ok tt)
    | Raise x => (e, Raise x)
    end.
Proof.
  unfold Dataset.sort_by_function, Dataset.bind at 1, Dataset.get_self.
  unfold Dataset.bind. rewrite collect_keys.
  destruct (keys_of _ _ _); reflexivity.
Qed.

Lemma keys_of_zip (h : list Stream.t) (l : list addr) (keys : list Z) :
  keys_of h f l = Ok keys ->
  length keys = length l
  /\ Forall (fun x => key_at h f (snd x) = Ok (fst x)) (zip keys l).
Proof.
  revert keys. induction l as [|a l IH]; intros keys; simpl.
  - intros [= <-]. split; [reflexivity|constructor].
  - destruct (key_at h f a) as [k|] eqn:Hk; simpl; [|discriminate].
    destruct (keys_of h f l) as [ks|]; simpl; [|discriminate].
    intros [= <-]. destruct (IH ks eq_refl) as [Hlen Hall].
    simpl. split; [congruence|]. constructor; assumption.
Qed.

Lemma keys_of_decorated (h : list Stream.t) (kv : list (Z * addr)) :
  Forall (fun x => key_at h f (snd x) = Ok (fst x)) kv ->
  keys_of h f (List.map snd kv) = Ok (List.map fst kv).
Proof.
  induction 1 as [|x kv Hx _ IH]; simpl; [reflexivity|].
  rewrite Hx. simpl. rewrite IH. reflexivity.
Qed.

Lemma zip_fst_snd {X Y} (l : list (X * Y)) :
  zip (List.map fst l) (List.map snd l) = l.
Proof. induction l as [|[x y] l IH]; simpl; congruence. Qed.

(** Sorting a second time by the same key and in the same direction
    changes nothing, whether the first call succeeded or not. *)
Lemma sort_by_function_again (reverse : bool) (e : Dataset.Env) :
  Dataset.sort_by_function f reverse
    (fst (Dataset.sort_by_function f reverse e))
  = Dataset.sort_by_function f reverse e.
Proof.
  rewrite (sort_by_function_run reverse e).
  destruct (keys_of (Dataset.heap e) f (Dataset.items (Dataset.self e)))
    as [keys|x] eqn:Hkeys; simpl.
  - rewrite sort_by_function_run. simpl.
    destruct (keys_of_zip _ _ _ Hkeys) as [_ Hall].
    set (kv := zip keys (Dataset.items (Dataset.self e))) in *.
    assert (Hsorted : Forall (fun x => key_at (Dataset.heap e) f (snd x)
                                       = Ok (fst x))
                        (Dataset.list_sort reverse kv)).
    { rewrite <- (list_sort_perm reverse kv). exact Hall. }
    rewrite (keys_of_decorated _ _ Hsorted), zip_fst_snd, list_sort_idem.
    reflexivity.
  - rewrite sort_by_function_run, Hkeys. reflexivity.
Qed.

Lemma keys_of_distance (h : list Stream.t) (l : list addr) :
  Forall (has_distance h) l ->
  exists keys, keys_of h Dataset.get_distance_in_m l = Ok keys.
Proof.
  induction 1 as [|a l (s & d & Ha & Hd) _ [ks IH]]; [exists []; reflexivity|].
  assert (Hk : key_at h Dataset.get_distance_in_m a = Ok d).
  { unfold key_at, Dataset.get_distance_in_m. rewrite Ha, Hd. reflexivity. }
  exists (d :: ks). cbn [keys_of]. rewrite Hk, IH. reflexivity.
Qed.

End SortByFunction.

(** C5, as the code has it.  On a Dataset whose records all carry
    [distance_in_m], [sort_by_distance] succeeds, leaves the records
    themselves alone, permutes the Dataset, and a second call in the same
    direction changes nothing.  This holds for the ascending and for the
    reversed sort alike. *)
Theorem sort_by_distance_idempotent (reverse : bool) (e : Dataset.Env) :
  Forall (has_distance (Dataset.heap e)) (Dataset.items (Dataset.self e)) ->
  exists e',
    Dataset.sort_by_distance reverse e = (e', Ok tt)
    /\ Dataset.heap e' = Dataset.heap e
    /\ Permutation (Dataset.items (Dataset.self e))
                   (Dataset.items (Dataset.self e'))
    /\ Dataset.sort_by_distance reverse e' = (e', Ok tt).
Proof.
  intros Hall.
  destruct (keys_of_distance _ _ Hall) as [keys Hkeys].
  pose proof (sort_by_function_again Dataset.get_distance_in_m reverse e)
    as Hagain.
  unfold Dataset.sort_by_distance.
  pose proof (sort_by_function_run Dataset.get_distance_in_m reverse e)
    as Hrun.
  rewrite Hkeys in Hrun. rewrite Hrun in Hagain |- *.
  eexists. split; [reflexivity|]. simpl in Hagain |- *.
  split; [reflexivity|]. split; [|exact Hagain].
  destruct (keys_of_zip _ _ _ _ Hkeys) as [Hlen _].
  rewrite <- (list_sort_perm reverse).
  rewrite snd_zip by lia. reflexivity.
Qed.

Lemma sort_by_distance_idempotent_witness :
  exists e',
    Dataset.sort_by_distance true near_far_env = (e', Ok tt)
    /\ Dataset.heap e' = Dataset.heap near_far_env
    /\ Permutation (Dataset.items (Dataset.self near_far_env))
                   (Dataset.items (Dataset.self e'))
    /\ Dataset.sort_by_distance true e' = (e', Ok tt).
Proof.
  apply (sort_by_distance_idempotent true near_far_env).
  repeat constructor; unfold has_distance; simpl; eauto.
Defined.

(** C5 as stated fails: two reversed sorts leave the farther record
    first, they do not restore the original order. *)
Lemma reversed_sort_twice_not_original :
  Dataset.items (Dataset.self
    (fst (Dataset.sort_by_distance true
       (fst (Dataset.sort_by_distance true near_far_env)))))
  <> Dataset.items (Dataset.self near_far_env).
Proof. vm_compute. discriminate. Qed.

(** ** Construction through [append] *)

Section InitFacts.

Variable gps2dist_azimuth : Z -> Z -> Z -> Z -> result (Z * Z * Z).

Local Abbreviation append := (Dataset.append gps2dist_azimuth).
Local Abbreviation __init__ := (Dataset.__init__ gps2dist_azimuth).

Lemma same_meta_refl (s : Stream.t) : same_meta s s.
Proof. repeat split. Qed.

Lemma same_meta_trans (s1 s2 s3 : Stream.t) :
  same_meta s1 s2 -> same_meta s2 s3 -> same_meta s1 s3.
Proof. unfold same_meta. intuition congruence. Qed.

Lemma same_records_refl (h : list Stream.t) : same_records h h.
Proof. apply Forall_Forall2_diag, Forall_forall. intros. apply same_meta_refl. Qed.

Lemma same_records_trans (h1 h2 h3 : list Stream.t) :
  same_records h1 h2 -> same_records h2 h3 -> same_records h1 h3.
Proof.
  unfold same_records. intros H12. revert h3.
  induction H12 as [|s1 s2 h1 h2 Hs _ IH]; intros h3 H23;
    inversion H23; subst; constructor.
  - eapply same_meta_trans; eassumption.
  - apply IH. assumption.
Qed.

Lemma same_meta_named (i : string) (s : Stream.t) :
  same_meta s (named i s).
Proof. unfold named. destruct (Stream.tags s); repeat split. Qed.

Lemma same_meta_placed (g : option (Z * Z)) (i : string) (s : Stream.t) :
  same_meta s (placed g i s).
Proof.
  unfold placed, named.
  destruct g as [[d az]|], (Stream.tags s); repeat split.
Qed.

Lemma geodesy_same_meta (s s' : Stream.t) :
  same_meta s s' ->
  geodesy gps2dist_azimuth s' = geodesy gps2dist_azimuth s.
Proof.
  intros (_ & Hst & Ho). unfold geodesy. rewrite Hst, Ho. reflexivity.
Qed.

Lemma identifier_same_meta (s s' : Stream.t) :
  same_meta s s' -> Dataset.identifier s' = Dataset.identifier s.
Proof.
  intros (Ht & Hst & _).
  unfold Dataset.identifier, Dataset.station_id, Dataset.stats_id.
  rewrite Ht, Hst. reflexivity.
Qed.

Lemma acceptable_same_records (h h' : list Stream.t) (a : addr) :
  same_records h h' ->
  acceptable gps2dist_azimuth h a -> acceptable gps2dist_azimuth h' a.
Proof.
  intros Hsame (s & i & g & Ha & Hi & Hg).
  destruct (Forall2_lookup_l _ _ _ _ _ Hsame Ha) as (s' & Ha' & Hm).
  exists s', i, g. split; [exact Ha'|].
  rewrite (identifier_same_meta _ _ Hm), (geodesy_same_meta _ _ Hm). auto.
Qed.

Lemma same_records_store (h : list Stream.t) (a : addr) (s s' : Stream.t) :
  h !! a = Some s -> same_meta s s' -> same_records h (<[a := s']> h).
Proof.
  intros Ha Hm. unfold same_records.
  rewrite <- (list_insert_id h a s Ha) at 1.
  apply Forall2_insert; [apply same_records_refl | exact Hm].
Qed.

(** Appending a list of acceptable records: all are taken, in order. *)
Lemma append_all (l : list addr) (e : Dataset.Env) :
  Forall (acceptable gps2dist_azimuth (Dataset.heap e)) l ->
  exists e',
    Dataset.for_each (List.map VStream l) append e = (e', Ok tt)
    /\ Dataset.self e'
       = Dataset.mk (Dataset.id (Dataset.self e))
                    (Dataset.items (Dataset.self e) ++ l)
    /\ same_records (Dataset.heap e) (Dataset.heap e').
Proof.
  revert e. induction l as [|a l IH]; intros e Hall.
  - exists e. simpl. rewrite app_nil_r. destruct e as [h [i it] w].
    repeat split. apply same_records_refl.
  - inversion Hall as [|? ? (s & i & g & Ha & Hi & Hg) Hrest]; subst.
    pose proof (append_stores gps2dist_azimuth e a s i g Ha Hi Hg) as Hstep.
    set (e1 := Dataset.mkEnv _ _ _) in Hstep.
    assert (Hsame1 : same_records (Dataset.heap e) (Dataset.heap e1)).
    { apply (same_records_store _ _ _ _ Ha), same_meta_placed. }
    destruct (IH e1) as (e' & Hrun & Hself & Hsame).
    { eapply Forall_impl; [exact Hrest|].
      intros b. apply acceptable_same_records, Hsame1. }
    exists e'. cbn [List.map Dataset.for_each]. unfold Dataset.bind.
    rewrite Hstep.
    split; [exact Hrun|]. split.
    + rewrite Hself. simpl. rewrite <- app_assoc. reflexivity.
    + eapply same_records_trans; eassumption.
Qed.

Lemma init_all (l : list addr) (i : option string) (e : Dataset.Env) :
  Forall (acceptable gps2dist_azimuth (Dataset.heap e)) l ->
  exists e',
    __init__ (List.map VStream l) i [] e = (e', Ok (Dataset.mk i l))
    /\ Dataset.self e' = Dataset.self e
    /\ same_records (Dataset.heap e) (Dataset.heap e').
Proof.
  intros Hall.
  destruct (append_all l (Dataset.mkEnv (Dataset.heap e) (Dataset.mk i [])
                            (Dataset.warnings e)) Hall)
    as (e1 & Hrun & Hself & Hsame).
  unfold Dataset.__init__. unfold Dataset.bind at 1. rewrite Hrun.
  simpl. unfold Dataset.bind, Dataset.ret, Dataset.get_self. simpl.
  rewrite Hself. simpl. eexists. split; [reflexivity|].
  simpl. split; [reflexivity | exact Hsame].
Qed.

(** ** [Dataset.select] *)

Lemma py_filter_run (p : Stream.t -> result bool) (l : list addr)
    (e : Dataset.Env) :
  Dataset.py_filter p l e = (e, filter_result (Dataset.heap e) p l).
Proof.
  induction l as [|a l IH]; simpl; [reflexivity|].
  unfold Dataset.bind at 1. unfold Dataset.deref.
  destruct (Dataset.heap e !! a) as [s|]; [|reflexivity].
  unfold Dataset.bind at 1. unfold Dataset.lift.
  destruct (p s) as [keep|x]; simpl; [|reflexivity].
  unfold Dataset.bind. rewrite IH.
  destruct (filter_result (Dataset.heap e) p l); reflexivity.
Qed.

Lemma filter_result_ok (h : list Stream.t) (p : Stream.t -> result bool)
    (q : Stream.t -> bool) (l : list addr) :
  Forall (fun a => exists s, h !! a = Some s /\ p s = Ok (q s)) l ->
  filter_result h p l
  = Ok (List.filter (fun a => match h !! a with
                             | Some s => q s
                             | None => false
                             end) l).
Proof.
  induction 1 as [|a l (s & Ha & Hp) _ IH]; simpl; [reflexivity|].
  rewrite Ha, Hp, IH. simpl. destruct (q s); reflexivity.
Qed.

Lemma bool_decide_Some {X} `{EqDecision X} (x y : X) :
  bool_decide (Some x = Some y) = bool_decide (x = y).
Proof. apply bool_decide_ext. split; congruence. Qed.

Lemma criteria_decided (o : option Origin.t) (st : option Station.t)
    (s : Stream.t) :
  is_Some (Stream.station s) -> is_Some (Stream.origin s) ->
  match o, st with
  | Some o', Some st' => Dataset.station_and_origin_eq st' o' s
  | None, Some st' => Dataset.station_eq st' s
  | Some o', None => Dataset.origin_eq o' s
  | None, None => Ok true
  end = Ok (matches o st s).
Proof.
  intros [st0 Hst] [o0 Ho].
  unfold matches, meets, Dataset.station_and_origin_eq, Dataset.station_eq,
    Dataset.origin_eq, Dataset.get_station, Dataset.get_origin.
  rewrite Hst, Ho.
  destruct o as [o'|], st as [st'|]; simpl;
    rewrite ?bool_decide_Some, ?andb_true_l, ?andb_true_r; try reflexivity.
  destruct (bool_decide (st0 = st')); reflexivity.
Qed.


End InitFacts.



(** ** [Dataset.map] *)

Section MapFacts.

Variable gps2dist_azimuth : Z -> Z -> Z -> Z -> result (Z * Z * Z).
Variable function : Dataset.callable.
Variable sequences : list (list value).

Lemma getitems_row (_i : nat) :
  Forall (fun sequence => (_i < length sequence)%nat) sequences ->
  Dataset.getitems sequences _i = Ok (row sequences _i).
Proof.
  unfold row. induction 1 as [|sequence rest Hlen _ IH]; simpl; [reflexivity|].
  unfold Dataset.getitem.
  destruct (lookup_lt_is_Some_2 sequence _i Hlen) as [v Hv].
  rewrite Hv. simpl. rewrite IH. simpl.
  rewrite (nth_lookup_Some _ _ VNone _ Hv). reflexivity.
Qed.

Lemma map_loop_calls (l : list addr) (_i : nat) (e : Dataset.Env) :
  Forall (fun sequence => (_i + length l <= length sequence)%nat) sequences ->
  Dataset.map_loop function sequences _i l e
  = (Dataset.mkEnv (fst (calls function sequences _i l (Dataset.heap e)))
       (Dataset.self e) (Dataset.warnings e),
     snd (calls function sequences _i l (Dataset.heap e))).
Proof.
  revert _i e. induction l as [|a l IH]; intros _i e Hlen.
  - destruct e; reflexivity.
  - cbn [Dataset.map_loop calls]. unfold Dataset.bind at 1, Dataset.lift.
    rewrite getitems_row.
    2:{ eapply Forall_impl; [exact Hlen|]. simpl. intros; lia. }
    unfold Dataset.bind at 1, Dataset.call.
    destruct (function a (row sequences _i) (Dataset.heap e)) as [h1 [y|x]];
      [|reflexivity].
    unfold Dataset.bind at 1. rewrite IH.
    2:{ eapply Forall_impl; [exact Hlen|]. simpl. intros; lia. }
    simpl.
    destruct (calls function sequences (S _i) l h1) as [h2 [ys|x]];
      reflexivity.
Qed.

Lemma calls_length (l : list addr) (_i : nat) (h h' : list Stream.t)
    (ys : list value) :
  calls function sequences _i l h = (h', Ok ys) -> length ys = length l.
Proof.
  revert _i h h' ys. induction l as [|a l IH]; intros _i h h' ys; simpl.
  - intros [= _ <-]. reflexivity.
  - destruct (function a (row sequences _i) h) as [h1 [y|x]]; [|discriminate].
    destruct (calls function sequences (S _i) l h1) as [h2 [ys'|x]] eqn:Hrest;
      [|discriminate].
    intros [= _ <-]. simpl. f_equal. exact (IH _ _ _ _ Hrest).
Qed.

(** Result number [k] is what the function answered on record number [k]
    and row [_i + k]. *)
Lemma calls_lookup (l : list addr) (_i : nat) (h h' : list Stream.t)
    (ys : list value) (k : nat) (a : addr) :
  calls function sequences _i l h = (h', Ok ys) ->
  l !! k = Some a ->
  exists (before after : list Stream.t) (y : value),
    function a (row sequences (_i + k)) before = (after, Ok y)
    /\ ys !! k = Some y.
Proof.
  revert _i h h' ys k.
  induction l as [|a0 l IH]; intros _i h h' ys k; simpl.
  - intros _ Hk. discriminate.
  - destruct (function a0 (row sequences _i) h) as [h1 [y|x]] eqn:Hcall;
      [|discriminate].
    destruct (calls function sequences (S _i) l h1) as [h2 [ys'|x]] eqn:Hrest;
      [|discriminate].
    intros [= _ <-] Hk. destruct k as [|k]; simpl in Hk.
    + inversion Hk; subst. exists h, h1, y.
      rewrite Nat.add_0_r. split; [exact Hcall | reflexivity].
    + destruct (IH _ _ _ _ _ Hrest Hk) as (hb & ha & y' & Hy & Hlk).
      exists hb, ha, y'. rewrite Nat.add_succ_r. split; [exact Hy | exact Hlk].
Qed.

(** C4, as the code has it.  When every sequence is at least as long as
    the Dataset, and the function answers, record after record, streams
    that [append] accepts (an identifier can be formed, and the geodesy
    routine does not refuse the coordinates of a stream with both
    metadata), [map] answers a new Dataset with the source's
    identifier whose element number [k] is the object the function
    answered for record number [k] and the [k]-th item of each sequence;
    the source Dataset is as before, and [append] has left traces and
    metadata of every object alone. *)
Theorem map_applies_in_order (e : Dataset.Env) (h1 : list Stream.t)
    (bs : list addr) :
  Forall (fun sequence =>
            (length (Dataset.items (Dataset.self e)) <= length sequence)%nat)
         sequences ->
  calls function sequences 0 (Dataset.items (Dataset.self e)) (Dataset.heap e)
  = (h1, Ok (List.map VStream bs)) ->
  Forall (acceptable gps2dist_azimuth h1) bs ->
  exists (e' : Dataset.Env) (d : Dataset.t),
    Dataset.map gps2dist_azimuth function sequences e = (e', Ok d)
    /\ Dataset.id d = Dataset.id (Dataset.self e)
    /\ Dataset.items d = bs
    /\ length (Dataset.items d) = length (Dataset.items (Dataset.self e))
    /\ (forall (k : nat) (a : addr),
           Dataset.items (Dataset.self e) !! k = Some a ->
           exists (before after : list Stream.t) (b : addr),
             function a (row sequences k) before = (after, Ok (VStream b))
             /\ Dataset.items d !! k = Some b)
    /\ Dataset.self e' = Dataset.self e
    /\ same_records h1 (Dataset.heap e').
Proof.
  intros Hlen Hcalls Hacc.
  pose proof (map_loop_calls (Dataset.items (Dataset.self e)) 0 e Hlen) as Hloop.
  rewrite Hcalls in Hloop. simpl in Hloop.
  destruct (init_all gps2dist_azimuth bs (Dataset.id (Dataset.self e))
              (Dataset.mkEnv h1 (Dataset.self e) (Dataset.warnings e)) Hacc)
    as (e' & Hinit & Hself & Hsame).
  exists e', (Dataset.mk (Dataset.id (Dataset.self e)) bs).
  split.
  { unfold Dataset.map, Dataset.bind at 1, Dataset.get_self.
    unfold Dataset.bind. rewrite Hloop. exact Hinit. }
  split; [reflexivity|]. split; [reflexivity|].
  split.
  { simpl. rewrite <- (calls_length _ _ _ _ _ Hcalls), length_map.
    reflexivity. }
  split; [|split; assumption].
  intros k a Hk.
  destruct (calls_lookup _ _ _ _ _ _ _ Hcalls Hk) as (hb & ha & y & Hy & Hlk).
  rewrite list_lookup_fmap in Hlk.
  destruct (bs !! k) as [b|] eqn:Hb; simpl in Hlk; [|discriminate].
  inversion Hlk; subst. exists hb, ha, b. simpl. auto.
Qed.

End MapFacts.

Lemma map_applies_in_order_witness :
  exists (e' : Dataset.Env) (d : Dataset.t),
    Dataset.map checked_geodesy copy_record event_sequences event_env
    = (e', Ok d)
    /\ Dataset.id d = Some "20090407"%string
    /\ Dataset.items d = [3; 4; 5]%nat
    /\ length (Dataset.items d) = 3%nat.
Proof.
  destruct (map_applies_in_order checked_geodesy copy_record event_sequences
              event_env
              (fst (calls copy_record event_sequences 0 [0; 1; 2]%nat
                      (Dataset.heap event_env)))
              [3; 4; 5]%nat)
    as (e' & d & Hrun & Hid & Hitems & Hlen & _).
  - repeat constructor; simpl; lia.
  - reflexivity.
  - repeat constructor; unfold acceptable; simpl; eauto 10.
  - exists e', d. repeat split; assumption.
Defined.

(** C4 as stated fails: a function that answers an empty stream makes
    [map] raise ([IndexError]) instead of answering a Dataset, and so does
    a function that answers a stream whose coordinates the geodesy routine
    refuses ([ValueError]). *)
Lemma map_of_empty_streams_raises :
  snd (Dataset.map flat_geodesy fresh_empty [] near_far_env)
  = Raise IndexError
  /\ snd (Dataset.map checked_geodesy fresh_off [] near_far_env)
     = Raise ValueError.
Proof. split; reflexivity. Qed.

(** ** Array indexing *)

Section Indexing.

Context {A : Type} (d : A).

Lemma size_snoc (lead : list nat) (n : nat) :
  UQ.size (lead ++ [n]) = (UQ.size lead * n)%nat.
Proof.
  induction lead as [|m lead IH]; simpl; [lia|]. rewrite IH. lia.
Qed.

Lemma seq_offset (a len : nat) : seq a len = List.map (Nat.add a) (seq 0 len).
Proof.
  revert a. induction len as [|len IH]; intros a; simpl; [reflexivity|].
  rewrite Nat.add_0_r. f_equal. rewrite (IH (S a)), (IH 1%nat), map_map.
  apply map_ext. intros; lia.
Qed.

Lemma chunk_lanes (G : list A -> list A) (W P n i : nat) :
  W = (P * n)%nat -> (i < n)%nat ->
  (forall c, length c = W -> G c = lane d P n i c) ->
  forall (m : nat) (l : list A),
    length l = (m * W)%nat ->
    concat (List.map G (UQ.chunks W m l)) = lane d (m * P) n i l.
Proof.
  intros HW Hi HG. induction m as [|m IH]; intros l Hlen; [reflexivity|].
  cbn [UQ.chunks List.map concat].
  rewrite HG by (rewrite length_take; lia).
  rewrite IH by (rewrite length_drop; lia).
  unfold lane. replace (S m * P)%nat with (P + m * P)%nat by lia.
  rewrite seq_app, map_app. f_equal.
  - apply map_ext_in. intros p Hp. apply in_seq in Hp.
    rewrite !nth_lookup, lookup_take_lt by nia. reflexivity.
  - rewrite (seq_offset (0 + P)), map_map. apply map_ext. intros p.
    rewrite !nth_lookup, lookup_drop. f_equal. f_equal. lia.
Qed.

Lemma getitem_values_lane (lead : list nat) (n i : nat) :
  (i < n)%nat ->
  forall l : list A,
    length l = (UQ.size lead * n)%nat ->
    UQ.getitem_values (repeat UQ.Slice (length lead) ++ [UQ.Index i])
      (lead ++ [n]) l
    = lane d (UQ.size lead) n i l.
Proof.
  intros Hi. induction lead as [|m lead IH]; intros l Hlen.
  - simpl in Hlen |- *. unfold lane. simpl.
    destruct (lookup_lt_is_Some_2 l i) as [x Hx]; [lia|].
    rewrite Nat.mul_1_r, (drop_S _ _ _ Hx), (nth_lookup_Some _ _ _ _ Hx).
    reflexivity.
  - cbn [length repeat app UQ.getitem_values].
    apply chunk_lanes.
    + apply size_snoc.
    + exact Hi.
    + intros c Hc. apply IH. rewrite <- size_snoc. exact Hc.
    + rewrite size_snoc. simpl in Hlen. lia.
Qed.

End Indexing.

Lemma getitem_shape_lead (lead : list nat) (n i : nat) :
  (i < n)%nat ->
  UQ.getitem_shape (repeat UQ.Slice (length lead) ++ [UQ.Index i])
    (lead ++ [n])
  = Ok lead.
Proof.
  intros Hi. induction lead as [|m lead IH]; simpl.
  - rewrite (proj2 (Nat.ltb_lt _ _) Hi). reflexivity.
  - rewrite IH. reflexivity.
Qed.

Lemma getitem_shape_short (key : list UQ.indexer) (sh : list nat) :
  (length sh < length key)%nat ->
  UQ.getitem_shape key sh = Raise IndexError.
Proof.
  revert sh. induction key as [|k key IH]; intros sh Hlen; simpl in Hlen.
  - lia.
  - destruct sh as [|n sh]; [destruct k; reflexivity|].
    simpl in Hlen. destruct k as [|i]; simpl.
    + rewrite IH by lia. reflexivity.
    + destruct (i <? n)%nat; [apply IH; lia | reflexivity].
Qed.

(** The slice [ds[:,:,:,:,:,:,_i]] of a seven-axis array. *)
Lemma getitem_last_axis {A} (d : A) (lead : list nat) (n _i : nat)
    (l : list A) :
  length lead = 6%nat -> (_i < n)%nat ->
  length l = (UQ.size lead * n)%nat ->
  UQ.getitem (UQ.mkArray (lead ++ [n]) l) (UQ.last_axis_key _i)
  = Ok (UQ.mkArray lead (lane d (UQ.size lead) n _i l)).
Proof.
  intros H6 Hi Hlen. unfold UQ.getitem. simpl UQ.shape. simpl UQ.values.
  replace (UQ.last_axis_key _i)
    with (repeat UQ.Slice (length lead) ++ [UQ.Index _i])
    by (rewrite H6; reflexivity).
  rewrite getitem_shape_lead by exact Hi. simpl.
  rewrite (getitem_values_lane d) by assumption. reflexivity.
Qed.

Lemma ravel_snoc (lead index : list nat) (n i : nat) :
  length index = length lead ->
  ravel (lead ++ [n]) (index ++ [i]) = (ravel lead index * n + i)%nat.
Proof.
  revert index. induction lead as [|m lead IH]; intros [|j index] Hlen;
    simpl in Hlen; try discriminate; simpl.
  - lia.
  - rewrite IH by lia. rewrite size_snoc. lia.
Qed.

Lemma ravel_bound (lead index : list nat) :
  Forall2 lt index lead -> (ravel lead index < UQ.size lead)%nat.
Proof.
  intros H. induction H as [|j m index lead Hj _ IH]; simpl; [lia|]. nia.
Qed.

(** The lane at position [i] of the last axis holds, at the row-major
    position of a leading multi-index, the entry of the array at that
    multi-index extended by [i]. *)
Lemma lane_entry {A} (d : A) (lead index : list nat) (n i : nat)
    (l : list A) :
  Forall2 lt index lead -> (i < n)%nat ->
  length l = (UQ.size lead * n)%nat ->
  lane d (UQ.size lead) n i l !! ravel lead index
  = entry (UQ.mkArray (lead ++ [n]) l) (index ++ [i]).
Proof.
  intros Hidx Hi Hlen. pose proof (ravel_bound _ _ Hidx) as Hb.
  unfold entry, lane. simpl.
  rewrite ravel_snoc by exact (Forall2_length _ _ _ Hidx).
  rewrite list_lookup_fmap, lookup_seq_lt by exact Hb. simpl.
  destruct (nth_lookup_or_length l (ravel lead index * n + i)%nat d)
    as [Hl|Hl]; [congruence | nia].
Qed.

(** ** Best entry and first position *)

Section ArgBest.

Context {T : Type} (d : T).
Variable better : T -> T -> bool.
Variable le : T -> T -> Prop.
Hypothesis le_refl : forall x, le x x.
Hypothesis le_trans : forall x y z, le x y -> le y z -> le x z.
Hypothesis le_total : forall x y, le x y \/ le y x.
Hypothesis better_strict : forall x y, better x y = true -> ~ le y x.
Hypothesis not_better : forall x y, better x y = false -> le y x.

Lemma argbest_from_spec (l : list T) :
  forall (b : T) (bi i : nat) (m : T) (k : nat),
    UQ.argbest_from better b bi i l = (m, k) ->
    (bi < i)%nat ->
    le m b
    /\ (forall j x, l !! j = Some x -> le m x)
    /\ ((k = bi /\ m = b)
        \/ ((i <= k)%nat /\ l !! (k - i)%nat = Some m /\ ~ le b m))
    /\ (forall j x, l !! j = Some x -> (i + j < k)%nat -> ~ le x m).
Proof.
  induction l as [|x l IH]; intros b bi i m k Hrun Hbi; simpl in Hrun.
  - inversion Hrun; subst. repeat split; auto.
    + intros j x Hx. discriminate.
    + intros j x Hx. discriminate.
  - destruct (better x b) eqn:Hb.
    + apply better_strict in Hb.
      destruct (IH x i (S i) m k Hrun) as (Hmx & Hall & Hpos & Hfirst); [lia|].
      assert (Hxb : le x b).
      { destruct (le_total x b); [assumption | contradiction]. }
      repeat split.
      * eauto.
      * intros [|j] y Hy; simpl in Hy; [inversion Hy; subst; exact Hmx|eauto].
      * right. destruct Hpos as [[-> ->]|(Hk & Hlk & Hno)].
        -- rewrite Nat.sub_diag. auto.
        -- split; [lia|]. split.
           ++ replace (k - i)%nat with (S (k - S i)) by lia. exact Hlk.
           ++ intros Hbm. apply Hb. eauto.
      * intros [|j] y Hy Hlt; simpl in Hy.
        -- inversion Hy; subst.
           destruct Hpos as [[-> _]|(_ & _ & Hno)]; [lia | exact Hno].
        -- apply (Hfirst j y Hy). lia.
    + apply not_better in Hb.
      destruct (IH b bi (S i) m k Hrun) as (Hmb & Hall & Hpos & Hfirst); [lia|].
      repeat split.
      * exact Hmb.
      * intros [|j] y Hy; simpl in Hy; [inversion Hy; subst; eauto|eauto].
      * destruct Hpos as [[-> ->]|(Hk & Hlk & Hno)]; [left; auto|right].
        split; [lia|]. split; [|exact Hno].
        replace (k - i)%nat with (S (k - S i)) by lia. exact Hlk.
      * intros [|j] y Hy Hlt; simpl in Hy.
        -- inversion Hy; subst.
           destruct Hpos as [[-> _]|(_ & _ & Hno)]; [lia|].
           intros Hym. apply Hno. eauto.
        -- apply (Hfirst j y Hy). lia.
Qed.

Lemma best_spec (l : list T) :
  l <> [] ->
  l !! snd (best d better l) = Some (fst (best d better l))
  /\ (forall j x, l !! j = Some x -> le (fst (best d better l)) x)
  /\ (forall j x, l !! j = Some x -> (j < snd (best d better l))%nat ->
                  ~ le x (fst (best d better l))).
Proof.
  destruct l as [|x l]; [congruence|]. intros _. unfold best.
  destruct (UQ.argbest_from better x 0 1 l) as [m k] eqn:Hrun. simpl.
  destruct (argbest_from_spec l x 0%nat 1%nat m k Hrun)
    as (Hmx & Hall & Hpos & Hfirst); [lia|].
  repeat split.
  - destruct Hpos as [[-> ->]|(Hk & Hlk & _)]; [reflexivity|].
    replace k with (S (k - 1)) by lia. exact Hlk.
  - intros [|j] y Hy; simpl in Hy; [inversion Hy; subst; exact Hmx|eauto].
  - intros [|j] y Hy Hlt; simpl in Hy.
    + inversion Hy; subst.
      destruct Hpos as [[-> _]|(_ & _ & Hno)]; [lia | exact Hno].
    + apply (Hfirst j y Hy). lia.
Qed.

End ArgBest.

Lemma has_number_nonempty (l : list UQ.score) : has_number l -> l <> [].
Proof. intros [x Hx] ->. exact (not_elem_of_nil _ Hx). Qed.

Lemma numbers_have_number (l : list Z) :
  l <> [] -> has_number (List.map UQ.Num l).
Proof.
  destruct l as [|x l]; [congruence|]. intros _. exists x. simpl. left.
Qed.

Lemma best_is_argmin (l : list UQ.score) :
  has_number l ->
  exists m : Z,
    fst (best UQ.NaN UQ.lt_skipna l) = UQ.Num m
    /\ is_argmin l m (snd (best UQ.NaN UQ.lt_skipna l)).
Proof.
  intros Hnum. pose proof (has_number_nonempty l Hnum) as Hl.
  destruct (best_spec UQ.NaN UQ.lt_skipna min_le) with (l := l)
    as (Hat & Hall & Hfirst).
  - intros [|a]; simpl; [exact I | lia].
  - intros [|a] [|b] [|c]; simpl; try tauto; lia.
  - intros [|a] [|b]; simpl; try tauto; lia.
  - intros [|a] [|b]; simpl; try discriminate; try tauto.
    intros H. apply Z.ltb_lt in H. lia.
  - intros [|a] [|b]; simpl; try discriminate; try tauto.
    intros H. apply Z.ltb_ge in H. exact H.
  - exact Hl.
  - destruct Hnum as [x Hx]. apply list_elem_of_lookup in Hx as [j Hj].
    pose proof (Hall j _ Hj) as Hle.
    destruct (fst (best UQ.NaN UQ.lt_skipna l)) as [|m]; [contradiction|].
    exists m. split; [reflexivity|]. split; [exact Hat|]. split.
    + intros j' y Hy. exact (Hall j' _ Hy).
    + intros j' y Hy Hlt. specialize (Hfirst j' _ Hy Hlt). simpl in Hfirst.
      lia.
Qed.

Lemma best_is_argmax (l : list UQ.score) :
  has_number l ->
  exists m : Z,
    fst (best UQ.NaN UQ.gt_skipna l) = UQ.Num m
    /\ is_argmax l m (snd (best UQ.NaN UQ.gt_skipna l)).
Proof.
  intros Hnum. pose proof (has_number_nonempty l Hnum) as Hl.
  destruct (best_spec UQ.NaN UQ.gt_skipna max_le) with (l := l)
    as (Hat & Hall & Hfirst).
  - intros [|a]; simpl; [exact I | lia].
  - intros [|a] [|b] [|c]; simpl; try tauto; lia.
  - intros [|a] [|b]; simpl; try tauto; lia.
  - intros [|a] [|b]; simpl; try discriminate; try tauto.
    intros H. rewrite Z.gtb_ltb in H. apply Z.ltb_lt in H. lia.
  - intros [|a] [|b]; simpl; try discriminate; try tauto.
    intros H. rewrite Z.gtb_ltb in H. apply Z.ltb_ge in H. exact H.
  - exact Hl.
  - destruct Hnum as [x Hx]. apply list_elem_of_lookup in Hx as [j Hj].
    pose proof (Hall j _ Hj) as Hle.
    destruct (fst (best UQ.NaN UQ.gt_skipna l)) as [|m]; [contradiction|].
    exists m. split; [reflexivity|]. split; [exact Hat|]. split.
    + intros j' y Hy. exact (Hall j' _ Hy).
    + intros j' y Hy Hlt. specialize (Hfirst j' _ Hy Hlt). simpl in Hfirst.
      lia.
Qed.

Lemma argbest_best {T} (d : T) (better : T -> T -> bool) (l : list T) :
  l <> [] -> UQ.argbest better l = Ok (best d better l).
Proof. destruct l; [congruence | reflexivity]. Qed.

(** On a slice that holds a number, [min] and [argmin] answer the best
    entry and its position. *)
Lemma min_run (sh : list nat) (l : list UQ.score) :
  has_number l ->
  UQ.min (UQ.mkArray sh l) = Ok (fst (best UQ.NaN UQ.lt_skipna l))
  /\ UQ.argmin (UQ.mkArray sh l) = Ok (snd (best UQ.NaN UQ.lt_skipna l)).
Proof.
  intros Hnum. unfold UQ.min, UQ.argmin. cbn [UQ.values].
  rewrite (argbest_best UQ.NaN) by (apply has_number_nonempty, Hnum).
  cbn [rbind]. split; [reflexivity|]. unfold UQ.index_of_best.
  destruct (best_is_argmin l Hnum) as (m & -> & _). reflexivity.
Qed.

Lemma max_run (sh : list nat) (l : list UQ.score) :
  has_number l ->
  UQ.max (UQ.mkArray sh l) = Ok (fst (best UQ.NaN UQ.gt_skipna l))
  /\ UQ.argmax (UQ.mkArray sh l) = Ok (snd (best UQ.NaN UQ.gt_skipna l)).
Proof.
  intros Hnum. unfold UQ.max, UQ.argmax. cbn [UQ.values].
  rewrite (argbest_best UQ.NaN) by (apply has_number_nonempty, Hnum).
  cbn [rbind]. split; [reflexivity|]. unfold UQ.index_of_best.
  destruct (best_is_argmax l Hnum) as (m & -> & _). reflexivity.
Qed.

Lemma lane_length {A} (d : A) (rows n i : nat) (l : list A) :
  length (lane d rows n i l) = rows.
Proof. unfold lane. rewrite length_map, length_seq. reflexivity. Qed.

(** ** Indexing and mapping commute *)

Section IndexingMap.

Context {A B : Type} (f : A -> B).

Lemma chunks_map (W n : nat) (l : list A) :
  UQ.chunks W n (List.map f l) = List.map (List.map f) (UQ.chunks W n l).
Proof.
  revert l. induction n as [|n IH]; intros l; simpl; [reflexivity|].
  rewrite firstn_map, skipn_map, IH. reflexivity.
Qed.

Lemma getitem_values_map (key : list UQ.indexer) :
  forall (sh : list nat) (l : list A),
    UQ.getitem_values key sh (List.map f l)
    = List.map f (UQ.getitem_values key sh l).
Proof.
  induction key as [|k key IH]; intros sh l; [reflexivity|].
  destruct sh as [|n sh]; [destruct k; reflexivity|].
  destruct k as [|i]; cbn [UQ.getitem_values].
  - rewrite chunks_map, concat_map, !map_map. f_equal.
    apply map_ext. intros c. apply IH.
  - rewrite skipn_map, firstn_map, IH. reflexivity.
Qed.

End IndexingMap.

(** ** Slices are well-formed and made of entries of the source *)

Section Slices.

Context {A : Type}.

Lemma chunks_lengths (W n : nat) (l : list A) :
  length l = (n * W)%nat ->
  Forall (fun c => length c = W) (UQ.chunks W n l).
Proof.
  revert l. induction n as [|n IH]; intros l Hlen; simpl; constructor.
  - rewrite length_take. lia.
  - apply IH. rewrite length_drop. lia.
Qed.

Lemma chunks_count (W n : nat) (l : list A) : length (UQ.chunks W n l) = n.
Proof. revert l. induction n as [|n IH]; intros l; simpl; auto. Qed.

Lemma chunks_within (W n : nat) (l c : list A) (x : A) :
  c ∈ UQ.chunks W n l -> x ∈ c -> x ∈ l.
Proof.
  revert l. induction n as [|n IH]; intros l Hc Hx; simpl in Hc.
  - exfalso. exact (not_elem_of_nil _ Hc).
  - apply elem_of_cons in Hc as [->|Hc].
    + exact (subseteq_take W l x Hx).
    + exact (subseteq_drop W l x (IH _ Hc Hx)).
Qed.

Lemma concat_map_length (G : list A -> list A) (w : nat)
    (cs : list (list A)) :
  Forall (fun c => length (G c) = w) cs ->
  length (concat (List.map G cs)) = (length cs * w)%nat.
Proof.
  induction 1 as [|c cs Hc _ IH]; simpl; [reflexivity|].
  rewrite length_app, Hc, IH. reflexivity.
Qed.

Lemma getitem_values_length (key : list UQ.indexer) :
  forall (sh sh' : list nat) (l : list A),
    UQ.getitem_shape key sh = Ok sh' ->
    length l = UQ.size sh ->
    length (UQ.getitem_values key sh l) = UQ.size sh'.
Proof.
  induction key as [|k key IH]; intros sh sh' l Hsh Hlen.
  - simpl in Hsh. inversion Hsh; subst. exact Hlen.
  - destruct sh as [|n sh]; [destruct k; discriminate|].
    simpl in Hlen. destruct k as [|i]; cbn [UQ.getitem_shape] in Hsh;
      cbn [UQ.getitem_values].
    + destruct (UQ.getitem_shape key sh) as [sh1|] eqn:Hsh1; [|discriminate].
      inversion Hsh; subst. simpl.
      rewrite (concat_map_length _ (UQ.size sh1)), chunks_count;
        [reflexivity|].
      eapply Forall_impl; [apply chunks_lengths; exact Hlen|].
      intros c Hc. simpl in Hc. apply (IH sh sh1); assumption.
    + destruct (Nat.ltb_spec i n) as [Hi|]; [|discriminate].
      apply (IH sh sh'); [exact Hsh|].
      rewrite length_take, length_drop. nia.
Qed.

Lemma getitem_values_within (key : list UQ.indexer) :
  forall (sh : list nat) (l : list A) (x : A),
    x ∈ UQ.getitem_values key sh l -> x ∈ l.
Proof.
  induction key as [|k key IH]; intros sh l x Hx; [exact Hx|].
  destruct sh as [|n sh]; [destruct k; exact Hx|].
  destruct k as [|i]; cbn [UQ.getitem_values] in Hx.
  - apply list_elem_of_In, in_concat in Hx as (c' & Hc' & Hx).
    apply in_map_iff in Hc' as (c & <- & Hc).
    apply list_elem_of_In in Hx. apply IH in Hx.
    eapply chunks_within; [apply list_elem_of_In; exact Hc | exact Hx].
  - apply IH in Hx.
    exact (subseteq_drop _ l x (subseteq_take _ _ x Hx)).
Qed.

(** Indexing a well-formed array by slices and integers, when it
    succeeds, gives a well-formed array (as many entries as its shape
    asks), and every entry of the result is an entry of the source. *)
Lemma getitem_gives_well_formed_slice (ds ds' : UQ.DataArray A)
    (key : list UQ.indexer) :
  UQ.well_formed ds ->
  UQ.getitem ds key = Ok ds' ->
  UQ.well_formed ds'
  /\ forall x, x ∈ UQ.values ds' -> x ∈ UQ.values ds.
Proof.
  unfold UQ.well_formed, UQ.getitem. intros Hwf Hget.
  destruct (UQ.getitem_shape key (UQ.shape ds)) as [sh|] eqn:Hsh;
    [|discriminate].
  cbn [rbind] in Hget. inversion Hget; subst. cbn [UQ.shape UQ.values].
  split.
  - apply getitem_values_length; assumption.
  - intros x. apply getitem_values_within.
Qed.

End Slices.

Lemma getitem_gives_well_formed_slice_witness :
  UQ.well_formed (numeric [1; 1; 3; 1; 1; 1]%nat [9; 7; 7])
  /\ forall x, x ∈ List.map UQ.Num [9; 7; 7] -> x ∈ UQ.values surface7.
Proof.
  apply (getitem_gives_well_formed_slice surface7
           (numeric [1; 1; 3; 1; 1; 1]%nat [9; 7; 7])
           (UQ.last_axis_key 1)); reflexivity.
Defined.

(** ** The projections *)

Section SevenAxes.

Variable lead : list nat.
Variable n : nat.
Variable scores : list UQ.score.
Hypothesis six_leading : length lead = 6%nat.
Hypothesis row_major : length scores = (UQ.size lead * n)%nat.
Hypothesis numbers :
  forall i, (i < n)%nat -> has_number (lane UQ.NaN (UQ.size lead) n i scores).

Local Abbreviation ds := (UQ.mkArray (lead ++ [n]) scores).
Local Abbreviation slice := (fun i => lane UQ.NaN (UQ.size lead) n i scores).

Lemma min_loop_run (range : list nat) :
  Forall (fun i => (i < n)%nat) range ->
  UQ.min_loop ds range
  = Ok (List.map (fun i => fst (best UQ.NaN UQ.lt_skipna (slice i))) range,
        List.map (fun i => snd (best UQ.NaN UQ.lt_skipna (slice i))) range).
Proof.
  induction 1 as [|i range Hi _ IH]; [reflexivity|].
  cbn [UQ.min_loop].
  rewrite (getitem_last_axis UQ.NaN) by assumption. cbn [rbind].
  destruct (min_run lead (slice i) (numbers i Hi)) as [-> ->].
  cbn [rbind]. rewrite IH. reflexivity.
Qed.

Lemma max_loop_run (range : list nat) :
  Forall (fun i => (i < n)%nat) range ->
  UQ.max_loop ds range
  = Ok (List.map (fun i => fst (best UQ.NaN UQ.gt_skipna (slice i))) range,
        List.map (fun i => snd (best UQ.NaN UQ.gt_skipna (slice i))) range).
Proof.
  induction 1 as [|i range Hi _ IH]; [reflexivity|].
  cbn [UQ.max_loop].
  rewrite (getitem_last_axis UQ.NaN) by assumption. cbn [rbind].
  destruct (max_run lead (slice i) (numbers i Hi)) as [-> ->].
  cbn [rbind]. rewrite IH. reflexivity.
Qed.

Lemma range_below : Forall (fun i => (i < n)%nat) (seq 0 n).
Proof. apply Forall_forall. intros i Hi. apply elem_of_seq in Hi. lia. Qed.

Lemma min_dataarray_run :
  UQ._min_dataarray ds
  = Ok (List.map (fun i => fst (best UQ.NaN UQ.lt_skipna (slice i))) (seq 0 n),
        List.map (fun i => snd (best UQ.NaN UQ.lt_skipna (slice i))) (seq 0 n)).
Proof.
  unfold UQ._min_dataarray, UQ.last_axis. simpl UQ.shape.
  rewrite last_snoc. cbn [rbind]. apply min_loop_run, range_below.
Qed.

Lemma max_dataarray_run :
  UQ._max_dataarray ds
  = Ok (List.map (fun i => fst (best UQ.NaN UQ.gt_skipna (slice i))) (seq 0 n),
        List.map (fun i => snd (best UQ.NaN UQ.gt_skipna (slice i))) (seq 0 n)).
Proof.
  unfold UQ._max_dataarray, UQ.last_axis. simpl UQ.shape.
  rewrite last_snoc. cbn [rbind]. apply max_loop_run, range_below.
Qed.

End SevenAxes.

(** ** Surfaces with more than seven axes *)

Lemma size_app (sh1 sh2 : list nat) :
  UQ.size (sh1 ++ sh2) = (UQ.size sh1 * UQ.size sh2)%nat.
Proof.
  induction sh1 as [|m sh1 IH]; simpl; [lia|]. rewrite IH. lia.
Qed.

Lemma getitem_shape_seventh (lead tail : list nat) (n i : nat) :
  UQ.getitem_shape (repeat UQ.Slice (length lead) ++ [UQ.Index i])
    (lead ++ n :: tail)
  = if (i <? n)%nat then Ok (lead ++ tail) else Raise IndexError.
Proof.
  induction lead as [|m lead IH]; simpl.
  - destruct (i <? n)%nat; reflexivity.
  - rewrite IH. destruct (i <? n)%nat; reflexivity.
Qed.

Lemma min_run_numeric (sh : list nat) (l : list Z) :
  l <> [] ->
  exists (v : UQ.score) (k : nat),
    UQ.min (numeric sh l) = Ok v /\ UQ.argmin (numeric sh l) = Ok k.
Proof.
  intros Hl. eexists _, _.
  exact (min_run sh _ (numbers_have_number l Hl)).
Qed.

Lemma max_run_numeric (sh : list nat) (l : list Z) :
  l <> [] ->
  exists (v : UQ.score) (k : nat),
    UQ.max (numeric sh l) = Ok v /\ UQ.argmax (numeric sh l) = Ok k.
Proof.
  intros Hl. eexists _, _.
  exact (max_run sh _ (numbers_have_number l Hl)).
Qed.

Section ManyAxes.

Variable lead tail : list nat.
Variable n : nat.
Variable scores : list Z.
Hypothesis six_leading : length lead = 6%nat.
Hypothesis leading_nonempty : UQ.size lead <> 0%nat.
Hypothesis trailing_nonempty : UQ.size tail <> 0%nat.
Hypothesis row_major : length scores = UQ.size (lead ++ n :: tail).

Local Abbreviation ds := (numeric (lead ++ n :: tail) scores).

Lemma seventh_axis_slice (i : nat) :
  UQ.getitem ds (UQ.last_axis_key i)
  = if (i <? n)%nat
    then Ok (numeric (lead ++ tail)
               (UQ.getitem_values (UQ.last_axis_key i)
                  (lead ++ n :: tail) scores))
    else Raise IndexError.
Proof.
  unfold UQ.getitem, numeric. cbn [UQ.shape UQ.values].
  rewrite getitem_values_map.
  replace (UQ.last_axis_key i)
    with (repeat UQ.Slice (length lead) ++ [UQ.Index i])
    by (rewrite six_leading; reflexivity).
  rewrite getitem_shape_seventh. destruct (i <? n)%nat; reflexivity.
Qed.

Lemma seventh_axis_slice_nonempty (i : nat) :
  (i < n)%nat ->
  UQ.getitem_values (UQ.last_axis_key i) (lead ++ n :: tail) scores <> [].
Proof.
  intros Hi Hnil.
  assert (Hlen : length (UQ.getitem_values (UQ.last_axis_key i)
                           (lead ++ n :: tail) scores)
                 = UQ.size (lead ++ tail)).
  { apply getitem_values_length; [|exact row_major].
    replace (UQ.last_axis_key i)
      with (repeat UQ.Slice (length lead) ++ [UQ.Index i])
      by (rewrite six_leading; reflexivity).
    rewrite getitem_shape_seventh, (proj2 (Nat.ltb_lt _ _) Hi). reflexivity. }
  rewrite Hnil, size_app in Hlen. simpl in Hlen. nia.
Qed.

Lemma min_loop_many_axes (len : nat) :
  forall a : nat,
    ((a + len <= n)%nat -> exists r, UQ.min_loop ds (seq a len) = Ok r)
    /\ ((a <= n < a + len)%nat ->
        UQ.min_loop ds (seq a len) = Raise IndexError).
Proof.
  induction len as [|len IH]; intros a.
  - split; [intros _; eexists; reflexivity | lia].
  - cbn [seq UQ.min_loop]. rewrite seventh_axis_slice.
    destruct (Nat.ltb_spec a n) as [Ha|Ha].
    + cbn [rbind].
      destruct (min_run_numeric (lead ++ tail) _
                  (seventh_axis_slice_nonempty a Ha))
        as (v & j & -> & ->).
      cbn [rbind]. destruct (IH (S a)) as [Hok Hno]. split.
      * intros Hlen. destruct Hok as [r Hr]; [lia|]. rewrite Hr.
        eexists. reflexivity.
      * intros Hlen. rewrite Hno by lia. reflexivity.
    + split; [lia | reflexivity].
Qed.

Lemma max_loop_many_axes (len : nat) :
  forall a : nat,
    ((a + len <= n)%nat -> exists r, UQ.max_loop ds (seq a len) = Ok r)
    /\ ((a <= n < a + len)%nat ->
        UQ.max_loop ds (seq a len) = Raise IndexError).
Proof.
  induction len as [|len IH]; intros a.
  - split; [intros _; eexists; reflexivity | lia].
  - cbn [seq UQ.max_loop]. rewrite seventh_axis_slice.
    destruct (Nat.ltb_spec a n) as [Ha|Ha].
    + cbn [rbind].
      destruct (max_run_numeric (lead ++ tail) _
                  (seventh_axis_slice_nonempty a Ha))
        as (v & j & -> & ->).
      cbn [rbind]. destruct (IH (S a)) as [Hok Hno]. split.
      * intros Hlen. destruct Hok as [r Hr]; [lia|]. rewrite Hr.
        eexists. reflexivity.
      * intros Hlen. rewrite Hno by lia. reflexivity.
    + split; [lia | reflexivity].
Qed.

End ManyAxes.


(** With more than seven axes, none of them empty, and numbers for
    scores, the reductions index the seventh axis while counting along the
    last one. *)
Lemma many_axes_run (lead tail : list nat) (n k : nat) (scores : list Z) :
  length lead = 6%nat ->
  last tail = Some k ->
  UQ.size lead <> 0%nat -> UQ.size tail <> 0%nat ->
  length scores = UQ.size (lead ++ n :: tail) ->
  ((k <= n)%nat ->
   exists r r',
     UQ._min_dataarray (numeric (lead ++ n :: tail) scores) = Ok r
     /\ UQ._max_dataarray (numeric (lead ++ n :: tail) scores) = Ok r')
  /\ ((n < k)%nat ->
      UQ._min_dataarray (numeric (lead ++ n :: tail) scores)
      = Raise IndexError
      /\ UQ._max_dataarray (numeric (lead ++ n :: tail) scores)
         = Raise IndexError).
Proof.
  intros H6 Hlast Hlead Htail Hlen.
  assert (Hk : last (lead ++ n :: tail) = Some k).
  { destruct tail as [|t tl]; [discriminate|].
    rewrite last_app. change (n :: t :: tl) with ([n] ++ t :: tl).
    rewrite last_app, Hlast. reflexivity. }
  unfold UQ._min_dataarray, UQ._max_dataarray, UQ.last_axis.
  cbn [UQ.shape numeric]. rewrite Hk. cbn [rbind].
  destruct (min_loop_many_axes lead tail n scores H6 Hlead Htail Hlen k 0%nat)
    as [Hmin Hmin'].
  destruct (max_loop_many_axes lead tail n scores H6 Hlead Htail Hlen k 0%nat)
    as [Hmax Hmax'].
  split.
  - intros Hle. destruct Hmin as [r Hr]; [lia|].
    destruct Hmax as [r' Hr']; [lia|]. exists r, r'. auto.
  - intros Hlt. split; [apply Hmin' | apply Hmax']; lia.
Qed.

(** C7, as the code has it.  On a seven-axis surface of numbers and NaN
    in which every slice along the last axis holds at least one number,
    both projections succeed and answer one value and one index for each
    position [i] of the last axis, in order.  The value of the min
    projection is the least number of the slice at [i] (no number of the
    surface with last index [i] is below it; NaN entries are skipped) and
    the index is the first row-major position of the slice that holds it;
    the max projection answers the greatest number and its first
    position. *)
Theorem projections_reduce_each_slice (lead : list nat) (n : nat)
    (scores : list UQ.score) :
  length lead = 6%nat ->
  length scores = (UQ.size lead * n)%nat ->
  (forall i : nat,
      (i < n)%nat -> has_number (lane UQ.NaN (UQ.size lead) n i scores)) ->
  exists (mins : list UQ.score) (argmins : list nat)
         (maxs : list UQ.score) (argmaxs : list nat),
    UQ._min_dataarray (UQ.mkArray (lead ++ [n]) scores) = Ok (mins, argmins)
    /\ UQ._max_dataarray (UQ.mkArray (lead ++ [n]) scores) = Ok (maxs, argmaxs)
    /\ length mins = n /\ length argmins = n
    /\ length maxs = n /\ length argmaxs = n
    /\ forall i : nat,
         (i < n)%nat ->
         exists (m : Z) (k : nat) (M : Z) (K : nat),
           mins !! i = Some (UQ.Num m) /\ argmins !! i = Some k
           /\ maxs !! i = Some (UQ.Num M) /\ argmaxs !! i = Some K
           /\ is_argmin (lane UQ.NaN (UQ.size lead) n i scores) m k
           /\ is_argmax (lane UQ.NaN (UQ.size lead) n i scores) M K
           /\ forall index : list nat,
                Forall2 lt index lead ->
                exists v : UQ.score,
                  entry (UQ.mkArray (lead ++ [n]) scores) (index ++ [i])
                  = Some v
                  /\ forall x : Z, v = UQ.Num x -> m <= x <= M.
Proof.
  intros H6 Hlen Hnum.
  eexists _, _, _, _.
  split; [apply min_dataarray_run; assumption|].
  split; [apply max_dataarray_run; assumption|].
  rewrite !length_map, !length_seq. repeat (split; [reflexivity|]).
  intros i Hi. set (l := lane UQ.NaN (UQ.size lead) n i scores).
  destruct (best_is_argmin l (Hnum i Hi)) as (m & Hm & Hmin).
  destruct (best_is_argmax l (Hnum i Hi)) as (M & HM & Hmax).
  exists m, (snd (best UQ.NaN UQ.lt_skipna l)),
         M, (snd (best UQ.NaN UQ.gt_skipna l)).
  rewrite !list_lookup_fmap, !lookup_seq_lt by exact Hi. simpl.
  fold l. rewrite Hm, HM.
  repeat (split; [reflexivity|]).
  split; [exact Hmin|]. split; [exact Hmax|].
  intros index Hidx.
  pose proof (lane_entry UQ.NaN lead index n i scores Hidx Hi Hlen) as Hentry.
  fold l in Hentry. rewrite <- Hentry.
  destruct (lookup_lt_is_Some_2 l (ravel lead index)) as [v Hv].
  { unfold l. rewrite lane_length. apply ravel_bound, Hidx. }
  exists v. split; [exact Hv|]. intros x ->.
  destruct Hmin as (_ & Hlow & _), Hmax as (_ & Hhigh & _).
  split; [exact (Hlow _ _ Hv) | exact (Hhigh _ _ Hv)].
Qed.

Lemma projections_reduce_each_slice_witness :
  exists (mins : list UQ.score) (argmins : list nat)
         (maxs : list UQ.score) (argmaxs : list nat),
    UQ._min_dataarray patchy7 = Ok (mins, argmins)
    /\ UQ._max_dataarray patchy7 = Ok (maxs, argmaxs)
    /\ length mins = 2%nat /\ length argmins = 2%nat
    /\ length maxs = 2%nat /\ length argmaxs = 2%nat.
Proof.
  destruct (projections_reduce_each_slice [1; 1; 3; 1; 1; 1]%nat 2%nat
              [UQ.Num 5; UQ.Num 9; UQ.NaN; UQ.Num 7; UQ.Num 4; UQ.NaN])
    as (mins & argmins & maxs & argmaxs & Hmin & Hmax & H1 & H2 & H3 & H4 & _).
  - reflexivity.
  - reflexivity.
  - intros i Hi. destruct i as [|[|i]]; [exists 5 | exists 9 | lia];
      simpl; left.
  - exists mins, argmins, maxs, argmaxs. repeat split; assumption.
Defined.

Example surface7_projections :
  UQ._min_dataarray surface7
  = Ok ([UQ.Num 2; UQ.Num 7], [1; 1]%nat)
  /\ UQ._max_dataarray surface7
     = Ok ([UQ.Num 5; UQ.Num 9], [0; 0]%nat).
Proof. split; reflexivity. Qed.

Example patchy7_projections :
  UQ._min_dataarray patchy7
  = Ok ([UQ.Num 4; UQ.Num 7], [2; 1]%nat)
  /\ UQ._max_dataarray patchy7
     = Ok ([UQ.Num 5; UQ.Num 9], [0; 0]%nat).
Proof. split; reflexivity. Qed.

(** C7 as stated fails: a seven-axis surface with an empty leading axis
    has empty slices, and one with a slice of NaN only has nothing to
    point at; on both, the projections raise [ValueError]. *)
Lemma hollow_surface_has_no_profile :
  UQ._min_dataarray hollow7 = Raise ValueError
  /\ UQ._max_dataarray hollow7 = Raise ValueError
  /\ UQ._min_dataarray blank7 = Raise ValueError
  /\ UQ._max_dataarray blank7 = Raise ValueError.
Proof. repeat split; reflexivity. Qed.

(** C10, as the code has it.  With fewer than seven axes the key has too
    many indices: unless the last axis is empty (so that no slice is ever
    taken) both reductions raise [IndexError].  With exactly seven axes
    both reductions succeed when every slice holds a number.  More than
    seven axes are not refused as such: with no axis empty and numbers for
    scores, both reductions succeed when the last axis is no longer than
    the seventh, and raise [IndexError] when it is longer. *)
Theorem reductions_expect_seven_axes :
  (forall (sh : list nat) (scores : list UQ.score),
      (length sh < 7)%nat -> last sh <> Some 0%nat ->
      UQ._min_dataarray (UQ.mkArray sh scores) = Raise IndexError
      /\ UQ._max_dataarray (UQ.mkArray sh scores) = Raise IndexError)
  /\
  (forall (lead : list nat) (n : nat) (scores : list UQ.score),
      length lead = 6%nat ->
      length scores = (UQ.size lead * n)%nat ->
      (forall i : nat,
          (i < n)%nat ->
          has_number (lane UQ.NaN (UQ.size lead) n i scores)) ->
      exists r r',
        UQ._min_dataarray (UQ.mkArray (lead ++ [n]) scores) = Ok r
        /\ UQ._max_dataarray (UQ.mkArray (lead ++ [n]) scores) = Ok r')
  /\
  (forall (lead tail : list nat) (n k : nat) (scores : list Z),
      length lead = 6%nat ->
      last tail = Some k ->
      UQ.size lead <> 0%nat -> UQ.size tail <> 0%nat ->
      length scores = UQ.size (lead ++ n :: tail) ->
      ((k <= n)%nat ->
       exists r r',
         UQ._min_dataarray (numeric (lead ++ n :: tail) scores) = Ok r
         /\ UQ._max_dataarray (numeric (lead ++ n :: tail) scores) = Ok r')
      /\ ((n < k)%nat ->
          UQ._min_dataarray (numeric (lead ++ n :: tail) scores)
          = Raise IndexError
          /\ UQ._max_dataarray (numeric (lead ++ n :: tail) scores)
             = Raise IndexError)).
Proof.
  split; [|split].
  - intros sh scores Hlen Hlast.
    unfold UQ._min_dataarray, UQ._max_dataarray, UQ.last_axis. simpl UQ.shape.
    destruct (last sh) as [[|n]|] eqn:Hl; [congruence| |split; reflexivity].
    cbn [rbind]. cbn [seq UQ.min_loop UQ.max_loop]. unfold UQ.getitem.
    simpl UQ.shape.
    rewrite getitem_shape_short by (simpl; lia). split; reflexivity.
  - intros lead n scores H6 Hlen Hnum. eexists _, _. split.
    + apply min_dataarray_run; assumption.
    + apply max_dataarray_run; assumption.
  - exact many_axes_run.
Qed.

Lemma reductions_expect_seven_axes_witness :
  (UQ._min_dataarray surface3 = Raise IndexError
   /\ UQ._max_dataarray surface3 = Raise IndexError)
  /\ (exists r r',
        UQ._min_dataarray surface7 = Ok r /\ UQ._max_dataarray surface7 = Ok r')
  /\ (exists r r',
        UQ._min_dataarray surface8 = Ok r /\ UQ._max_dataarray surface8 = Ok r')
  /\ (UQ._min_dataarray surface8_long = Raise IndexError
      /\ UQ._max_dataarray surface8_long = Raise IndexError).
Proof.
  destruct reductions_expect_seven_axes as (Hshort & Hseven & Hmany).
  split; [|split; [|split]].
  - apply (Hshort [2; 1; 2]%nat (List.map UQ.Num [1; 2; 3; 4]));
      [simpl; lia | discriminate].
  - apply (Hseven [1; 1; 3; 1; 1; 1]%nat 2%nat
             (List.map UQ.Num [5; 9; 2; 7; 4; 7]));
      [reflexivity | reflexivity |].
    intros i Hi. destruct i as [|[|i]]; [exists 5 | exists 9 | lia];
      simpl; left.
  - apply (Hmany [1; 1; 1; 1; 1; 1]%nat [2]%nat 2%nat 2%nat [1; 2; 3; 4]);
      try reflexivity; simpl; lia.
  - apply (Hmany [1; 1; 1; 1; 1; 1]%nat [2]%nat 1%nat 2%nat [1; 2]);
      try reflexivity; simpl; lia.
Defined.

(** C10 as stated fails: an eight-axis surface is sliced along its seventh
    axis and a profile comes out. *)
Lemma eight_axes_give_a_profile :
  UQ._min_dataarray surface8 = Ok ([UQ.Num 1; UQ.Num 3], [0; 0]%nat)
  /\ UQ._max_dataarray surface8 = Ok ([UQ.Num 2; UQ.Num 4], [1; 1]%nat).
Proof. split; reflexivity. Qed.

(** * Further properties of the code *)

(** ** What the sort achieves *)

Section SortOrder.

Context {A : Type}.
Implicit Types (x : Z * A) (l : list (Z * A)).

Lemma sorted_keys l : Sorted key_le l -> Sorted Z.le (List.map fst l).
Proof.
  induction 1 as [|x l _ IH Hhd]; simpl; constructor; [exact IH|].
  destruct Hhd; simpl; constructor. assumption.
Qed.

Lemma strongly_sorted_snoc (R : Z -> Z -> Prop) (keys : list Z) (k : Z) :
  StronglySorted R keys -> Forall (fun y => R y k) keys ->
  StronglySorted R (keys ++ [k]).
Proof.
  induction 1 as [|y keys Hs IH Hall]; intros Hk; simpl.
  - repeat constructor.
  - inversion Hk; subst. constructor; [apply IH; assumption|].
    apply Forall_app. split; [exact Hall | repeat constructor; assumption].
Qed.

Lemma sorted_rev (keys : list Z) :
  Sorted Z.le keys -> Sorted Z.ge (rev keys).
Proof.
  intros Hs. apply Sorted_StronglySorted in Hs; [|intros x y z; lia].
  apply StronglySorted_Sorted.
  induction Hs as [|k keys Hs IH Hall]; simpl; [constructor|].
  apply strongly_sorted_snoc; [exact IH|].
  apply Forall_rev. eapply Forall_impl; [exact Hall|]. simpl. intros; lia.
Qed.

Lemma list_sort_ordered (reverse : bool) l :
  ordered reverse (List.map fst (Dataset.list_sort reverse l)).
Proof.
  unfold ordered, Dataset.list_sort. destruct reverse.
  - rewrite map_rev. apply sorted_rev, sorted_keys, stable_sort_sorted.
  - apply sorted_keys, stable_sort_sorted.
Qed.

Lemma insert_key_filter (k : Z) x l :
  List.filter (fun y => fst y =? k) (Dataset.insert_key x l)
  = List.filter (fun y => fst y =? k) (x :: l).
Proof.
  induction l as [|y l IH]; [reflexivity|].
  cbn [Dataset.insert_key].
  destruct (Z.leb_spec (fst x) (fst y)) as [Hle|Hgt]; [reflexivity|].
  cbn [List.filter] in IH |- *. rewrite IH.
  destruct (Z.eqb_spec (fst x) k), (Z.eqb_spec (fst y) k);
    try reflexivity. lia.
Qed.

Lemma stable_sort_filter (k : Z) l :
  List.filter (fun y => fst y =? k) (Dataset.stable_sort l)
  = List.filter (fun y => fst y =? k) l.
Proof.
  induction l as [|x l IH]; [reflexivity|].
  change (Dataset.stable_sort (x :: l))
    with (Dataset.insert_key x (Dataset.stable_sort l)).
  rewrite insert_key_filter. cbn [List.filter]. rewrite IH. reflexivity.
Qed.

Lemma list_sort_filter (reverse : bool) (k : Z) l :
  List.filter (fun y => fst y =? k) (Dataset.list_sort reverse l)
  = List.filter (fun y => fst y =? k) l.
Proof.
  unfold Dataset.list_sort. destruct reverse.
  - rewrite filter_rev, stable_sort_filter, filter_rev, rev_involutive.
    reflexivity.
  - apply stable_sort_filter.
Qed.

End SortOrder.

Section SortedDataset.

Variable f : Stream.t -> result Z.

Lemma decorated_filter (h : list Stream.t) (k : Z) (kv : list (Z * addr)) :
  Forall (fun x => key_at h f (snd x) = Ok (fst x)) kv ->
  List.filter (with_key h f k) (List.map snd kv)
  = List.map snd (List.filter (fun y => fst y =? k) kv).
Proof.
  induction 1 as [|x kv Hx _ IH]; [reflexivity|].
  cbn [List.map List.filter]. unfold with_key at 1. rewrite Hx, IH.
  destruct (fst x =? k); reflexivity.
Qed.

Lemma zip_snd_map (keys : list Z) (l : list addr) :
  length keys = length l -> List.map snd (zip keys l) = l.
Proof. intros Hlen. apply snd_zip. lia. Qed.

(** X1.  When every record has a key, [sort_by_function] (and with it
    [sort_by_distance] and [sort_by_azimuth]) succeeds, touches no record,
    keeps identifier and diagnostics, and leaves the Dataset as a
    rearrangement of what it held whose keys ascend, or descend when
    [reverse] is set. *)
Theorem sort_by_function_orders (reverse : bool) (e : Dataset.Env)
    (keys : list Z) :
  keys_of (Dataset.heap e) f (Dataset.items (Dataset.self e)) = Ok keys ->
  exists (e' : Dataset.Env) (keys' : list Z),
    Dataset.sort_by_function f reverse e = (e', Ok tt)
    /\ Dataset.heap e' = Dataset.heap e
    /\ Dataset.warnings e' = Dataset.warnings e
    /\ Dataset.id (Dataset.self e') = Dataset.id (Dataset.self e)
    /\ Permutation (Dataset.items (Dataset.self e))
                   (Dataset.items (Dataset.self e'))
    /\ keys_of (Dataset.heap e) f (Dataset.items (Dataset.self e')) = Ok keys'
    /\ ordered reverse keys'.
Proof.
  intros Hkeys. destruct (keys_of_zip f _ _ _ Hkeys) as [Hlen Hall].
  set (kv := zip keys (Dataset.items (Dataset.self e))) in *.
  exists (Dataset.mkEnv (Dataset.heap e)
            (Dataset.mk (Dataset.id (Dataset.self e))
               (List.map snd (Dataset.list_sort reverse kv)))
            (Dataset.warnings e)),
         (List.map fst (Dataset.list_sort reverse kv)).
  split; [rewrite sort_by_function_run, Hkeys; reflexivity|].
  simpl. repeat (split; [reflexivity|]).
  split.
  { rewrite <- (list_sort_perm reverse kv). unfold kv.
    rewrite zip_snd_map by exact Hlen. reflexivity. }
  split; [|apply list_sort_ordered].
  apply keys_of_decorated. rewrite <- (list_sort_perm reverse kv). exact Hall.
Qed.

(** X2.  The sort is stable in both directions: the records that share a
    key stand, after the sort, in the order they had before. *)
Theorem sort_by_function_stable (reverse : bool) (e : Dataset.Env)
    (keys : list Z) (k : Z) :
  keys_of (Dataset.heap e) f (Dataset.items (Dataset.self e)) = Ok keys ->
  List.filter (with_key (Dataset.heap e) f k)
    (Dataset.items (Dataset.self (fst (Dataset.sort_by_function f reverse e))))
  = List.filter (with_key (Dataset.heap e) f k)
      (Dataset.items (Dataset.self e)).
Proof.
  intros Hkeys. destruct (keys_of_zip f _ _ _ Hkeys) as [Hlen Hall].
  rewrite sort_by_function_run, Hkeys. simpl.
  set (kv := zip keys (Dataset.items (Dataset.self e))) in *.
  rewrite decorated_filter
    by (rewrite <- (list_sort_perm reverse kv); exact Hall).
  rewrite list_sort_filter.
  rewrite <- (decorated_filter (Dataset.heap e) k kv Hall).
  unfold kv. rewrite zip_snd_map by exact Hlen. reflexivity.
Qed.

End SortedDataset.

Lemma sort_by_function_orders_witness :
  exists (e' : Dataset.Env) (keys' : list Z),
    Dataset.sort_by_azimuth true tie_env = (e', Ok tt)
    /\ Dataset.heap e' = Dataset.heap tie_env
    /\ Permutation (Dataset.items (Dataset.self tie_env))
                   (Dataset.items (Dataset.self e'))
    /\ keys_of (Dataset.heap tie_env) Dataset.get_azimuth
         (Dataset.items (Dataset.self e')) = Ok keys'
    /\ ordered true keys'.
Proof.
  destruct (sort_by_function_orders Dataset.get_azimuth true tie_env
              [40; 30; 10; 20] eq_refl)
    as (e' & keys' & Hrun & Hheap & _ & _ & Hperm & Hkeys & Hord).
  exists e', keys'. repeat split; assumption.
Defined.

Lemma sort_by_function_stable_witness :
  List.filter (with_key (Dataset.heap tie_env) Dataset.get_distance_in_m 5)
    (Dataset.items (Dataset.self
       (fst (Dataset.sort_by_distance true tie_env))))
  = [0; 2]%nat.
Proof.
  exact (sort_by_function_stable Dataset.get_distance_in_m true tie_env
           [5; 2; 5; 9] 5 eq_refl).
Defined.

Lemma keys_of_distance_raises (h : list Stream.t) (l : list addr) :
  ~ Forall (has_distance h) l ->
  keys_of h Dataset.get_distance_in_m l = Raise AttributeError.
Proof.
  induction l as [|a l IH]; intros Hno.
  - exfalso. apply Hno. constructor.
  - cbn [keys_of]. unfold key_at at 1.
    destruct (h !! a) as [s|] eqn:Ha; [|reflexivity].
    unfold Dataset.get_distance_in_m at 1.
    destruct (Stream.distance_in_m s) as [d|] eqn:Hd; [|reflexivity].
    simpl. rewrite IH; [reflexivity|].
    intros Hall. apply Hno. constructor; [|exact Hall].
    exists s, d. auto.
Qed.

(** X3.  When some record of the Dataset has no [distance_in_m],
    [sort_by_distance] raises [AttributeError] in either direction and
    leaves the Dataset, the records and the diagnostics exactly as they
    were: the keys are all computed before anything moves. *)
Theorem sort_by_distance_all_or_nothing (reverse : bool) (e : Dataset.Env) :
  ~ Forall (has_distance (Dataset.heap e)) (Dataset.items (Dataset.self e)) ->
  Dataset.sort_by_distance reverse e = (e, Raise AttributeError).
Proof.
  intros Hno. unfold Dataset.sort_by_distance.
  rewrite sort_by_function_run, (keys_of_distance_raises _ _ Hno).
  reflexivity.
Qed.

Lemma sort_by_distance_all_or_nothing_witness :
  Dataset.sort_by_distance false gap_env = (gap_env, Raise AttributeError).
Proof.
  apply (sort_by_distance_all_or_nothing false gap_env).
  intros Hall. inversion Hall as [|? ? _ Hrest]; subst.
  inversion Hrest as [|? ? (s & d & Hs & Hd) _]; subst.
  simpl in Hs. inversion Hs; subst. discriminate.
Defined.

(** ** Loops that rewrite the records of a Dataset one by one *)

Section RecordLoop.

Variable body : addr -> Dataset.M unit.
Variable g : Stream.t -> Stream.t.
Variable good : Stream.t -> Prop.

Hypothesis body_rewrites :
  forall (e : Dataset.Env) (a : addr) (s : Stream.t),
    Dataset.heap e !! a = Some s -> good s ->
    body a e = (Dataset.mkEnv (<[a := g s]> (Dataset.heap e))
                  (Dataset.self e) (Dataset.warnings e), Ok tt).
Hypothesis g_good : forall s, good s -> good (g s).
Hypothesis g_idem : forall s, good s -> g (g s) = g s.

Lemma record_loop_effect (l : list addr) (e : Dataset.Env) :
  Forall (good_at good (Dataset.heap e)) l ->
  exists e',
    Dataset.for_each l body e = (e', Ok tt)
    /\ Dataset.self e' = Dataset.self e
    /\ Dataset.warnings e' = Dataset.warnings e
    /\ forall a,
         Dataset.heap e' !! a
         = (if bool_decide (a ∈ l) then g <$> Dataset.heap e !! a
            else Dataset.heap e !! a).
Proof.
  revert e. induction l as [|a l IH]; intros e Hall.
  - exists e. repeat split.
  - inversion Hall as [|? ? (s & Ha & Hs) Hrest]; subst.
    pose proof (body_rewrites e a s Ha Hs) as Hturn.
    set (e1 := Dataset.mkEnv _ _ _) in Hturn.
    destruct (IH e1) as (e' & Hrun & Hself & Hwarn & Hheap).
    { unfold e1. simpl. eapply Forall_impl; [exact Hrest|].
      intros b (sb & Hb & Hsb). unfold good_at.
      destruct (decide (a = b)) as [->|Hne].
      - exists (g s). split; [|auto].
        apply list_lookup_insert_eq, (lookup_lt_Some _ _ _ Ha).
      - exists sb. rewrite list_lookup_insert_ne by exact Hne. auto. }
    exists e'. cbn [Dataset.for_each]. unfold Dataset.bind. rewrite Hturn.
    split; [exact Hrun|]. split; [exact Hself|]. split; [exact Hwarn|].
    intros b. rewrite Hheap. unfold e1. simpl.
    destruct (decide (b = a)) as [->|Hne].
    + rewrite (bool_decide_eq_true_2 (a ∈ a :: l))
        by (apply elem_of_cons; auto).
      rewrite list_lookup_insert_eq by exact (lookup_lt_Some _ _ _ Ha).
      rewrite Ha.
      destruct (bool_decide (a ∈ l)); simpl; rewrite ?g_idem by exact Hs;
        reflexivity.
    + rewrite list_lookup_insert_ne by congruence.
      destruct (decide (b ∈ l)) as [Hin|Hnin].
      * rewrite !bool_decide_eq_true_2
          by (rewrite ?elem_of_cons; auto). reflexivity.
      * rewrite !bool_decide_eq_false_2
          by (rewrite ?elem_of_cons; tauto). reflexivity.
Qed.

End RecordLoop.

(** ** [Dataset.tag_remove] *)

Lemma tag_remove_loop (tag : value) (e : Dataset.Env) :
  Dataset.tag_remove tag e
  = Dataset.for_each (Dataset.items (Dataset.self e)) (untag_turn tag) e.
Proof. reflexivity. Qed.

Lemma set_tags_same (s : Stream.t) (l : list string) :
  Stream.tags s = Some l -> Stream.set_tags l s = s.
Proof. destruct s; simpl. intros ->. reflexivity. Qed.

Lemma untag_turn_rewrites (tag : value) (e : Dataset.Env) (a : addr)
    (s : Stream.t) :
  Dataset.heap e !! a = Some s -> is_Some (Stream.tags s) ->
  untag_turn tag a e
  = (Dataset.mkEnv (<[a := untag tag s]> (Dataset.heap e))
       (Dataset.self e) (Dataset.warnings e), Ok tt).
Proof.
  intros Ha [l Hl].
  unfold untag_turn, Dataset.bind, Dataset.deref, Dataset.lift,
    Dataset.get_tags. rewrite Ha, Hl.
  assert (Hsame : (e, Ok ())
                  = (Dataset.mkEnv (<[a := s]> (Dataset.heap e))
                       (Dataset.self e) (Dataset.warnings e), Ok ())).
  { rewrite list_insert_id by exact Ha. destruct e; reflexivity. }
  destruct tag; simpl; try exact Hsame.
  unfold without_tag. rewrite Hl.
  destruct (bool_decide (s0 ∈ l)); [reflexivity | exact Hsame].
Qed.

Lemma remove_first_absent (t : string) (l : list string) :
  t ∉ l -> Dataset.remove_first t l = l.
Proof.
  induction l as [|x l IH]; intros Hno; simpl; [reflexivity|].
  rewrite bool_decide_eq_false_2.
  - rewrite IH; [reflexivity|]. intros Hin. apply Hno. right. exact Hin.
  - intros ->. apply Hno. left.
Qed.

Lemma remove_first_subset (t x : string) (l : list string) :
  x ∈ Dataset.remove_first t l -> x ∈ l.
Proof.
  induction l as [|y l IH]; simpl; [auto|].
  destruct (bool_decide (y = t)).
  - intros Hin. right. exact Hin.
  - rewrite !elem_of_cons. intros [->|Hin]; auto.
Qed.

Lemma remove_first_NoDup (t : string) (l : list string) :
  NoDup l -> NoDup (Dataset.remove_first t l) /\ t ∉ Dataset.remove_first t l.
Proof.
  induction 1 as [|x l Hx Hnd [IHnd IHno]]; simpl.
  - split; [constructor | apply not_elem_of_nil].
  - destruct (bool_decide (x = t)) eqn:Hd.
    + apply bool_decide_eq_true in Hd. subst. auto.
    + apply bool_decide_eq_false in Hd. split.
      * constructor; [|exact IHnd].
        intros Hin. apply Hx. eapply remove_first_subset, Hin.
      * rewrite elem_of_cons. intros [->|Hin]; [congruence | auto].
Qed.

Lemma remove_first_snoc (t : string) (l : list string) :
  t ∉ l -> Dataset.remove_first t (l ++ [t]) = l.
Proof.
  induction l as [|x l IH]; intros Hno; simpl.
  - rewrite bool_decide_eq_true_2 by reflexivity. reflexivity.
  - rewrite bool_decide_eq_false_2.
    + rewrite IH; [reflexivity|]. intros Hin. apply Hno. right. exact Hin.
    + intros ->. apply Hno. left.
Qed.

Lemma without_tag_tidy (t : string) (s : Stream.t) :
  tidy s ->
  tidy (without_tag t s)
  /\ (forall l, Stream.tags (without_tag t s) = Some l -> t ∉ l).
Proof.
  intros (l & Hl & Hnd). unfold without_tag, tidy. rewrite Hl.
  destruct (remove_first_NoDup t l Hnd) as [Hnd' Hno].
  destruct (bool_decide (t ∈ l)) eqn:Hd.
  - split; [exists (Dataset.remove_first t l); auto|].
    simpl. intros l' [= <-]. exact Hno.
  - apply bool_decide_eq_false in Hd. split; [exists l; auto|].
    rewrite Hl. intros l' [= <-]. exact Hd.
Qed.

Lemma without_tag_idem (t : string) (s : Stream.t) :
  tidy s -> without_tag t (without_tag t s) = without_tag t s.
Proof.
  intros Hs. destruct (without_tag_tidy t s Hs) as [(l & Hl & _) Hno].
  unfold without_tag at 1. rewrite Hl.
  rewrite bool_decide_eq_false_2 by exact (Hno l Hl). reflexivity.
Qed.

Lemma with_tag_tidy (t : string) (s : Stream.t) :
  tidy s -> tidy (with_tag t s).
Proof.
  intros (l & Hl & Hnd). unfold with_tag, tidy. rewrite Hl.
  destruct (bool_decide (t ∈ l)) eqn:Hd; [exists l; auto|].
  apply bool_decide_eq_false in Hd. exists (l ++ [t]). split; [reflexivity|].
  apply NoDup_app. split; [exact Hnd|]. split.
  - intros x Hx Hin. apply list_elem_of_singleton in Hin. subst. auto.
  - apply NoDup_singleton.
Qed.

(** X4.  [tag_add] keeps tag lists free of repetitions: on a Dataset whose
    records all have tidy tag lists, every record is still tidy after the
    call (the tag is added at most once, also to a record the Dataset holds
    twice). *)
Theorem tag_add_keeps_tidy (e : Dataset.Env) (t : string) :
  Forall (good_at tidy (Dataset.heap e)) (Dataset.items (Dataset.self e)) ->
  exists e',
    Dataset.tag_add (VStr t) e = (e', Ok tt)
    /\ (forall a s, Dataset.heap e !! a = Some s -> tidy s ->
                    good_at tidy (Dataset.heap e') a)
    /\ Forall (tagged t (Dataset.heap e')) (Dataset.items (Dataset.self e')).
Proof.
  intros Hall. rewrite tag_add_loop.
  destruct (tag_loop_effect t (Dataset.items (Dataset.self e)) e)
    as (e' & Hrun & Hself & _ & Hheap).
  { eapply Forall_impl; [exact Hall|].
    intros a (s & Ha & l & Hl & _). exists s, l. auto. }
  exists e'. split; [exact Hrun|]. split.
  - intros a s Ha Hs. unfold good_at. rewrite Hheap, Ha.
    destruct (bool_decide _); simpl; eexists; split; try reflexivity;
      [apply with_tag_tidy|]; exact Hs.
  - rewrite Hself. rewrite Forall_forall in Hall |- *. intros a Hin.
    destruct (Hall a Hin) as (s & Ha & l & Hl & _).
    destruct (with_tag_tagged t s) as (l' & Hl' & Hin'); [eauto|].
    exists (with_tag t s), l'. split; [|auto].
    rewrite Hheap, bool_decide_eq_true_2, Ha by exact Hin. reflexivity.
Qed.

Lemma tag_add_keeps_tidy_witness :
  exists e',
    Dataset.tag_add (VStr "bw") tidy_env = (e', Ok tt)
    /\ Forall (tagged "bw" (Dataset.heap e'))
              (Dataset.items (Dataset.self e')).
Proof.
  destruct (tag_add_keeps_tidy tidy_env "bw"%string) as (e' & Hrun & _ & Hall).
  - repeat constructor; unfold good_at, tidy; simpl; eexists;
      (split; [reflexivity|]); eexists; (split; [reflexivity|]);
      apply (bool_decide_unpack _); vm_compute; exact I.
  - exists e'. split; assumption.
Defined.

(** X5.  On a Dataset whose records all have tidy tag lists,
    [tag_remove] with a string succeeds, and afterwards no record of the
    Dataset carries the tag; records outside the Dataset are as before,
    every record is still tidy, and a second call changes nothing. *)
Theorem tag_remove_clears (e : Dataset.Env) (t : string) :
  Forall (good_at tidy (Dataset.heap e)) (Dataset.items (Dataset.self e)) ->
  exists e',
    Dataset.tag_remove (VStr t) e = (e', Ok tt)
    /\ Dataset.self e' = Dataset.self e
    /\ Forall (untagged t (Dataset.heap e')) (Dataset.items (Dataset.self e))
    /\ (forall a, a ∉ Dataset.items (Dataset.self e) ->
                  Dataset.heap e' !! a = Dataset.heap e !! a)
    /\ Forall (good_at tidy (Dataset.heap e'))
              (Dataset.items (Dataset.self e))
    /\ Dataset.tag_remove (VStr t) e' = (e', Ok tt).
Proof.
  intros Hall. rewrite tag_remove_loop.
  assert (Hloop : forall e0,
            Forall (good_at tidy (Dataset.heap e0))
                   (Dataset.items (Dataset.self e)) ->
            exists e',
              Dataset.for_each (Dataset.items (Dataset.self e))
                (untag_turn (VStr t)) e0 = (e', Ok tt)
              /\ Dataset.self e' = Dataset.self e0
              /\ Dataset.warnings e' = Dataset.warnings e0
              /\ forall a,
                   Dataset.heap e' !! a
                   = (if bool_decide (a ∈ Dataset.items (Dataset.self e))
                      then without_tag t <$> Dataset.heap e0 !! a
                      else Dataset.heap e0 !! a)).
  { intros e0. apply (record_loop_effect (untag_turn (VStr t))
                        (without_tag t) tidy).
    - intros e1 a s Ha (l & Hl & _).
      apply (untag_turn_rewrites (VStr t)); eauto.
    - intros s Hs. apply without_tag_tidy, Hs.
    - intros s Hs. apply without_tag_idem, Hs. }
  destruct (Hloop e Hall) as (e' & Hrun & Hself & Hwarn & Hheap).
  assert (Htidy' : Forall (good_at tidy (Dataset.heap e'))
                     (Dataset.items (Dataset.self e))).
  { rewrite Forall_forall in Hall |- *. intros a Hin.
    destruct (Hall a Hin) as (s & Ha & Hs). exists (without_tag t s).
    rewrite Hheap, bool_decide_eq_true_2, Ha by exact Hin.
    split; [reflexivity | apply without_tag_tidy, Hs]. }
  exists e'. split; [exact Hrun|]. split; [exact Hself|]. split.
  { rewrite Forall_forall in Hall |- *. intros a Hin.
    destruct (Hall a Hin) as (s & Ha & Hs).
    destruct (without_tag_tidy t s Hs) as [(l & Hl & _) Hno].
    exists (without_tag t s), l.
    rewrite Hheap, bool_decide_eq_true_2, Ha by exact Hin. auto. }
  split.
  { intros a Hout. rewrite Hheap, bool_decide_eq_false_2 by exact Hout.
    reflexivity. }
  split; [exact Htidy'|].
  rewrite tag_remove_loop, Hself.
  destruct (Hloop e' Htidy') as (e'' & Hrun' & Hself' & Hwarn' & Hheap').
  rewrite Hrun'. f_equal.
  destruct e' as [h' d' w'], e'' as [h'' d'' w'']. simpl in *. subst.
  f_equal. apply list_eq. intros a. rewrite Hheap'.
  destruct (decide (a ∈ Dataset.items (Dataset.self e))) as [Hin|Hout].
  - rewrite bool_decide_eq_true_2 by exact Hin.
    rewrite Forall_forall in Hall. destruct (Hall a Hin) as (s & Ha & Hs).
    rewrite Hheap, bool_decide_eq_true_2, Ha by exact Hin. simpl.
    rewrite without_tag_idem by exact Hs. reflexivity.
  - rewrite bool_decide_eq_false_2 by exact Hout. reflexivity.
Qed.

Lemma tag_remove_clears_witness :
  exists e',
    Dataset.tag_remove (VStr "raw") tidy_env = (e', Ok tt)
    /\ Forall (untagged "raw" (Dataset.heap e'))
              (Dataset.items (Dataset.self tidy_env))
    /\ Dataset.tag_remove (VStr "raw") e' = (e', Ok tt).
Proof.
  destruct (tag_remove_clears tidy_env "raw"%string)
    as (e' & Hrun & _ & Hgone & _ & _ & Hagain).
  - repeat constructor; unfold good_at, tidy; simpl; eexists;
      (split; [reflexivity|]); eexists; (split; [reflexivity|]);
      apply (bool_decide_unpack _); vm_compute; exact I.
  - exists e'. repeat split; assumption.
Defined.

(** A tag list that names the tag twice keeps one after [tag_remove]. *)
Example tag_remove_takes_one :
  fst (Dataset.tag_remove (VStr "a")
         (dataset_of [tagged_stream ["a"; "a"]%string]))
  = dataset_of [tagged_stream ["a"%string]].
Proof. reflexivity. Qed.

(** X6.  [tag_remove] has no type check: given a tag that is not a
    string, on a Dataset whose records have tag lists, it succeeds and
    changes nothing, where [tag_add] raises [TypeError]. *)
Theorem tag_remove_ignores_non_strings (e : Dataset.Env) (tag : value) :
  ~ is_string tag ->
  Forall (has_tags (Dataset.heap e)) (Dataset.items (Dataset.self e)) ->
  Dataset.tag_remove tag e = (e, Ok tt)
  /\ Dataset.tag_add tag e = (e, Raise TypeError).
Proof.
  intros Hns Hall. split; [|destruct tag; try reflexivity; simpl in Hns; tauto].
  rewrite tag_remove_loop.
  destruct (record_loop_effect (untag_turn tag) (fun s => s)
              (fun s => is_Some (Stream.tags s)))
    with (l := Dataset.items (Dataset.self e)) (e := e)
    as (e' & Hrun & Hself & Hwarn & Hheap).
  - intros e1 a s Ha Hs. rewrite (untag_turn_rewrites tag e1 a s Ha Hs).
    destruct tag; try reflexivity. simpl in Hns. tauto.
  - auto.
  - reflexivity.
  - eapply Forall_impl; [exact Hall|].
    intros a (s & l & Ha & Hl). exists s. eauto.
  - rewrite Hrun. f_equal. destruct e as [h d w], e' as [h' d' w'].
    simpl in *. subst. f_equal. apply list_eq. intros a. rewrite Hheap.
    destruct (bool_decide _); [|reflexivity].
    destruct (h !! a); reflexivity.
Qed.

Lemma tag_remove_ignores_non_strings_witness :
  Dataset.tag_remove (VInt 7) tidy_env = (tidy_env, Ok tt)
  /\ Dataset.tag_add (VInt 7) tidy_env = (tidy_env, Raise TypeError).
Proof.
  apply (tag_remove_ignores_non_strings tidy_env (VInt 7)).
  - simpl. tauto.
  - repeat constructor; unfold has_tags; simpl; eauto.
Defined.

Lemma untag_after_tag (t : string) (s : Stream.t) (tl : list string) :
  Stream.tags s = Some tl -> t ∉ tl ->
  without_tag t s = s /\ without_tag t (with_tag t s) = s.
Proof.
  intros Htl Hno. split.
  - unfold without_tag. rewrite Htl, bool_decide_eq_false_2 by exact Hno.
    reflexivity.
  - unfold with_tag. rewrite Htl, bool_decide_eq_false_2 by exact Hno.
    unfold without_tag. simpl.
    rewrite bool_decide_eq_true_2
      by (apply elem_of_app; right; apply list_elem_of_singleton; reflexivity).
    rewrite remove_first_snoc by exact Hno.
    destruct s; simpl in *. subst. reflexivity.
Qed.

Lemma untag_loop_restores (t : string) (h0 : list Stream.t) (l : list addr) :
  forall ec : Dataset.Env,
    (forall a, a ∈ l ->
       exists s tl, h0 !! a = Some s /\ Stream.tags s = Some tl /\ (t ∉ tl)
                    /\ (Dataset.heap ec !! a = Some s
                        \/ Dataset.heap ec !! a = Some (with_tag t s))) ->
    exists e',
      Dataset.for_each l (untag_turn (VStr t)) ec = (e', Ok tt)
      /\ Dataset.self e' = Dataset.self ec
      /\ Dataset.warnings e' = Dataset.warnings ec
      /\ forall a, Dataset.heap e' !! a
                   = (if bool_decide (a ∈ l) then h0 !! a
                      else Dataset.heap ec !! a).
Proof.
  induction l as [|a l IH]; intros ec Hpre.
  - exists ec. repeat split.
  - destruct (Hpre a) as (s & tl & H0 & Htl & Hno & Hnow);
      [apply elem_of_cons; auto|].
    destruct (untag_after_tag t s tl Htl Hno) as [Hplain Hback].
    set (e1 := Dataset.mkEnv (<[a := s]> (Dataset.heap ec))
                 (Dataset.self ec) (Dataset.warnings ec)).
    assert (Hlive : (a < length (Dataset.heap ec))%nat).
    { destruct Hnow as [H|H]; exact (lookup_lt_Some _ _ _ H). }
    assert (Hturn : untag_turn (VStr t) a ec = (e1, Ok tt)).
    { destruct Hnow as [Hs|Hs].
      - rewrite (untag_turn_rewrites (VStr t) ec a s Hs) by eauto.
        simpl. rewrite Hplain. reflexivity.
      - rewrite (untag_turn_rewrites (VStr t) ec a (with_tag t s) Hs).
        + simpl. rewrite Hback. reflexivity.
        + destruct (with_tag_tagged t s) as (l' & Hl' & _); eauto. }
    destruct (IH e1) as (e' & Hrun & Hself & Hwarn & Hheap).
    { intros b Hb. destruct (Hpre b) as (sb & tb & Hb0 & Htb & Hnb & Hbnow);
        [apply elem_of_cons; auto|].
      exists sb, tb. repeat (split; [assumption|]). unfold e1. simpl.
      destruct (decide (a = b)) as [->|Hne].
      - left. rewrite list_lookup_insert_eq by exact Hlive. congruence.
      - rewrite list_lookup_insert_ne by exact Hne. exact Hbnow. }
    exists e'. cbn [Dataset.for_each]. unfold Dataset.bind. rewrite Hturn.
    split; [exact Hrun|]. split; [exact Hself|]. split; [exact Hwarn|].
    intros b. rewrite Hheap. unfold e1. simpl.
    destruct (decide (b ∈ l)) as [Hin|Hout].
    + rewrite !bool_decide_eq_true_2 by (rewrite ?elem_of_cons; auto).
      reflexivity.
    + rewrite (bool_decide_eq_false_2 (b ∈ l)) by exact Hout.
      destruct (decide (b = a)) as [->|Hne].
      * rewrite bool_decide_eq_true_2 by (apply elem_of_cons; auto).
        rewrite list_lookup_insert_eq by exact Hlive. congruence.
      * rewrite bool_decide_eq_false_2 by (rewrite elem_of_cons; tauto).
        rewrite list_lookup_insert_ne by congruence. reflexivity.
Qed.

(** X7.  [tag_remove] undoes [tag_add]: when no record of the Dataset
    carries the tag, adding it and then removing it brings every record,
    the Dataset and the diagnostics back to exactly what they were. *)
Theorem tag_add_then_remove (e : Dataset.Env) (t : string) :
  Forall (untagged t (Dataset.heap e)) (Dataset.items (Dataset.self e)) ->
  Dataset.tag_remove (VStr t) (fst (Dataset.tag_add (VStr t) e))
  = (e, Ok tt).
Proof.
  intros Hall. rewrite tag_add_loop.
  destruct (tag_loop_effect t (Dataset.items (Dataset.self e)) e)
    as (e1 & Hrun & Hself & Hwarn & Hheap).
  { eapply Forall_impl; [exact Hall|].
    intros a (s & l & Ha & Hl & _). exists s, l. auto. }
  rewrite Hrun. simpl. rewrite tag_remove_loop, Hself.
  destruct (untag_loop_restores t (Dataset.heap e)
              (Dataset.items (Dataset.self e)) e1)
    as (e' & Hrun' & Hself' & Hwarn' & Hheap').
  { intros a Hin. rewrite Forall_forall in Hall.
    destruct (Hall a Hin) as (s & l & Ha & Hl & Hno).
    exists s, l. repeat (split; [assumption|]). right.
    rewrite Hheap, bool_decide_eq_true_2, Ha by exact Hin. reflexivity. }
  rewrite Hrun'. f_equal.
  destruct e as [h d w], e1 as [h1 d1 w1], e' as [h' d' w'].
  simpl in *. subst. f_equal. apply list_eq. intros a.
  rewrite Hheap', Hheap. destruct (bool_decide _); reflexivity.
Qed.

Lemma tag_add_then_remove_witness :
  Dataset.tag_remove (VStr "trial")
    (fst (Dataset.tag_add (VStr "trial") tidy_env))
  = (tidy_env, Ok tt).
Proof.
  apply (tag_add_then_remove tidy_env "trial"%string).
  repeat constructor; unfold untagged; simpl; eexists; eexists;
    (split; [reflexivity|]); (split; [reflexivity|]);
    apply (bool_decide_unpack _); vm_compute; exact I.
Defined.

(** ** What the constructor guarantees *)

Section Constructed.

Variable gps2dist_azimuth : Z -> Z -> Z -> Z -> result (Z * Z * Z).

Local Abbreviation append := (Dataset.append gps2dist_azimuth).
Local Abbreviation settled_at :=
  (fun h => good_at (settled gps2dist_azimuth) h).

Lemma placed_twice (g : option (Z * Z)) (i : string) (s : Stream.t) :
  placed g i (placed g i s) = placed g i s.
Proof.
  unfold placed, named. destruct s as [tr st o i0 tg d az]; simpl.
  destruct g as [[dd aa]|], tg; reflexivity.
Qed.

Lemma settled_placed (s : Stream.t) :
  settled gps2dist_azimuth s ->
  exists (i : string) (g : option (Z * Z)),
    Dataset.identifier s = Ok i
    /\ geodesy gps2dist_azimuth s = Ok g
    /\ placed g i s = s.
Proof.
  intros (i & Hi & Hfix). unfold appended in Hfix.
  destruct (geodesy gps2dist_azimuth s) as [g|x]; [|discriminate].
  cbn [rbind] in Hfix. inversion Hfix as [Hs]. exists i, g.
  rewrite Hs. auto.
Qed.

Lemma placed_settled (g : option (Z * Z)) (i : string) (s : Stream.t) :
  Dataset.identifier s = Ok i ->
  geodesy gps2dist_azimuth s = Ok g ->
  settled gps2dist_azimuth (placed g i s).
Proof.
  intros Hi Hg. exists i. split.
  - rewrite (identifier_same_meta s); [exact Hi|].
    apply same_meta_placed.
  - unfold appended.
    rewrite (geodesy_same_meta gps2dist_azimuth s)
      by apply same_meta_placed.
    rewrite Hg. cbn [rbind]. rewrite placed_twice. reflexivity.
Qed.

Lemma append_success (v : value) (e e' : Dataset.Env) :
  append v e = (e', Ok tt) ->
  exists (a : addr) (s : Stream.t) (i : string) (g : option (Z * Z)),
    v = VStream a
    /\ Dataset.heap e !! a = Some s
    /\ Dataset.identifier s = Ok i
    /\ geodesy gps2dist_azimuth s = Ok g
    /\ e' = Dataset.mkEnv
              (<[a := placed g i s]> (Dataset.heap e))
              (Dataset.mk (Dataset.id (Dataset.self e))
                          (Dataset.items (Dataset.self e) ++ [a]))
              (Dataset.warnings e ++ append_warning s).
Proof.
  intros Hrun. destruct v as [| | | | |a]; try discriminate.
  destruct (Dataset.heap e !! a) as [s|] eqn:Ha.
  - destruct (Dataset.identifier s) as [i|x] eqn:Hi.
    + destruct (geodesy gps2dist_azimuth s) as [g|x] eqn:Hg.
      * rewrite (append_stores gps2dist_azimuth e a s i g Ha Hi Hg) in Hrun.
        inversion Hrun; subst. exists a, s, i, g. auto.
      * rewrite (append_refused gps2dist_azimuth e a s i x Ha Hi Hg) in Hrun.
        discriminate.
    + rewrite (append_raises gps2dist_azimuth e a s x Ha Hi) in Hrun.
      discriminate.
  - unfold Dataset.append in Hrun. rewrite Ha in Hrun. discriminate.
Qed.

Lemma append_loop_success (streams : list value) :
  forall e e' : Dataset.Env,
    Dataset.for_each streams append e = (e', Ok tt) ->
    Forall (settled_at (Dataset.heap e)) (Dataset.items (Dataset.self e)) ->
    exists l : list addr,
      streams = List.map VStream l
      /\ Dataset.self e'
         = Dataset.mk (Dataset.id (Dataset.self e))
                      (Dataset.items (Dataset.self e) ++ l)
      /\ Forall (settled_at (Dataset.heap e'))
                (Dataset.items (Dataset.self e) ++ l).
Proof.
  induction streams as [|v streams IH]; intros e e' Hrun Hinv.
  - inversion Hrun; subst. exists []. simpl. rewrite app_nil_r.
    destruct (Dataset.self e'). auto.
  - cbn [Dataset.for_each] in Hrun. unfold Dataset.bind in Hrun.
    destruct (append v e) as [e1 [[]|x]] eqn:Hstep; [|discriminate].
    destruct (append_success v e e1 Hstep)
      as (a & s & i & g & -> & Ha & Hi & Hg & ->).
    apply IH in Hrun.
    + destruct Hrun as (l & -> & Hself & Hall). exists (a :: l).
      simpl in Hself, Hall. rewrite <- app_assoc in Hself, Hall.
      repeat split; assumption.
    + simpl. apply Forall_app. split.
      * eapply Forall_impl; [exact Hinv|].
        intros b (sb & Hb & Hsb). unfold good_at.
        destruct (decide (a = b)) as [->|Hne].
        -- exists (placed g i s). split.
           ++ apply list_lookup_insert_eq, (lookup_lt_Some _ _ _ Ha).
           ++ apply placed_settled; assumption.
        -- exists sb. rewrite list_lookup_insert_ne by exact Hne. auto.
      * repeat constructor. exists (placed g i s). split.
        -- apply list_lookup_insert_eq, (lookup_lt_Some _ _ _ Ha).
        -- apply placed_settled; assumption.
Qed.

Lemma settled_has_tags (s : Stream.t) :
  settled gps2dist_azimuth s -> is_Some (Stream.tags s).
Proof.
  intros Hs. destruct (settled_placed s Hs) as (i & g & _ & _ & Hfix).
  rewrite <- Hfix. apply placed_id.
Qed.

Lemma with_tag_settled (t : string) (s : Stream.t) :
  settled gps2dist_azimuth s -> settled gps2dist_azimuth (with_tag t s).
Proof.
  intros Hs. destruct (settled_has_tags s Hs) as [l Hl].
  destruct (settled_placed s Hs) as (i & g & Hi & Hg & Hfix).
  unfold with_tag. rewrite Hl.
  destruct (bool_decide (t ∈ l)); [exact Hs|]. exists i. split.
  - rewrite <- Hi. apply identifier_same_meta. repeat split.
  - unfold appended.
    rewrite (geodesy_same_meta gps2dist_azimuth s) by (repeat split).
    rewrite Hg. cbn [rbind]. f_equal.
    destruct s as [tr st o i0 tg d az]; simpl in Hl. subst tg.
    unfold placed, named in Hfix |- *. simpl in Hfix |- *.
    destruct g as [[dd aa]|];
      unfold Stream.set_geometry, Stream.set_id, Stream.set_tags
        in Hfix |- *;
      simpl in Hfix |- *; congruence.
Qed.

Lemma with_tag_carries (t : string) (ts : list string) (s : Stream.t) :
  carries ts s -> carries (ts ++ [t]) (with_tag t s).
Proof.
  intros (tl & Htl & Hall). unfold with_tag, carries. rewrite Htl.
  destruct (bool_decide (t ∈ tl)) eqn:Hd.
  - apply bool_decide_eq_true in Hd. exists tl. split; [exact Htl|].
    intros t' Hin. apply elem_of_app in Hin as [Hin|Hin]; [auto|].
    apply list_elem_of_singleton in Hin. subst. exact Hd.
  - exists (tl ++ [t]). split; [reflexivity|].
    intros t' Hin. apply elem_of_app in Hin as [Hin|Hin];
      apply elem_of_app; [left; auto | right; exact Hin].
Qed.

Lemma tag_loop_success (tags : list value) :
  forall (done : list string) (e e' : Dataset.Env),
    Dataset.for_each tags Dataset.tag_add e = (e', Ok tt) ->
    Forall (good_at (fun s => settled gps2dist_azimuth s /\ carries done s)
                    (Dataset.heap e))
           (Dataset.items (Dataset.self e)) ->
    exists ts : list string,
      tags = List.map VStr ts
      /\ Dataset.self e' = Dataset.self e
      /\ Forall (good_at (fun s => settled gps2dist_azimuth s
                                   /\ carries (done ++ ts) s)
                         (Dataset.heap e'))
                (Dataset.items (Dataset.self e)).
Proof.
  induction tags as [|v tags IH]; intros done e e' Hrun Hinv.
  - inversion Hrun; subst. exists []. rewrite app_nil_r. auto.
  - cbn [Dataset.for_each] in Hrun. unfold Dataset.bind in Hrun.
    destruct (Dataset.tag_add v e) as [e1 [[]|x]] eqn:Hstep; [|discriminate].
    destruct v as [| |t| | |]; try discriminate.
    rewrite tag_add_loop in Hstep.
    destruct (tag_loop_effect t (Dataset.items (Dataset.self e)) e)
      as (e1' & Hrun1 & Hself1 & _ & Hheap1).
    { eapply Forall_impl; [exact Hinv|].
      intros a (s & Ha & _ & tl & Htl & _). exists s, tl. auto. }
    rewrite Hrun1 in Hstep. inversion Hstep; subst e1'. clear Hstep.
    apply (IH (done ++ [t])) in Hrun.
    + destruct Hrun as (ts & -> & Hself & Hall). exists (t :: ts).
      rewrite <- app_assoc in Hall. simpl in Hall.
      rewrite Hself1 in Hself, Hall. auto.
    + rewrite Hself1. rewrite Forall_forall in Hinv |- *. intros a Hin.
      destruct (Hinv a Hin) as (s & Ha & Hs & Hc).
      exists (with_tag t s). split.
      * rewrite Hheap1, bool_decide_eq_true_2, Ha by exact Hin. reflexivity.
      * split; [apply with_tag_settled, Hs | apply with_tag_carries, Hc].
Qed.

(** X8.  Whenever the constructor returns a Dataset, it was given
    streams and string tags only; the Dataset has the identifier asked
    for and holds the streams in the order given; every record in it is
    settled (it has its identifier and a tag list, and [append] would store
    it back unchanged) and carries every tag of the constructor; the
    caller's own Dataset is as before. *)
Theorem constructed_records_are_settled (streams tags : list value)
    (i : option string) (e e' : Dataset.Env) (d : Dataset.t) :
  Dataset.__init__ gps2dist_azimuth streams i tags e = (e', Ok d) ->
  exists (l : list addr) (ts : list string),
    streams = List.map VStream l
    /\ tags = List.map VStr ts
    /\ d = Dataset.mk i l
    /\ Dataset.self e' = Dataset.self e
    /\ Forall (good_at (fun s => settled gps2dist_azimuth s /\ carries ts s)
                       (Dataset.heap e')) l.
Proof.
  unfold Dataset.__init__. intros Hrun.
  set (e0 := Dataset.mkEnv (Dataset.heap e) (Dataset.mk i [])
               (Dataset.warnings e)) in Hrun.
  unfold Dataset.bind at 1 in Hrun.
  destruct (Dataset.for_each streams append e0) as [e1 [[]|x]] eqn:Happ;
    [|inversion Hrun].
  destruct (append_loop_success streams e0 e1 Happ) as (l & -> & Hself1 & Hall1);
    [constructor|].
  unfold Dataset.bind at 1 in Hrun.
  destruct (Dataset.for_each tags Dataset.tag_add e1) as [e2 [[]|x]] eqn:Htag;
    [|inversion Hrun].
  destruct (tag_loop_success tags [] e1 e2 Htag) as (ts & -> & Hself2 & Hall2).
  { rewrite Hself1. simpl in Hall1 |- *.
    eapply Forall_impl; [exact Hall1|].
    intros a (s & Ha & Hs). exists s. split; [exact Ha|]. split; [exact Hs|].
    destruct (settled_has_tags s Hs) as [tl Htl].
    exists tl. split; [exact Htl|]. intros t Hin.
    exfalso. exact (not_elem_of_nil _ Hin). }
  unfold Dataset.get_self in Hrun. simpl in Hrun.
  inversion Hrun; subst. exists l, ts.
  rewrite Hself2, Hself1. simpl. repeat (split; [reflexivity|]).
  rewrite Hself1 in Hall2. exact Hall2.
Qed.

End Constructed.

Lemma constructed_records_are_settled_witness :
  exists (l : list addr) (ts : list string),
    [VStream 0; VStream 1] = List.map VStream l
    /\ [VStr "raw"] = List.map VStr ts
    /\ Forall (good_at (fun s => settled flat_geodesy s /\ carries ts s)
                 (Dataset.heap
                    (fst (Dataset.__init__ flat_geodesy
                            [VStream 0; VStream 1] (Some "ev")
                            [VStr "raw"] event_env)))) l.
Proof.
  destruct (constructed_records_are_settled flat_geodesy
              [VStream 0; VStream 1] [VStr "raw"] (Some "ev"%string)
              event_env
              (fst (Dataset.__init__ flat_geodesy [VStream 0; VStream 1]
                      (Some "ev"%string) [VStr "raw"] event_env))
              (Dataset.mk (Some "ev"%string) [0; 1]%nat) eq_refl)
    as (l & ts & Hl & Hts & _ & _ & Hall).
  exists l, ts. repeat split; assumption.
Defined.

(** ** Selecting from a Dataset that [append] built *)

Section ReadOnlySelect.

Variable gps2dist_azimuth : Z -> Z -> Z -> Z -> result (Z * Z * Z).

Local Abbreviation append := (Dataset.append gps2dist_azimuth).
Local Abbreviation select := (Dataset.select gps2dist_azimuth).
Local Abbreviation kept := (well_kept gps2dist_azimuth).

Lemma append_kept (e : Dataset.Env) (a : addr) :
  kept (Dataset.heap e) a ->
  append (VStream a) e
  = (Dataset.mkEnv (Dataset.heap e)
       (Dataset.mk (Dataset.id (Dataset.self e))
                   (Dataset.items (Dataset.self e) ++ [a]))
       (Dataset.warnings e), Ok tt).
Proof.
  intros (s & Ha & Hs & [st Hst] & [o Ho]).
  destruct (settled_placed gps2dist_azimuth s Hs) as (i & g & Hi & Hg & Hfix).
  rewrite (append_stores gps2dist_azimuth e a s i g Ha Hi Hg).
  rewrite Hfix, (list_insert_id _ _ _ Ha).
  unfold append_warning. rewrite Hst, Ho, app_nil_r. reflexivity.
Qed.

Lemma append_all_kept (l : list addr) (e : Dataset.Env) :
  Forall (kept (Dataset.heap e)) l ->
  Dataset.for_each (List.map VStream l) append e
  = (Dataset.mkEnv (Dataset.heap e)
       (Dataset.mk (Dataset.id (Dataset.self e))
                   (Dataset.items (Dataset.self e) ++ l))
       (Dataset.warnings e), Ok tt).
Proof.
  revert e. induction l as [|a l IH]; intros e Hall.
  - simpl. rewrite app_nil_r. destruct e as [h [i it] w]. reflexivity.
  - inversion Hall as [|? ? Ha Hrest]; subst.
    cbn [List.map Dataset.for_each]. unfold Dataset.bind.
    rewrite (append_kept e a Ha), IH by exact Hrest.
    simpl. rewrite <- app_assoc. reflexivity.
Qed.

Lemma init_kept (l : list addr) (i : option string) (e : Dataset.Env) :
  Forall (kept (Dataset.heap e)) l ->
  Dataset.__init__ gps2dist_azimuth (List.map VStream l) i [] e
  = (e, Ok (Dataset.mk i l)).
Proof.
  intros Hall. unfold Dataset.__init__. unfold Dataset.bind at 1.
  rewrite append_all_kept by exact Hall. simpl.
  destruct e; reflexivity.
Qed.

Lemma selected_sublist (h : list Stream.t) (o : option Origin.t)
    (st : option Station.t) (l : list addr) (P : addr -> Prop) :
  Forall P l -> Forall P (selected h o st l).
Proof.
  intros Hall. apply Forall_forall. intros a Hin.
  apply list_elem_of_In, filter_In in Hin as [Hin _].
  rewrite Forall_forall in Hall. apply Hall, list_elem_of_In, Hin.
Qed.

Lemma select_kept (e : Dataset.Env) (origin : option Origin.t)
    (station : option Station.t) :
  is_Some origin \/ is_Some station ->
  Forall (kept (Dataset.heap e)) (Dataset.items (Dataset.self e)) ->
  select origin station e
  = (e, Ok (Dataset.mk (Dataset.id (Dataset.self e))
              (selected (Dataset.heap e) origin station
                 (Dataset.items (Dataset.self e))))).
Proof.
  intros Hcrit Hall.
  set (items := Dataset.items (Dataset.self e)) in *.
  set (sel := selected (Dataset.heap e) origin station items).
  assert (Hinit := init_kept sel (Dataset.id (Dataset.self e)) e
                     (selected_sublist _ _ _ _ _ Hall)).
  assert (Hfilter : forall p,
            (forall s, is_Some (Stream.station s) -> is_Some (Stream.origin s) ->
                       p s = Ok (matches origin station s)) ->
            filter_result (Dataset.heap e) p items = Ok sel).
  { intros p Hp. apply filter_result_ok.
    eapply Forall_impl; [exact Hall|].
    intros a (s & Ha & _ & Hst & Ho). exists s. auto. }
  unfold Dataset.select, Dataset.bind at 1, Dataset.get_self.
  destruct origin as [o|], station as [st|];
    try (destruct Hcrit as [[? [=]]|[? [=]]]; fail);
    unfold Dataset.bind; rewrite py_filter_run; fold items;
    (rewrite Hfilter; [exact Hinit | intros s Hst Ho]).
  - exact (criteria_decided (Some o) (Some st) s Hst Ho).
  - exact (criteria_decided (Some o) None s Hst Ho).
  - exact (criteria_decided None (Some st) s Hst Ho).
Qed.

(** X9.  On a Dataset whose records were stored by [append] and carry
    both metadata, [select] only reads: heap, diagnostics and the source
    Dataset come back exactly as they were, next to the new Dataset. *)
Theorem select_only_reads (e : Dataset.Env) (origin : option Origin.t)
    (station : option Station.t) :
  is_Some origin \/ is_Some station ->
  Forall (kept (Dataset.heap e)) (Dataset.items (Dataset.self e)) ->
  exists d : Dataset.t,
    select origin station e = (e, Ok d)
    /\ Dataset.id d = Dataset.id (Dataset.self e)
    /\ Dataset.items d
       = selected (Dataset.heap e) origin station
           (Dataset.items (Dataset.self e)).
Proof.
  intros Hcrit Hall. eexists. split; [apply select_kept; assumption|].
  split; reflexivity.
Qed.

Lemma filter_filter_andb {X} (p q : X -> bool) (l : list X) :
  List.filter q (List.filter p l) = List.filter (fun x => p x && q x) l.
Proof.
  induction l as [|x l IH]; simpl; [reflexivity|].
  destruct (p x); simpl; [destruct (q x)|]; rewrite IH; reflexivity.
Qed.

Lemma selected_twice (h : list Stream.t) (o : Origin.t) (st : Station.t)
    (l : list addr) :
  selected h (Some o) None (selected h None (Some st) l)
  = selected h (Some o) (Some st) l
  /\ selected h None (Some st) (selected h (Some o) None l)
     = selected h (Some o) (Some st) l.
Proof.
  unfold selected. rewrite !filter_filter_andb.
  split; apply filter_ext; intros a; destruct (h !! a) as [s|];
    try reflexivity; unfold matches, meets;
    destruct (bool_decide (Stream.station s = Some st)),
             (bool_decide (Stream.origin s = Some o)); reflexivity.
Qed.

(** X10.  Selections compose: on such a Dataset, selecting by station and
    then (from the result) by origin, or by origin and then by station,
    gives the same Dataset as selecting by both at once. *)
Theorem select_in_two_steps (e : Dataset.Env) (o : Origin.t)
    (st : Station.t) :
  Forall (kept (Dataset.heap e)) (Dataset.items (Dataset.self e)) ->
  exists d1 d2 d : Dataset.t,
    select (Some o) (Some st) e = (e, Ok d)
    /\ select None (Some st) e = (e, Ok d1)
    /\ select (Some o) None (with_self d1 e) = (with_self d1 e, Ok d)
    /\ select (Some o) None e = (e, Ok d2)
    /\ select None (Some st) (with_self d2 e) = (with_self d2 e, Ok d).
Proof.
  intros Hall.
  destruct (selected_twice (Dataset.heap e) o st
              (Dataset.items (Dataset.self e))) as [Hso Hos].
  eexists _, _, _.
  split; [apply select_kept; [left; eauto | exact Hall]|].
  split; [apply select_kept; [right; eauto | exact Hall]|].
  split.
  { rewrite select_kept; [|left; eauto|apply selected_sublist, Hall].
    simpl. rewrite Hso. reflexivity. }
  split; [apply select_kept; [left; eauto | exact Hall]|].
  rewrite select_kept; [|right; eauto|apply selected_sublist, Hall].
  simpl. rewrite Hos. reflexivity.
Qed.

End ReadOnlySelect.

Lemma stored_env_kept :
  Forall (well_kept flat_geodesy (Dataset.heap stored_env))
         (Dataset.items (Dataset.self stored_env)).
Proof.
  repeat constructor; unfold well_kept, settled; simpl;
    (eexists; split; [reflexivity|]; split;
     [eexists; split; reflexivity | split; eexists; reflexivity]).
Qed.

Lemma select_only_reads_witness :
  exists d : Dataset.t,
    Dataset.select flat_geodesy None (Some station_A) stored_env
    = (stored_env, Ok d)
    /\ Dataset.id d = Some "20090407"%string
    /\ Dataset.items d = [0; 2]%nat.
Proof.
  destruct (select_only_reads flat_geodesy stored_env None (Some station_A))
    as (d & Hrun & Hid & Hitems).
  - right. eauto.
  - exact stored_env_kept.
  - exists d. repeat split; assumption.
Defined.

Lemma select_in_two_steps_witness :
  exists d1 d : Dataset.t,
    Dataset.select flat_geodesy (Some origin_1) (Some station_A) stored_env
    = (stored_env, Ok d)
    /\ Dataset.select flat_geodesy None (Some station_A) stored_env
       = (stored_env, Ok d1)
    /\ Dataset.select flat_geodesy (Some origin_1) None
         (with_self d1 stored_env)
       = (with_self d1 stored_env, Ok d).
Proof.
  destruct (select_in_two_steps flat_geodesy stored_env origin_1 station_A
              stored_env_kept)
    as (d1 & d2 & d & Hboth & Hst & Hthen & _).
  exists d1, d. repeat split; assumption.
Defined.

(** ** [get_stations] and [get_origins] *)

Lemma collect_gather {B} (f : Stream.t -> result B) (l : list addr)
    (e : Dataset.Env) :
  Dataset.collect l
    (fun a => Dataset.bind (Dataset.deref a)
                (fun stream => Dataset.lift (f stream))) e
  = (e, gather (Dataset.heap e) f l).
Proof.
  set (body := fun a => Dataset.bind _ _).
  assert (Hbody : forall a,
            body a e = (e, match Dataset.heap e !! a with
                           | Some s => f s
                           | None => Raise AttributeError
                           end)).
  { intros a. unfold body, Dataset.bind, Dataset.deref, Dataset.lift.
    destruct (Dataset.heap e !! a); reflexivity. }
  induction l as [|a l IH]; simpl; [reflexivity|].
  unfold Dataset.bind at 1. rewrite Hbody.
  destruct (Dataset.heap e !! a) as [s|]; [|reflexivity].
  destruct (f s) as [x|x]; simpl; [|reflexivity].
  unfold Dataset.bind at 1. rewrite IH.
  destruct (gather (Dataset.heap e) f l); reflexivity.
Qed.

Lemma get_stations_run (e : Dataset.Env) :
  Dataset.get_stations e
  = (e, gather (Dataset.heap e) Dataset.get_station
          (Dataset.items (Dataset.self e))).
Proof.
  unfold Dataset.get_stations, Dataset.bind at 1, Dataset.get_self.
  apply collect_gather.
Qed.

Lemma gather_stations (h : list Stream.t) (l : list addr)
    (sts : list Station.t) :
  Forall2 (fun a st => station_at h a = Some st) l sts ->
  gather h Dataset.get_station l = Ok sts.
Proof.
  induction 1 as [|a st l sts Ha _ IH]; simpl; [reflexivity|].
  unfold station_at in Ha. destruct (h !! a) as [s|]; [|discriminate].
  unfold Dataset.get_station at 1. rewrite Ha. simpl. rewrite IH. reflexivity.
Qed.

Lemma selected_meet (h : list Stream.t) (o : option Origin.t)
    (st : option Station.t) (l : list addr) (a : addr) :
  a ∈ selected h o st l ->
  exists s, h !! a = Some s
            /\ meets st (Stream.station s) = true
            /\ meets o (Stream.origin s) = true.
Proof.
  intros Hin. apply list_elem_of_In, filter_In in Hin as [_ Hm].
  destruct (h !! a) as [s|]; [|discriminate].
  apply andb_true_iff in Hm. exists s. tauto.
Qed.

Lemma Forall2_repeat {X Y} (P : X -> Y -> Prop) (l : list X) (y : Y) :
  Forall (fun x => P x y) l -> Forall2 P l (repeat y (length l)).
Proof. induction 1; simpl; constructor; assumption. Qed.

Section Projections.

Variable gps2dist_azimuth : Z -> Z -> Z -> Z -> result (Z * Z * Z).

(** X11.  After selecting by station, [get_stations] names that station
    and nothing else: on a Dataset stored by [append] with both metadata,
    the stations of the selection are as many copies of the criterion as
    the selection has records, and reading them changes nothing. *)
Theorem stations_of_selection (e : Dataset.Env) (st : Station.t) :
  Forall (well_kept gps2dist_azimuth (Dataset.heap e))
         (Dataset.items (Dataset.self e)) ->
  exists d : Dataset.t,
    Dataset.select gps2dist_azimuth None (Some st) e = (e, Ok d)
    /\ Dataset.get_stations (with_self d e)
       = (with_self d e, Ok (repeat st (length (Dataset.items d)))).
Proof.
  intros Hall. eexists. split.
  - apply select_kept; [right; eauto | exact Hall].
  - rewrite get_stations_run. simpl. f_equal.
    apply gather_stations, Forall2_repeat, Forall_forall. intros a Hin.
    destruct (selected_meet _ _ _ _ _ Hin) as (s & Ha & Hst & _).
    unfold station_at. rewrite Ha. simpl in Hst.
    apply bool_decide_eq_true in Hst. exact Hst.
Qed.

End Projections.

Lemma stations_of_selection_witness :
  exists d : Dataset.t,
    Dataset.select flat_geodesy None (Some station_A) stored_env
    = (stored_env, Ok d)
    /\ Dataset.get_stations (with_self d stored_env)
       = (with_self d stored_env,
          Ok (repeat station_A (length (Dataset.items d)))).
Proof.
  exact (stations_of_selection flat_geodesy stored_env station_A
           stored_env_kept).
Defined.

Lemma get_origins_loop (_warnings : bool) (e : Dataset.Env) :
  Dataset.get_origins _warnings e
  = Dataset.collect (Dataset.items (Dataset.self e))
      (origin_turn _warnings) e.
Proof. reflexivity. Qed.

Lemma strangers_cons (o0 o : Origin.t) (os : list Origin.t) :
  strangers o0 (o :: os)
  = ((if bool_decide (o = o0) then 0 else 1) + strangers o0 os)%nat.
Proof.
  unfold strangers. simpl. destruct (bool_decide (o = o0)); reflexivity.
Qed.

Lemma origin_turns_run (_warnings : bool) (o0 : Origin.t) (l : list addr)
    (os : list Origin.t) :
  forall e : Dataset.Env,
    Forall2 (fun a o => origin_at (Dataset.heap e) a = Some o) l os ->
    (_warnings = true ->
     exists a0 rest, Dataset.items (Dataset.self e) = a0 :: rest
                     /\ origin_at (Dataset.heap e) a0 = Some o0) ->
    Dataset.collect l (origin_turn _warnings) e
    = (Dataset.mkEnv (Dataset.heap e) (Dataset.self e)
         (Dataset.warnings e
          ++ (if _warnings
              then repeat Dataset.different_events_warning (strangers o0 os)
              else [])),
       Ok os).
Proof.
  revert os. induction l as [|a l IH]; intros os e Hall Hfirst;
    inversion Hall as [|? o ? os' Ha Hrest]; subst.
  - simpl. destruct _warnings; rewrite app_nil_r; destruct e; reflexivity.
  - cbn [Dataset.collect]. unfold Dataset.bind at 1.
    set (w1 := if _warnings && negb (bool_decide (o = o0))
               then [Dataset.different_events_warning] else []).
    assert (Hturn : origin_turn _warnings a e
                    = (Dataset.mkEnv (Dataset.heap e) (Dataset.self e)
                         (Dataset.warnings e ++ w1), Ok o)).
    { unfold origin_turn, Dataset.bind at 1, Dataset.deref.
      unfold origin_at in Ha.
      destruct (Dataset.heap e !! a) as [s|]; [|discriminate].
      unfold Dataset.bind at 1, Dataset.lift, Dataset.get_origin at 1.
      rewrite Ha. unfold w1. destruct _warnings; simpl.
      - destruct (Hfirst eq_refl) as (a0 & rest & Hitems & Ha0).
        unfold origin_at in Ha0.
        unfold Dataset.first_item, Dataset.get_self,
          Dataset.deref, Dataset.lift, Dataset.get_origin,
          Dataset.warn, Dataset.ret, Dataset.bind.
        cbv beta iota. rewrite Hitems.
        destruct (Dataset.heap e !! a0) as [s0|]; [|discriminate].
        rewrite Ha0.
        destruct (decide (o = o0)) as [->|Hne].
        + rewrite bool_decide_eq_false_2 by tauto.
          rewrite bool_decide_eq_true_2 by reflexivity.
          simpl. rewrite app_nil_r. destruct e; reflexivity.
        + rewrite bool_decide_eq_true_2 by exact Hne.
          rewrite bool_decide_eq_false_2 by exact Hne. reflexivity.
      - unfold Dataset.bind, Dataset.ret. rewrite app_nil_r.
        destruct e; reflexivity. }
    rewrite Hturn. unfold Dataset.bind at 1.
    rewrite (IH os'); [|exact Hrest|exact Hfirst].
    simpl. unfold Dataset.ret. f_equal. f_equal.
    rewrite <- app_assoc. f_equal. unfold w1.
    destruct _warnings; [|reflexivity]. simpl.
    rewrite strangers_cons.
    destruct (bool_decide (o = o0)); reflexivity.
Qed.

Lemma get_origins_run (_warnings : bool) (e : Dataset.Env)
    (os : list Origin.t) :
  Forall2 (fun a o => origin_at (Dataset.heap e) a = Some o)
          (Dataset.items (Dataset.self e)) os ->
  Dataset.get_origins _warnings e
  = (Dataset.mkEnv (Dataset.heap e) (Dataset.self e)
       (Dataset.warnings e ++ origin_warnings _warnings os),
     Ok os).
Proof.
  intros Hall. rewrite get_origins_loop.
  destruct os as [|o0 os].
  - inversion Hall as [Hnil|]; subst. simpl.
    unfold origin_warnings. destruct _warnings; rewrite app_nil_r;
      destruct e; reflexivity.
  - rewrite (origin_turns_run _warnings o0 _ (o0 :: os) e Hall).
    + unfold origin_warnings. destruct _warnings; reflexivity.
    + intros _. inversion Hall as [|a0 ? rest ? Ha0 _]; subst. eauto.
Qed.

(** X12.  [get_origins] returns the origin of every record, in order,
    whether warnings are on or off.  With warnings on it calls
    [warnings.warn] with the "different events" message once for each
    record whose origin differs from that of the first record, and never
    for an empty Dataset; with warnings off it says nothing.  Records and
    Dataset are left alone. *)
Theorem get_origins_warns_per_stranger (_warnings : bool) (e : Dataset.Env)
    (os : list Origin.t) :
  Forall2 (fun a o => origin_at (Dataset.heap e) a = Some o)
          (Dataset.items (Dataset.self e)) os ->
  Dataset.get_origins _warnings e
  = (Dataset.mkEnv (Dataset.heap e) (Dataset.self e)
       (Dataset.warnings e ++ origin_warnings _warnings os),
     Ok os).
Proof. exact (get_origins_run _warnings e os). Qed.

Lemma get_origins_warns_per_stranger_witness :
  Dataset.get_origins true stored_env
  = (Dataset.mkEnv (Dataset.heap stored_env) (Dataset.self stored_env)
       (Dataset.warnings stored_env
        ++ origin_warnings true two_event_origins),
     Ok two_event_origins)
  /\ length (origin_warnings true two_event_origins) = 1%nat.
Proof.
  split; [|reflexivity].
  apply (get_origins_warns_per_stranger true stored_env two_event_origins).
  repeat constructor.
Defined.

Lemma strangers_repeat (o : Origin.t) (n : nat) : strangers o (repeat o n) = 0%nat.
Proof.
  induction n as [|n IH]; [reflexivity|]. simpl repeat.
  rewrite strangers_cons, bool_decide_eq_true_2 by reflexivity. exact IH.
Qed.

Lemma origin_warnings_repeat (_warnings : bool) (o : Origin.t) (n : nat) :
  origin_warnings _warnings (repeat o n) = [].
Proof.
  unfold origin_warnings. destruct _warnings; [|reflexivity].
  destruct n as [|n]; [reflexivity|]. cbn [repeat].
  change (o :: repeat o n) with (repeat o (S n)).
  rewrite strangers_repeat. reflexivity.
Qed.

Section OriginsOfSelection.

Variable gps2dist_azimuth : Z -> Z -> Z -> Z -> result (Z * Z * Z).

(** X13.  A Dataset selected by origin is a single-event Dataset: its
    origins are all the criterion, and [get_origins] issues no
    "different events" warning on it even with warnings on. *)
Theorem origins_of_selection (e : Dataset.Env) (o : Origin.t)
    (_warnings : bool) :
  Forall (well_kept gps2dist_azimuth (Dataset.heap e))
         (Dataset.items (Dataset.self e)) ->
  exists d : Dataset.t,
    Dataset.select gps2dist_azimuth (Some o) None e = (e, Ok d)
    /\ Dataset.get_origins _warnings (with_self d e)
       = (with_self d e, Ok (repeat o (length (Dataset.items d)))).
Proof.
  intros Hall. eexists. split.
  - apply select_kept; [left; eauto | exact Hall].
  - rewrite (get_origins_run _warnings _
               (repeat o (length
                  (selected (Dataset.heap e) (Some o) None
                     (Dataset.items (Dataset.self e)))))).
    + rewrite origin_warnings_repeat. simpl. rewrite app_nil_r.
      reflexivity.
    + simpl. apply Forall2_repeat, Forall_forall. intros a Hin.
      destruct (selected_meet _ _ _ _ _ Hin) as (s & Ha & _ & Ho).
      unfold origin_at. rewrite Ha. simpl in Ho.
      apply bool_decide_eq_true in Ho. exact Ho.
Qed.

End OriginsOfSelection.

Lemma origins_of_selection_witness :
  exists d : Dataset.t,
    Dataset.select flat_geodesy (Some origin_1) None stored_env
    = (stored_env, Ok d)
    /\ Dataset.get_origins true (with_self d stored_env)
       = (with_self d stored_env,
          Ok (repeat origin_1 (length (Dataset.items d)))).
Proof.
  exact (origins_of_selection flat_geodesy stored_env origin_1 true
           stored_env_kept).
Defined.

(** ** [Dataset.apply] *)





(** ** When [Dataset.max] is right *)

Lemma fold_max_spec (l : list Z) :
  forall y : Z,
    y <= fold_left Z.max l y
    /\ (forall d, d ∈ l -> d <= fold_left Z.max l y)
    /\ (fold_left Z.max l y = y \/ fold_left Z.max l y ∈ l).
Proof.
  induction l as [|x l IH]; intros y; simpl.
  - split; [lia|]. split; [|auto]. intros d Hd.
    exfalso. exact (not_elem_of_nil _ Hd).
  - destruct (IH (Z.max y x)) as (Hge & Hall & Hin).
    split; [lia|]. split.
    + intros d Hd. apply elem_of_cons in Hd as [->|Hd]; [lia | auto].
    + destruct Hin as [Heq|Hin].
      * rewrite Heq. destruct (Z.max_spec y x) as [[_ ->]|[_ ->]];
          [right; left | left; reflexivity].
      * right. right. exact Hin.
Qed.

Lemma fold_max_peak (l : list Z) (p y : Z) :
  p ∈ l -> (forall d, d ∈ l -> d <= p) -> fold_left Z.max l y = Z.max y p.
Proof.
  intros Hp Hall. destruct (fold_max_spec l y) as (Hge & Hle & Hin).
  specialize (Hle p Hp).
  destruct Hin as [Heq|Hin]; [lia|]. specialize (Hall _ Hin). lia.
Qed.

Lemma abs_fold (data : list Z) (y : Z) :
  fold_left abs_step data (Fin y)
  = Fin (fold_left Z.max (List.map Z.abs data) y).
Proof.
  revert y. induction data as [|x data IH]; intros y; simpl; [reflexivity|].
  apply IH.
Qed.

Lemma peak_facts (data : list Z) :
  peak_is_positive data ->
  exists p, 0 <= p
            /\ Dataset.data_max data = Ok p
            /\ Dataset.data_max (List.map Z.abs data) = Ok p
            /\ forall acc, fold_left abs_step data acc
                           = (if Dataset.gt p acc then Fin p else acc).
Proof.
  intros (p & Hp & Hall).
  assert (Hp0 : 0 <= p) by (specialize (Hall p Hp); lia).
  assert (Hle : forall d, d ∈ data -> d <= p).
  { intros d Hd. specialize (Hall d Hd). lia. }
  assert (Hpa : p ∈ List.map Z.abs data).
  { apply list_elem_of_fmap. exists p. split; [lia | exact Hp]. }
  assert (Hlea : forall d, d ∈ List.map Z.abs data -> d <= p).
  { intros d Hd. apply list_elem_of_fmap in Hd as (d' & -> & Hd'). auto. }
  exists p. split; [exact Hp0|].
  destruct data as [|x data]; [exfalso; exact (not_elem_of_nil _ Hp)|].
  assert (Hx : x <= p) by (apply Hle; left).
  assert (Hxa : Z.abs x <= p) by (apply Hall; left).
  split; [|split].
  - simpl. f_equal.
    apply elem_of_cons in Hp as [->|Hp].
    + destruct (fold_max_spec data x) as (Hge & _ & [Heq|Hin]); [exact Heq|].
      assert (fold_left Z.max data x <= x) by (apply Hle; right; exact Hin).
      lia.
    + rewrite (fold_max_peak data p x Hp); [lia|].
      intros d Hd. apply Hle. right. exact Hd.
  - simpl. f_equal. simpl in Hpa.
    apply elem_of_cons in Hpa as [Heq|Hpa].
    + destruct (fold_max_spec (List.map Z.abs data) (Z.abs x))
        as (Hge & _ & [Heq'|Hin]); [lia|].
      assert (fold_left Z.max (List.map Z.abs data) (Z.abs x) <= p)
        by (apply Hlea; right; exact Hin).
      lia.
    + rewrite (fold_max_peak _ p (Z.abs x) Hpa); [lia|].
      intros d Hd. apply Hlea. right. exact Hd.
  - intros acc.
    assert (Hfold : forall y, fold_left Z.max (List.map Z.abs (x :: data)) y
                              = Z.max y p).
    { intros y. apply fold_max_peak; assumption. }
    destruct acc as [|y]; simpl.
    + rewrite abs_fold. simpl in Hfold.
      specialize (Hfold (Z.abs x)). simpl in Hfold.
      rewrite Z.max_id in Hfold. rewrite Hfold. f_equal. lia.
    + rewrite abs_fold. specialize (Hfold y). simpl in Hfold. rewrite Hfold.
      destruct (Z.ltb_spec y p); f_equal; lia.
Qed.

Lemma max_traces_upright (ts : list Trace.t) :
  Forall (fun tr => Dataset.truthy (Dataset.getattr_weight tr) = true ->
                    peak_is_positive (Trace.data tr)) ts ->
  forall acc : amplitude,
    Dataset.max_traces ts acc
    = Ok (fold_left abs_step
            (concat (List.map
               (fun tr => if Dataset.truthy (Dataset.getattr_weight tr)
                          then Trace.data tr else []) ts))
            acc).
Proof.
  induction 1 as [|tr ts Htr _ IH]; intros acc; [reflexivity|].
  cbn [Dataset.max_traces List.map concat].
  destruct (Dataset.truthy (Dataset.getattr_weight tr)) eqn:Hw; simpl.
  - destruct (peak_facts _ (Htr eq_refl)) as (p & _ & Hmax & Habs & Hstep).
    rewrite Hmax. simpl. rewrite fold_left_app, Hstep.
    destruct (Dataset.gt p acc); [rewrite Habs; simpl|]; apply IH.
  - apply IH.
Qed.

Lemma max_streams_upright (l : list addr) (e : Dataset.Env) :
  Forall (good_at upright (Dataset.heap e)) l ->
  forall acc : amplitude,
    Dataset.max_streams l acc e
    = (e, Ok (fold_left abs_step
                (concat (List.map
                   (fun a => match Dataset.heap e !! a with
                             | Some s => weighted_samples s
                             | None => []
                             end) l))
                acc)).
Proof.
  induction 1 as [|a l (s & Ha & Hs) _ IH]; intros acc; [reflexivity|].
  cbn [Dataset.max_streams List.map concat].
  unfold Dataset.bind at 1, Dataset.deref. rewrite Ha.
  unfold Dataset.bind at 1, Dataset.lift.
  rewrite (max_traces_upright _ Hs). rewrite IH, fold_left_app.
  reflexivity.
Qed.

(** X15.  [Dataset.max] does return the maximum absolute amplitude when
    no trace that counts peaks downwards: if in every weighted trace the
    largest sample is at least as large as every sample in absolute value
    (in particular, when no sample is negative), the answer is the largest
    absolute sample over all weighted traces, and nothing is changed. *)
Theorem max_is_right_on_upright_data (e : Dataset.Env) :
  Forall (good_at upright (Dataset.heap e))
         (Dataset.items (Dataset.self e)) ->
  Dataset.max e = (e, Ok (max_abs_amplitude e)).
Proof.
  intros Hall. unfold Dataset.max, Dataset.bind at 1, Dataset.get_self.
  rewrite (max_streams_upright _ e Hall). reflexivity.
Qed.

Lemma max_is_right_on_upright_data_witness :
  Dataset.max upright_env = (upright_env, Ok (Fin 7))
  /\ max_abs_amplitude upright_env = Fin 7.
Proof.
  split; [|reflexivity].
  apply (max_is_right_on_upright_data upright_env).
  repeat constructor; unfold good_at, upright; simpl; eexists;
    (split; [reflexivity|]); repeat constructor; simpl; intros Hw;
    try discriminate.
  - exists 7. split; [repeat constructor|]. intros y Hy.
    repeat (apply elem_of_cons in Hy as [->|Hy]; [lia|]).
    exfalso. exact (not_elem_of_nil _ Hy).
  - exists 4. split; [repeat constructor|]. intros y Hy.
    repeat (apply elem_of_cons in Hy as [->|Hy]; [lia|]).
    exfalso. exact (not_elem_of_nil _ Hy).
Defined.

Lemma skipna_mirror (x b : UQ.score) :
  UQ.gt_skipna (opposite x) (opposite b) = UQ.lt_skipna x b.
Proof.
  destruct x as [|x], b as [|b]; simpl; try reflexivity.
  rewrite Z.gtb_ltb.
  destruct (Z.ltb_spec x b), (Z.ltb_spec (- b) (- x)); try reflexivity; lia.
Qed.

Lemma opposite_involutive (v : UQ.score) : opposite (opposite v) = v.
Proof. destruct v as [|x]; simpl; [reflexivity|]. f_equal. lia. Qed.

Lemma argbest_from_mirror (l : list UQ.score) :
  forall (b : UQ.score) (bi i : nat),
    UQ.argbest_from UQ.lt_skipna b bi i l
    = (opposite (fst (UQ.argbest_from UQ.gt_skipna (opposite b) bi i
                        (List.map opposite l))),
       snd (UQ.argbest_from UQ.gt_skipna (opposite b) bi i
              (List.map opposite l))).
Proof.
  induction l as [|x l IH]; intros b bi i; simpl.
  - rewrite opposite_involutive. reflexivity.
  - rewrite skipna_mirror. destruct (UQ.lt_skipna x b); apply IH.
Qed.

Lemma argbest_mirror (l : list UQ.score) :
  UQ.argbest UQ.lt_skipna l
  = (r <~ UQ.argbest UQ.gt_skipna (List.map opposite l) ;;
     Ok (opposite (fst r), snd r)).
Proof.
  destruct l as [|x l]; simpl; [reflexivity|].
  rewrite argbest_from_mirror. reflexivity.
Qed.

Lemma getitem_negate (ds : UQ.DataArray UQ.score) (key : list UQ.indexer) :
  UQ.getitem (negate ds) key
  = (sliced <~ UQ.getitem ds key ;; Ok (negate sliced)).
Proof.
  unfold UQ.getitem, negate. cbn [UQ.shape UQ.values].
  destruct (UQ.getitem_shape key (UQ.shape ds)) as [sh|x]; [|reflexivity].
  cbn [rbind UQ.shape UQ.values]. rewrite getitem_values_map. reflexivity.
Qed.

Lemma min_as_max (sliced : UQ.DataArray UQ.score) :
  UQ.min sliced = (m <~ UQ.max (negate sliced) ;; Ok (opposite m))
  /\ UQ.argmin sliced = UQ.argmax (negate sliced).
Proof.
  unfold UQ.min, UQ.argmin, UQ.max, UQ.argmax, negate. cbn [UQ.values].
  rewrite argbest_mirror.
  destruct (UQ.argbest UQ.gt_skipna _) as [[m k]|x]; split; try reflexivity.
  cbn [rbind]. unfold UQ.index_of_best. cbn [fst snd].
  destruct m; reflexivity.
Qed.

Lemma min_loop_mirror (ds : UQ.DataArray UQ.score) (range : list nat) :
  UQ.min_loop ds range = mirror (UQ.max_loop (negate ds) range).
Proof.
  induction range as [|i range IH]; [reflexivity|].
  cbn [UQ.min_loop UQ.max_loop]. rewrite getitem_negate.
  destruct (UQ.getitem ds (UQ.last_axis_key i)) as [sliced|x];
    [|reflexivity].
  cbn [rbind]. destruct (min_as_max sliced) as [-> ->].
  destruct (UQ.max (negate sliced)) as [m|x]; [|reflexivity].
  cbn [rbind].
  destruct (UQ.argmax (negate sliced)) as [k|x]; [|reflexivity].
  cbn [rbind]. rewrite IH.
  destruct (UQ.max_loop (negate ds) range) as [[vs ks]|x]; reflexivity.
Qed.

(** X16.  The two projections mirror each other: the min projection of a
    surface is the max projection of the negated surface with its values
    negated back, and with the very same indices (ties go to the first
    entry in both).  This holds for every array, also where the reductions
    raise: they then raise the same error. *)
Theorem min_is_mirrored_max (ds : UQ.DataArray UQ.score) :
  UQ._min_dataarray ds = mirror (UQ._max_dataarray (negate ds)).
Proof.
  unfold UQ._min_dataarray, UQ._max_dataarray, UQ.last_axis. simpl UQ.shape.
  destruct (last (UQ.shape ds)) as [n|]; [|reflexivity].
  cbn [rbind]. apply min_loop_mirror.
Qed.

(** ** What a profile is made of *)

Lemma argbest_from_within {T} (better : T -> T -> bool) (l : list T) :
  forall (b : T) (bi i : nat),
    fst (UQ.argbest_from better b bi i l) ∈ b :: l.
Proof.
  induction l as [|x l IH]; intros b bi i; simpl; [left|].
  destruct (better x b).
  - right. apply IH.
  - specialize (IH b bi (S i)).
    apply elem_of_cons in IH as [->|IH]; [left | right; right; exact IH].
Qed.

Lemma argbest_within {T} (better : T -> T -> bool) (l : list T)
    (r : T * nat) :
  UQ.argbest better l = Ok r -> fst r ∈ l.
Proof.
  destruct l as [|x l]; [discriminate|]. intros [= <-].
  apply argbest_from_within.
Qed.

Lemma min_loop_profile (ds : UQ.DataArray UQ.score) (range : list nat) :
  forall (vs : list UQ.score) (ks : list nat),
    UQ.min_loop ds range = Ok (vs, ks) ->
    length vs = length range /\ length ks = length range
    /\ Forall (fun v => v ∈ UQ.values ds) vs.
Proof.
  induction range as [|i range IH]; intros vs ks Hrun;
    cbn [UQ.min_loop] in Hrun.
  - inversion Hrun; subst. repeat split. constructor.
  - unfold UQ.getitem in Hrun.
    destruct (UQ.getitem_shape _ _) as [sh|]; [|discriminate].
    cbn [rbind] in Hrun. unfold UQ.min, UQ.argmin in Hrun.
    cbn [UQ.values] in Hrun.
    destruct (UQ.argbest UQ.lt_skipna _) as [r|] eqn:Hbest; [|discriminate].
    cbn [rbind] in Hrun.
    destruct (UQ.index_of_best r) as [k|]; [|discriminate].
    cbn [rbind] in Hrun.
    destruct (UQ.min_loop ds range) as [[vs' ks']|]; [|discriminate].
    cbn [rbind] in Hrun. inversion Hrun; subst.
    destruct (IH vs' ks' eq_refl) as (Hv & Hk & Hin). simpl.
    repeat split; try congruence. constructor; [|exact Hin].
    eapply getitem_values_within, argbest_within, Hbest.
Qed.

Lemma max_loop_profile (ds : UQ.DataArray UQ.score) (range : list nat) :
  forall (vs : list UQ.score) (ks : list nat),
    UQ.max_loop ds range = Ok (vs, ks) ->
    length vs = length range /\ length ks = length range
    /\ Forall (fun v => v ∈ UQ.values ds) vs.
Proof.
  induction range as [|i range IH]; intros vs ks Hrun;
    cbn [UQ.max_loop] in Hrun.
  - inversion Hrun; subst. repeat split. constructor.
  - unfold UQ.getitem in Hrun.
    destruct (UQ.getitem_shape _ _) as [sh|]; [|discriminate].
    cbn [rbind] in Hrun. unfold UQ.max, UQ.argmax in Hrun.
    cbn [UQ.values] in Hrun.
    destruct (UQ.argbest UQ.gt_skipna _) as [r|] eqn:Hbest; [|discriminate].
    cbn [rbind] in Hrun.
    destruct (UQ.index_of_best r) as [k|]; [|discriminate].
    cbn [rbind] in Hrun.
    destruct (UQ.max_loop ds range) as [[vs' ks']|]; [|discriminate].
    cbn [rbind] in Hrun. inversion Hrun; subst.
    destruct (IH vs' ks' eq_refl) as (Hv & Hk & Hin). simpl.
    repeat split; try congruence. constructor; [|exact Hin].
    eapply getitem_values_within, argbest_within, Hbest.
Qed.

(** X17.  Whenever a projection returns, whatever the shape of the
    surface, its profile has exactly one value and one index for each
    position of the last axis, and every value of the profile is a score
    of the surface. *)
Theorem profile_has_last_axis_length (ds : UQ.DataArray UQ.score)
    (vs : list UQ.score) (ks : list nat) :
  UQ._min_dataarray ds = Ok (vs, ks) \/ UQ._max_dataarray ds = Ok (vs, ks) ->
  last (UQ.shape ds) = Some (length vs)
  /\ length ks = length vs
  /\ Forall (fun v => v ∈ UQ.values ds) vs.
Proof.
  unfold UQ._min_dataarray, UQ._max_dataarray, UQ.last_axis.
  destruct (last (UQ.shape ds)) as [n|]; cbn [rbind];
    [|intros [H|H]; discriminate].
  intros [Hrun|Hrun];
    [apply min_loop_profile in Hrun | apply max_loop_profile in Hrun];
    destruct Hrun as (Hv & Hk & Hin); rewrite length_seq in Hv, Hk;
    (split; [congruence|]); (split; [congruence | exact Hin]).
Qed.

Lemma profile_has_last_axis_length_witness :
  last (UQ.shape surface8) = Some (length [UQ.Num 1; UQ.Num 3])
  /\ length [0; 0]%nat = length [UQ.Num 1; UQ.Num 3]
  /\ Forall (fun v => v ∈ UQ.values surface8) [UQ.Num 1; UQ.Num 3].
Proof.
  apply (profile_has_last_axis_length surface8 [UQ.Num 1; UQ.Num 3]
           [0; 0]%nat).
  left. reflexivity.
Defined.

(** X18.  On a well-formed surface of numbers with more than seven axes,
    none of them empty, the reductions slice along the seventh axis while
    counting along the last one: they return a profile when the last axis
    is no longer than the seventh, and raise [IndexError] when it is
    longer. *)
Theorem many_axes_index_the_seventh (lead tail : list nat) (n k : nat)
    (scores : list Z) :
  length lead = 6%nat ->
  last tail = Some k ->
  UQ.size lead <> 0%nat -> UQ.size tail <> 0%nat ->
  length scores = UQ.size (lead ++ n :: tail) ->
  ((k <= n)%nat ->
   exists r r',
     UQ._min_dataarray (numeric (lead ++ n :: tail) scores) = Ok r
     /\ UQ._max_dataarray (numeric (lead ++ n :: tail) scores) = Ok r')
  /\ ((n < k)%nat ->
      UQ._min_dataarray (numeric (lead ++ n :: tail) scores)
      = Raise IndexError
      /\ UQ._max_dataarray (numeric (lead ++ n :: tail) scores)
         = Raise IndexError).
Proof.
  intros H6 Hlast Hlead Htail Hlen.
  destruct (many_axes_run lead tail n k scores H6 Hlast Hlead Htail Hlen)
    as [Hfits Hlong].
  split; [exact Hfits | exact Hlong].
Qed.

Lemma many_axes_index_the_seventh_witness :
  (exists r r',
     UQ._min_dataarray surface8 = Ok r /\ UQ._max_dataarray surface8 = Ok r')
  /\ UQ._min_dataarray surface8_long = Raise IndexError
  /\ UQ._max_dataarray surface8_long = Raise IndexError.
Proof.
  split.
  - apply (many_axes_index_the_seventh [1; 1; 1; 1; 1; 1]%nat [2]%nat
             2%nat 2%nat [1; 2; 3; 4]);
      try reflexivity; simpl; lia.
  - apply (many_axes_index_the_seventh [1; 1; 1; 1; 1; 1]%nat [2]%nat
             1%nat 2%nat [1; 2]);
      try reflexivity; simpl; lia.
Defined.

(** ** [_get_tag] *)

Lemma split_nonempty (tag : string) : Waveform.split tag <> [].
Proof.
  induction tag as [|c rest IH]; simpl; [discriminate|].
  destruct (bool_decide (c = ":"%char)); [discriminate|].
  destruct (Waveform.split rest); [contradiction | discriminate].
Qed.

Lemma split_colon_free (s : string) :
  has_colon s = false -> Waveform.split s = [s].
Proof.
  induction s as [|c rest IH]; simpl; [reflexivity|].
  intros H. apply orb_false_iff in H as [Hc Hrest].
  rewrite Hc, (IH Hrest). reflexivity.
Qed.

Lemma split_keyed (key value : string) :
  has_colon key = false ->
  Waveform.split (keyed_tag key value) = key :: Waveform.split value.
Proof.
  unfold keyed_tag. induction key as [|c rest IH]; simpl.
  - intros _. reflexivity.
  - intros H. apply orb_false_iff in H as [Hc Hrest].
    rewrite Hc, (IH Hrest). reflexivity.
Qed.

Lemma get_tag_skips (before rest : list string) (pattern : string) :
  Forall (fun tag => tag_key tag <> pattern) before ->
  Waveform._get_tag (before ++ rest) pattern = Waveform._get_tag rest pattern.
Proof.
  induction 1 as [|tag before Htag _ IH]; [reflexivity|].
  cbn [app Waveform._get_tag]. unfold tag_key in Htag.
  destruct (Waveform.split tag) as [|part0 parts] eqn:Hs.
  - exfalso. exact (split_nonempty _ Hs).
  - cbv beta iota. rewrite bool_decide_eq_false_2 by exact Htag. exact IH.
Qed.

Lemma tag_key_colon_free (s : string) :
  has_colon s = false -> tag_key s = s.
Proof.
  intros H. unfold tag_key. rewrite (split_colon_free s H). reflexivity.
Qed.

Lemma keyed_tag_found (before after : list string) (key value : string) :
  has_colon key = false ->
  Forall (fun tag => tag_key tag <> key) before ->
  Waveform._get_tag (before ++ keyed_tag key value :: after) key
  = Ok (Some (tag_key value)).
Proof.
  intros Hkey Hbefore. rewrite get_tag_skips by exact Hbefore.
  cbn [Waveform._get_tag]. rewrite split_keyed by exact Hkey.
  cbv beta iota. rewrite bool_decide_eq_true_2 by reflexivity.
  unfold tag_key. destruct (Waveform.split value) as [|part1 parts] eqn:Hs.
  - exfalso. exact (split_nonempty _ Hs).
  - reflexivity.
Qed.

(** X19.  [_get_tag] looks tags up by key (a key holds no colon).  If no
    earlier tag has the key, the first tag [key:value] answers the value
    up to its first colon, which is the whole value when the value holds
    no colon; if no tag has the key at all the answer is [None]; and if
    the first tag with the key is the bare key, without a colon, the
    lookup raises [IndexError]. *)
Theorem get_tag_by_key (before after : list string) (key value : string) :
  has_colon key = false ->
  Forall (fun tag => tag_key tag <> key) before ->
  Waveform._get_tag (before ++ keyed_tag key value :: after) key
  = Ok (Some (tag_key value))
  /\ (has_colon value = false ->
      Waveform._get_tag (before ++ keyed_tag key value :: after) key
      = Ok (Some value))
  /\ Waveform._get_tag before key = Ok None
  /\ Waveform._get_tag (before ++ key :: after) key = Raise IndexError.
Proof.
  intros Hkey Hbefore.
  pose proof (keyed_tag_found before after key value Hkey Hbefore) as Hfound.
  split; [exact Hfound|]. split; [|split].
  - intros Hvalue. rewrite Hfound, (tag_key_colon_free value Hvalue).
    reflexivity.
  - rewrite <- (app_nil_r before), get_tag_skips by exact Hbefore.
    reflexivity.
  - rewrite get_tag_skips by exact Hbefore. cbn [Waveform._get_tag].
    rewrite (split_colon_free key Hkey). cbv beta iota.
    rewrite bool_decide_eq_true_2 by reflexivity. reflexivity.
Qed.

Lemma get_tag_by_key_witness :
  Waveform._get_tag ["solver:fk"; "model:ak135:v2"; "model:prem"]%string
    "model"
  = Ok (Some "ak135"%string)
  /\ Waveform._get_tag ["solver:fk"; "model:ak135"; "model:prem"]%string
       "model"
     = Ok (Some "ak135"%string)
  /\ Waveform._get_tag ["solver:fk"]%string "model" = Ok None
  /\ Waveform._get_tag ["solver:fk"; "model"; "model:prem"]%string "model"
     = Raise IndexError.
Proof.
  assert (Hbefore : Forall (fun tag => tag_key tag <> "model"%string)
                      ["solver:fk"%string]).
  { repeat constructor. vm_compute. discriminate. }
  split.
  - exact (proj1 (get_tag_by_key ["solver:fk"%string] ["model:prem"%string]
                    "model" "ak135:v2" eq_refl Hbefore)).
  - destruct (get_tag_by_key ["solver:fk"%string] ["model:prem"%string]
                "model" "ak135" eq_refl Hbefore)
      as (_ & Hfound & Habsent & Hbare).
    split; [exact (Hfound eq_refl)|]. split; [exact Habsent | exact Hbare].
Defined.

(** X20.  What [tag_add] stores, [_get_tag] finds, up to the first colon
    of the value: after [tag_add("key:value")], with a key that holds no
    colon, on a Dataset whose records have tag lists, every record that
    had no tag with that key answers, to a lookup of the key, the value up
    to its first colon; that is the value itself when it holds no
    colon. *)
Theorem tag_add_then_get_tag (e : Dataset.Env) (key value : string) :
  has_colon key = false ->
  Forall (has_tags (Dataset.heap e)) (Dataset.items (Dataset.self e)) ->
  exists e',
    Dataset.tag_add (VStr (keyed_tag key value)) e = (e', Ok tt)
    /\ forall (a : addr) (s : Stream.t) (l : list string),
         a ∈ Dataset.items (Dataset.self e) ->
         Dataset.heap e !! a = Some s -> Stream.tags s = Some l ->
         Forall (fun tag => tag_key tag <> key) l ->
         exists s' l',
           Dataset.heap e' !! a = Some s' /\ Stream.tags s' = Some l'
           /\ Waveform._get_tag l' key = Ok (Some (tag_key value))
           /\ (has_colon value = false ->
               Waveform._get_tag l' key = Ok (Some value)).
Proof.
  intros Hkey Hall. rewrite tag_add_loop.
  destruct (tag_loop_effect (keyed_tag key value) _ e Hall)
    as (e' & Hrun & _ & _ & Hheap).
  exists e'. split; [exact Hrun|]. intros a s l Hin Ha Hl Hfree.
  exists (with_tag (keyed_tag key value) s), (l ++ [keyed_tag key value]).
  split; [rewrite Hheap, bool_decide_eq_true_2, Ha by exact Hin; reflexivity|].
  assert (Hnew : keyed_tag key value ∉ l).
  { intros Hmem. rewrite Forall_forall in Hfree.
    apply (Hfree _ Hmem). unfold tag_key.
    rewrite split_keyed by exact Hkey. reflexivity. }
  pose proof (keyed_tag_found l [] key value Hkey Hfree) as Hfound.
  split; [|split].
  - unfold with_tag. rewrite Hl, bool_decide_eq_false_2 by exact Hnew.
    reflexivity.
  - exact Hfound.
  - intros Hvalue. rewrite Hfound, (tag_key_colon_free value Hvalue).
    reflexivity.
Qed.

Lemma tag_add_then_get_tag_witness :
  (exists e',
     Dataset.tag_add (VStr "model:ak135") solver_env = (e', Ok tt)
     /\ exists s' l',
          Dataset.heap e' !! 0%nat = Some s' /\ Stream.tags s' = Some l'
          /\ Waveform._get_tag l' "model" = Ok (Some "ak135"%string))
  /\ (exists e',
        Dataset.tag_add (VStr "time:12:30") solver_env = (e', Ok tt)
        /\ exists s' l',
             Dataset.heap e' !! 0%nat = Some s' /\ Stream.tags s' = Some l'
             /\ Waveform._get_tag l' "time" = Ok (Some "12"%string)).
Proof.
  assert (Hall : Forall (has_tags (Dataset.heap solver_env))
                   (Dataset.items (Dataset.self solver_env))).
  { repeat constructor; unfold has_tags; simpl; eauto. }
  split.
  - destruct (tag_add_then_get_tag solver_env "model" "ak135" eq_refl Hall)
      as (e' & Hrun & Hget).
    exists e'. split; [exact Hrun|].
    destruct (Hget 0%nat (tagged_stream ["solver:fk"%string])
                ["solver:fk"%string])
      as (s' & l' & Hs' & Hl' & _ & Hvalue).
    + repeat constructor.
    + reflexivity.
    + reflexivity.
    + repeat constructor. vm_compute. discriminate.
    + exists s', l'. repeat split; try assumption. exact (Hvalue eq_refl).
  - destruct (tag_add_then_get_tag solver_env "time" "12:30" eq_refl Hall)
      as (e' & Hrun & Hget).
    exists e'. split; [exact Hrun|].
    destruct (Hget 0%nat (tagged_stream ["solver:fk"%string])
                ["solver:fk"%string])
      as (s' & l' & Hs' & Hl' & Hpart & _).
    + repeat constructor.
    + reflexivity.
    + reflexivity.
    + repeat constructor. vm_compute. discriminate.
    + exists s', l'. repeat split; assumption.
Defined.

(** ** [_count] and [_isempty] *)

Lemma count_loop_from (tuples : list (list Stream.t)) (count : nat) :
  Waveform.count_loop tuples count
  = (count + Waveform.count_loop tuples 0)%nat.
Proof.
  revert count. induction tuples as [|streams rest IH]; intros count; simpl.
  - lia.
  - destruct (existsb Waveform.nonempty streams).
    + rewrite (IH (S count)), (IH 1%nat). lia.
    + apply IH.
Qed.

Lemma count_single (d : list Stream.t) :
  Waveform.count_loop (List.map (fun stream => [stream]) d) 0 = with_traces d.
Proof.
  unfold with_traces. induction d as [|s d IH]; simpl; [reflexivity|].
  rewrite orb_false_r. destruct (Waveform.nonempty s); simpl.
  - rewrite count_loop_from, IH. reflexivity.
  - exact IH.
Qed.

Lemma count_pair (d1 : list Stream.t) :
  forall d2 : list Stream.t,
    Waveform.count_loop
      (zip_with cons d1 (List.map (fun stream => [stream]) d2)) 0
    = with_traces2 d1 d2.
Proof.
  induction d1 as [|s1 d1 IH]; intros [|s2 d2]; simpl; try reflexivity.
  rewrite orb_false_r.
  destruct (Waveform.nonempty s1 || Waveform.nonempty s2).
  - rewrite count_loop_from, IH. reflexivity.
  - apply IH.
Qed.

Lemma count_of_one (d : list Stream.t) :
  Waveform._count [Some d] = with_traces d.
Proof.
  unfold Waveform._count. destruct d as [|s d]; [reflexivity|].
  cbn [Waveform.truthy_datasets Waveform.zip_star]. apply count_single.
Qed.

Lemma count_of_two (d1 d2 : list Stream.t) :
  Waveform._count [Some d1; Some d2]
  = match d1, d2 with
    | [], _ => with_traces d2
    | _, [] => with_traces d1
    | _, _ => with_traces2 d1 d2
    end.
Proof.
  unfold Waveform._count.
  destruct d1 as [|s1 d1], d2 as [|s2 d2];
    cbn [Waveform.truthy_datasets Waveform.zip_star];
    try reflexivity; try apply count_single.
  apply count_pair.
Qed.

Lemma with_traces_zero (d : list Stream.t) :
  with_traces d = 0%nat <-> Forall (fun s => Stream.traces s = []) d.
Proof.
  unfold with_traces. induction d as [|s d IH]; simpl.
  - split; [constructor | reflexivity].
  - unfold Waveform.nonempty at 1.
    destruct (Stream.traces s) eqn:Ht; simpl.
    + rewrite IH. split; [constructor; assumption|].
      intros H. inversion H; assumption.
    + split; [discriminate|]. intros H. inversion H; congruence.
Qed.

(** X21.  A dataset is empty for [_isempty] exactly when it is [None] or
    none of its streams holds a trace; so a Dataset full of traceless
    streams counts as empty, just as one without streams does. *)
Theorem isempty_iff_no_trace (d : Waveform.dataset) :
  Waveform._isempty d = true
  <-> forall streams, d = Some streams ->
                      Forall (fun s => Stream.traces s = []) streams.
Proof.
  destruct d as [[|s l]|].
  - simpl. split; [|reflexivity]. intros _ streams [= <-]. constructor.
  - unfold Waveform._isempty. rewrite count_of_one, Nat.eqb_eq.
    rewrite with_traces_zero. split.
    + intros H streams [= <-]. exact H.
    + intros H. apply H. reflexivity.
  - simpl. split; [|reflexivity]. intros _ streams [=].
Qed.

Lemma with_traces2_sym (d1 : list Stream.t) :
  forall d2, with_traces2 d1 d2 = with_traces2 d2 d1.
Proof.
  induction d1 as [|s1 d1 IH]; intros [|s2 d2]; simpl; try reflexivity.
  rewrite IH, orb_comm. reflexivity.
Qed.

Lemma with_traces2_bounds (d1 : list Stream.t) :
  forall d2,
    (with_traces2 d1 d2 <= with_traces d1 + with_traces d2)%nat
    /\ (length d1 = length d2 ->
        (with_traces d1 <= with_traces2 d1 d2)%nat
        /\ (with_traces d2 <= with_traces2 d1 d2)%nat).
Proof.
  unfold with_traces.
  induction d1 as [|s1 d1 IH]; intros [|s2 d2]; simpl;
    try (split; [lia | intros; try discriminate; split; lia]).
  destruct (IH d2) as [Hsum Heq].
  destruct (Waveform.nonempty s1), (Waveform.nonempty s2); simpl;
    (split; [lia|]); intros [= Hlen]; destruct (Heq Hlen); split; lia.
Qed.

(** X22.  Counting over two datasets: [_count([a, b])] is the same as
    [_count([b, a])], is never more than [_count([a]) + _count([b])], and,
    when the two have equally many streams, is at least each of
    [_count([a])] and [_count([b])]. *)
Theorem count_of_two_datasets (a b : list Stream.t) :
  Waveform._count [Some a; Some b] = Waveform._count [Some b; Some a]
  /\ (Waveform._count [Some a; Some b]
      <= Waveform._count [Some a] + Waveform._count [Some b])%nat
  /\ (length a = length b ->
      (Waveform._count [Some a] <= Waveform._count [Some a; Some b])%nat
      /\ (Waveform._count [Some b] <= Waveform._count [Some a; Some b])%nat).
Proof.
  rewrite !count_of_two, !count_of_one.
  destruct (with_traces2_bounds a b) as [Hsum Heq].
  pose proof (with_traces2_sym a b) as Hsym.
  destruct a as [|s1 a], b as [|s2 b];
    try (split; [reflexivity|]; split; [lia|]; intros Hlen;
         try discriminate; split; lia).
  split; [exact Hsym|]. split; [exact Hsum | exact Heq].
Qed.

Lemma count_of_two_datasets_witness :
  Waveform._count [Some body_waves; Some surface_waves] = 2%nat
  /\ (Waveform._count [Some body_waves]
      <= Waveform._count [Some body_waves; Some surface_waves])%nat
  /\ (Waveform._count [Some surface_waves]
      <= Waveform._count [Some body_waves; Some surface_waves])%nat.
Proof.
  split; [reflexivity|].
  destruct (count_of_two_datasets body_waves surface_waves) as (_ & _ & Heq).
  exact (Heq eq_refl).
Defined.

Lemma isempty_iff_no_trace_witness :
  Waveform._isempty (Some [silent; silent]) = true.
Proof.
  apply (proj2 (isempty_iff_no_trace (Some [silent; silent]))).
  intros streams [= <-]. repeat constructor.
Defined.

(** ** [DatasetBase.remove] *)

Lemma index_loop_skips (h : list Stream.t) (i : string) (before : list addr) :
  Forall (other_id h i) before ->
  forall (rest : list addr) (index : nat) (e : Dataset.Env),
    Dataset.heap e = h ->
    DatasetBase.index_loop (VStr i) index (before ++ rest) e
    = DatasetBase.index_loop (VStr i) (index + length before) rest e.
Proof.
  induction 1 as [|a before (j & Hj & Hne) _ IH]; intros rest index e He.
  - simpl. rewrite Nat.add_0_r. reflexivity.
  - cbn [app DatasetBase.index_loop length].
    unfold Dataset.bind at 1, Dataset.deref. unfold id_at in Hj.
    rewrite He. destruct (h !! a) as [s|]; [|discriminate].
    unfold Dataset.bind at 1, Dataset.lift, DatasetBase.get_id.
    rewrite Hj. cbn [DatasetBase.same_id].
    rewrite bool_decide_eq_false_2 by congruence.
    rewrite IH by exact He. f_equal. lia.
Qed.

(** X23.  [remove(id)] drops the first record with that identifier and
    nothing else: the records before and after it keep their places, and
    no record is touched.  When no record has the identifier, the call
    raises [TypeError] (from [pop(None)]) and the list is as before. *)
Theorem remove_drops_first_with_id (e : Dataset.Env) (i : string) :
  (Forall (other_id (Dataset.heap e) i) (Dataset.items (Dataset.self e)) ->
   DatasetBase.remove (VStr i) e = (e, Raise TypeError))
  /\
  (forall (before after : list addr) (a : addr),
      Dataset.items (Dataset.self e) = before ++ a :: after ->
      Forall (other_id (Dataset.heap e) i) before ->
      id_at (Dataset.heap e) a = Some i ->
      DatasetBase.remove (VStr i) e
      = (Dataset.mkEnv (Dataset.heap e)
           (Dataset.mk (Dataset.id (Dataset.self e)) (before ++ after))
           (Dataset.warnings e),
         Ok tt)).
Proof.
  split.
  - intros Hall.
    unfold DatasetBase.remove, Dataset.bind at 1, DatasetBase._get_index,
      Dataset.bind at 1, Dataset.get_self.
    rewrite <- (app_nil_r (Dataset.items (Dataset.self e))).
    rewrite (index_loop_skips _ i _ Hall [] 0 e eq_refl). reflexivity.
  - intros before after a Hitems Hbefore Ha.
    unfold DatasetBase.remove, Dataset.bind at 1, DatasetBase._get_index,
      Dataset.bind at 1, Dataset.get_self.
    rewrite Hitems, (index_loop_skips _ i _ Hbefore (a :: after) 0 e eq_refl).
    cbn [DatasetBase.index_loop]. unfold Dataset.bind at 1, Dataset.deref.
    unfold id_at in Ha. destruct (Dataset.heap e !! a) as [s|]; [|discriminate].
    unfold Dataset.bind at 1, Dataset.lift, DatasetBase.get_id.
    rewrite Ha. cbn [DatasetBase.same_id].
    rewrite bool_decide_eq_true_2 by reflexivity.
    unfold Dataset.ret, DatasetBase.pop, Dataset.bind, Dataset.get_self,
      Dataset.put_items.
    cbv beta iota. rewrite Hitems.
    change (0 + length before)%nat with (length before).
    rewrite (list_lookup_middle before after a (length before) eq_refl).
    rewrite (delete_middle before after a). reflexivity.
Qed.

Lemma remove_drops_first_with_id_witness :
  DatasetBase.remove (VStr "IU.KONO.00") stored_env
  = (stored_env, Raise TypeError)
  /\ DatasetBase.remove (VStr "IU.ANMO.00") stored_env
     = (Dataset.mkEnv (Dataset.heap stored_env)
          (Dataset.mk (Some "20090407"%string) ([] ++ [1; 2]%nat))
          (Dataset.warnings stored_env), Ok tt).
Proof.
  split.
  - apply (proj1 (remove_drops_first_with_id stored_env "IU.KONO.00")).
    repeat constructor; unfold other_id; simpl; eexists;
      (split; [reflexivity | discriminate]).
  - apply (proj2 (remove_drops_first_with_id stored_env "IU.ANMO.00")
             [] [1; 2]%nat 0%nat); try reflexivity. constructor.
Defined.

